(** * Supervisor / worker message simulation: a shallow embedding

    The development follows the three C files of the simulation:

    - [common.c]: the selection helpers ([freeSlotFinder],
      [childLabelFinder], [lineCount], [randomActiveChildrenSelection],
      [randomLineSelection]) and the set-up of the shared segment and of
      the named semaphores;
    - [child.c]: the loop run by every forked child;
    - [parent.c]: [parentProcess], the tick loop of the supervisor.

    Conventions of the embedding.

    - C [int] and [pid_t] values are [Z]; a helper that returns [-1] for
      "none" returns [-1] here too.  The counters of the program stay
      inside the [int] range in every tick before tick [INT_MAX]; after
      the body of that tick [++currTime] leaves it.  C leaves that signed overflow undefined,
      and the model stops the run at that increment with the outcome
      [Overflowed]: nothing is said of what the program does next.
    - A C string is the [string] of its characters before the terminating
      zero: [strcmp(..) == 0] is [String.eqb].  A buffer filled by [fgets]
      may hold zero bytes of the file; [strcpy] and [printf("%s")] read
      it as the C string [cstring] of the buffer.  A [processLabel] holds
      at most 9 characters, so [strncpy(.., 10)] copies the whole label.
    - The text file is its content, byte for byte; a [FILE*] position is
      the part of the content not yet read.  [fgets] is modelled on that
      content.
    - [rand()] and [fork()] are answered by an oracle ([Env]); the state
      counts the calls made so far.
    - The processes only interact through the semaphores.  A child is
      blocked in [sem_wait] on the semaphore of its slot whenever the
      parent runs, so the parent's [sem_post]; [sem_wait] pair is run as one
      hand-over: the child waiting on the posted semaphore executes one
      iteration of its loop and posts the notification semaphore.  When no
      child waits on the posted semaphore nobody will ever post the
      notification semaphore: the parent is blocked for good, which the
      model reports as the outcome [Blocked]. *)

From Stdlib Require Import ZArith String Ascii List Bool Lia.
From stdpp Require Import base list.
Import ListNotations.

Local Open Scope Z_scope.

(** ** Data *)

(** The payload that tells a child to leave its loop. *)
Definition TERMINATE : string := "TERMINATE"%string.

Definition noLabel : string := ""%string.

(** [common.h] *)
Definition MAX_LINE_SIZE : nat := 1000.

(** [limits.h], for the 32-bit [int] of the program. *)
Definition INT_MAX : Z := 2147483647.

(** The zero byte, and the C string held in a buffer: the characters
    before the first zero byte. *)
Definition NUL : ascii := "000"%char.

Fixpoint cstring (buffer : string) : string :=
  match buffer with
  | EmptyString => EmptyString
  | String c rest =>
      if Ascii.eqb c NUL then EmptyString else String c (cstring rest)
  end.

Record SharedMemory := mkSharedMemory {
  activeChildIndx : Z;
  endsInTimestamp : Z;
  sharedSpace : string
}.

(** [parent.c]: one line of the configuration file. *)
Record ConfigEntry := mkConfigEntry {
  timestamp : Z;
  processLabel : string;
  command : ascii
}.

(** The locals of [child] that survive one iteration of its loop, with the
    arguments it was started with. *)
Record ChildProc := mkChildProc {
  childPid : Z;
  M_requests : Z;
  activation_time : Z;
  lineCntr : Z
}.

(** The lines a child writes to its [file[pid].log] (the first two are
    printed on the console as well).  Every line carries the pid, so the
    single list [logs] of the state holds all the files, interleaved. *)
Inductive LogLine :=
| LogTerminate (t pid : Z)
| LogMessage (t pid : Z) (msg : string)
| LogSummary (pid lines ends act timeActive : Z).

(** What the parent does that another process or the user can see, in
    program order.  [Tick] is a ghost event marking the entry of the body of
    the tick loop; [SemWait b] is the parent's [sem_wait] on the
    notification semaphore, with [b] telling whether it returned. *)
Inductive Event :=
| Tick (currTime : Z)
| Stderr (msg : string)
| ShmSetup
| SemInit (M : Z)
| PrintSpawned (t : Z) (label : string) (pid : Z)
| PrintSentTerminate (t idx : Z)
| PrintTerminated (t idx : Z)
| PrintWarning (t : Z) (label : string)
| PrintSentMessage (t idx : Z) (line : string)
| MailboxStore (m : SharedMemory)
| SemPost (idx : Z)
| SemWait (returned : bool)
| Waitpid (pid : Z)
| Cleanup.

(** The arrays and counters local to [parentProcess]. *)
Record Parent := mkParent {
  children : list Z;
  childLabels : list string;
  childSemArr : list Z;
  activationTime : list Z;
  terminationTime : list Z;
  activeChildren : Z
}.

(** The whole system: the parent's locals, the shared segment, the values
    of the semaphores, the child blocked on each slot's semaphore (if any),
    the log lines written so far, the oracle counters and the trace. *)
Record State := mkState {
  parent : Parent;
  sharedMem : SharedMemory;
  semaphores : list Z;
  parentNotificationSemaphore : Z;
  procs : list (option ChildProc);
  logs : list LogLine;
  forkCalls : nat;
  randCalls : nat;
  trace : list Event
}.

Record Env := mkEnv {
  rand_value : nat -> N;
  fork_result : nat -> option positive
}.

Inductive Outcome :=
| Continue (s : State)
| Blocked (s : State)
| Trapped (s : State)
| Overflowed (s : State).

Definition andThen (o : Outcome) (k : State -> Outcome) : Outcome :=
  match o with
  | Continue s => k s
  | _ => o
  end.

Definition stateOf (o : Outcome) : State :=
  match o with
  | Continue s | Blocked s | Trapped s | Overflowed s => s
  end.

Inductive Final :=
| ExitFailure (out : list Event)
| Completed (s : State)
| Hung (s : State)
| Killed (s : State)
| Undefined (s : State).

(** ** Field updates *)

Definition set_parent (p : Parent) (s : State) : State :=
  mkState p (sharedMem s) (semaphores s) (parentNotificationSemaphore s)
          (procs s) (logs s) (forkCalls s) (randCalls s) (trace s).

Definition set_sharedMem (m : SharedMemory) (s : State) : State :=
  mkState (parent s) m (semaphores s) (parentNotificationSemaphore s)
          (procs s) (logs s) (forkCalls s) (randCalls s) (trace s).

Definition set_semaphores (l : list Z) (s : State) : State :=
  mkState (parent s) (sharedMem s) l (parentNotificationSemaphore s)
          (procs s) (logs s) (forkCalls s) (randCalls s) (trace s).

Definition set_parentNotificationSemaphore (v : Z) (s : State) : State :=
  mkState (parent s) (sharedMem s) (semaphores s) v
          (procs s) (logs s) (forkCalls s) (randCalls s) (trace s).

Definition set_procs (l : list (option ChildProc)) (s : State) : State :=
  mkState (parent s) (sharedMem s) (semaphores s) (parentNotificationSemaphore s)
          l (logs s) (forkCalls s) (randCalls s) (trace s).

Definition set_logs (l : list LogLine) (s : State) : State :=
  mkState (parent s) (sharedMem s) (semaphores s) (parentNotificationSemaphore s)
          (procs s) l (forkCalls s) (randCalls s) (trace s).

Definition set_forkCalls (n : nat) (s : State) : State :=
  mkState (parent s) (sharedMem s) (semaphores s) (parentNotificationSemaphore s)
          (procs s) (logs s) n (randCalls s) (trace s).

Definition set_randCalls (n : nat) (s : State) : State :=
  mkState (parent s) (sharedMem s) (semaphores s) (parentNotificationSemaphore s)
          (procs s) (logs s) (forkCalls s) n (trace s).

Definition emit (e : Event) (s : State) : State :=
  mkState (parent s) (sharedMem s) (semaphores s) (parentNotificationSemaphore s)
          (procs s) (logs s) (forkCalls s) (randCalls s) (trace s ++ [e]).

Definition set_children (l : list Z) (p : Parent) : Parent :=
  mkParent l (childLabels p) (childSemArr p) (activationTime p)
           (terminationTime p) (activeChildren p).

Definition set_childLabels (l : list string) (p : Parent) : Parent :=
  mkParent (children p) l (childSemArr p) (activationTime p)
           (terminationTime p) (activeChildren p).

Definition set_childSemArr (l : list Z) (p : Parent) : Parent :=
  mkParent (children p) (childLabels p) l (activationTime p)
           (terminationTime p) (activeChildren p).

Definition set_activationTime (l : list Z) (p : Parent) : Parent :=
  mkParent (children p) (childLabels p) (childSemArr p) l
           (terminationTime p) (activeChildren p).

Definition set_terminationTime (l : list Z) (p : Parent) : Parent :=
  mkParent (children p) (childLabels p) (childSemArr p) (activationTime p)
           l (activeChildren p).

Definition set_activeChildren (n : Z) (p : Parent) : Parent :=
  mkParent (children p) (childLabels p) (childSemArr p) (activationTime p)
           (terminationTime p) n.

(** A store into the shared segment, as the trace sees it. *)
Definition store (m : SharedMemory) (s : State) : State :=
  emit (MailboxStore m) (set_sharedMem m s).

(** ** common.c *)

(** [for (i = 0; i < M; i++) if (children[i] == 0) return i;  return -1;]
    The second argument counts the iterations left. *)
Fixpoint freeSlotFinder_from (i n : nat) (children : list Z) : Z :=
  match n with
  | O => -1
  | S n' =>
      if nth i children 0 =? 0 then Z.of_nat i
      else freeSlotFinder_from (S i) n' children
  end.

Definition freeSlotFinder (children : list Z) (M : Z) : Z :=
  freeSlotFinder_from 0 (Z.to_nat M) children.

(** [for (i = 0; i < M; i++) if (strcmp(childLabels[i], label) == 0) return i;] *)
Fixpoint childLabelFinder_from (i n : nat) (childLabels : list string)
    (label : string) : Z :=
  match n with
  | O => -1
  | S n' =>
      if String.eqb (nth i childLabels noLabel) label then Z.of_nat i
      else childLabelFinder_from (S i) n' childLabels label
  end.

Definition childLabelFinder (childLabels : list string) (label : string)
    (M : Z) : Z :=
  childLabelFinder_from 0 (Z.to_nat M) childLabels label.

(** [fgets(buffer, size, fp)]: at most [size - 1] characters, stopping
    after a newline; [None] (a NULL result, buffer untouched) at end of
    file.  [fgets_read] receives the room left in the buffer. *)
Definition newline : ascii := "010"%char.

Fixpoint fgets_read (room : nat) (rest : string) : string * string :=
  match room, rest with
  | S room', String c rest' =>
      if Ascii.eqb c newline then (String c EmptyString, rest')
      else let '(l, r) := fgets_read room' rest' in (String c l, r)
  | _, _ => (EmptyString, rest)
  end.

Definition fgets (size : nat) (rest : string) : option (string * string) :=
  match rest with
  | EmptyString => None
  | _ => Some (fgets_read (size - 1) rest)
  end.

(** [while (fgets(buffer, sizeof(buffer), fp)) totalLines++;]  Every
    successful [fgets] consumes a character, so the length of the content
    bounds the number of iterations. *)
Fixpoint lineCount_loop (fuel : nat) (rest : string) (totalLines : Z) : Z :=
  match fuel with
  | O => totalLines
  | S fuel' =>
      match fgets MAX_LINE_SIZE rest with
      | Some (_, rest') => lineCount_loop fuel' rest' (totalLines + 1)
      | None => totalLines
      end
  end.

Definition lineCount (content : string) : Z :=
  lineCount_loop (String.length content) content 0.

(** [for (i = 0; i <= randLine; i++) fgets(buffer, MAX_LINE_SIZE, fp);] *)
Fixpoint fgets_repeat (n : nat) (buffer rest : string) : string * string :=
  match n with
  | O => (buffer, rest)
  | S n' =>
      match fgets MAX_LINE_SIZE rest with
      | Some (b, rest') => fgets_repeat n' b rest'
      | None => fgets_repeat n' buffer rest
      end
  end.

Section Program.

Variable env : Env.

(** [rand()] *)
Definition rand (s : State) : Z * State :=
  (Z.of_N (rand_value env (randCalls s)), set_randCalls (S (randCalls s)) s).

(** [fork()], seen from the parent: the pid of the child, or [None] for [-1]. *)
Definition fork (s : State) : option positive * State :=
  (fork_result env (forkCalls s), set_forkCalls (S (forkCalls s)) s).

(** The indices collected in [activeIndexes]. *)
Fixpoint activeIndexes_from (i n : nat) (children : list Z) : list Z :=
  match n with
  | O => []
  | S n' =>
      if nth i children 0 >? 0
      then Z.of_nat i :: activeIndexes_from (S i) n' children
      else activeIndexes_from (S i) n' children
  end.

Definition randomActiveChildrenSelection (children : list Z) (M : Z)
    (s : State) : Z * State :=
  let activeIndexes := activeIndexes_from 0 (Z.to_nat M) children in
  let countOfActive := Z.of_nat (length activeIndexes) in
  if countOfActive =? 0 then (-1, s)
  else
    let '(r, s') := rand s in
    (nth (Z.to_nat (Z.rem r countOfActive)) activeIndexes 0, s').

(** [randomLineSelection(fp, buffer, totalLines)]: [None] when the
    remainder is taken by zero (the process is killed by SIGFPE). *)
Definition randomLineSelection (content buffer : string) (totalLines : Z)
    (s : State) : option (string * State) :=
  if totalLines =? 0 then None
  else
    let '(r, s') := rand s in
    let randLine := Z.rem r totalLines in
    Some (fst (fgets_repeat (Z.to_nat (randLine + 1)) buffer content), s').

(** [sharedMemSetup] and [semInit], after the [memset]s of [parentProcess]. *)
Definition initialParent (M : Z) : Parent :=
  let m := Z.to_nat M in
  mkParent (replicate m 0) (replicate m noLabel) (replicate (S m) (-1))
           (replicate m (-1)) (replicate m (-1)) 0.

Definition initialState (M : Z) : State :=
  let m := Z.to_nat M in
  mkState (initialParent M) (mkSharedMemory (-1) (-1) EmptyString)
          (replicate m 0) 0 (replicate m None) [] O O [ShmSetup; SemInit M].

(** ** child.c *)

(** One iteration of [while (1)] in [child], from the return of its
    [sem_wait] to its [sem_post]; on TERMINATE the summary is written and
    the process exits. *)
Definition child (c : ChildProc) (s : State) : State :=
  let slot := Z.to_nat (M_requests c) in
  let s1 := set_semaphores (<[slot := nth slot (semaphores s) 0 - 1]> (semaphores s)) s in
  let m := sharedMem s1 in
  if String.eqb (sharedSpace m) TERMINATE then
    let endsInTimestamp_l := endsInTimestamp m in
    let s2 := set_logs (logs s1 ++ [LogTerminate (endsInTimestamp m) (childPid c)]) s1 in
    let s3 := set_parentNotificationSemaphore (parentNotificationSemaphore s2 + 1) s2 in
    let s4 :=
      if endsInTimestamp_l >=? 0 then
        let timeActive := endsInTimestamp_l - activation_time c in
        set_logs (logs s3 ++ [LogSummary (childPid c) (lineCntr c) endsInTimestamp_l
                                         (activation_time c) timeActive]) s3
      else s3 in
    set_procs (<[slot := None]> (procs s4)) s4
  else
    let s2 := set_logs (logs s1 ++ [LogMessage (endsInTimestamp m) (childPid c)
                                               (sharedSpace m)]) s1 in
    let c' := mkChildProc (childPid c) (M_requests c) (activation_time c)
                          (lineCntr c + 1) in
    let s3 := set_procs (<[slot := Some c']> (procs s2)) s2 in
    set_parentNotificationSemaphore (parentNotificationSemaphore s3 + 1) s3.

(** ** parent.c *)

(** [sem_post(semaphores[idx]); sem_wait(parentNotificationSemaphore);] *)
Definition post_and_wait (idx : Z) (s : State) : Outcome :=
  let i := Z.to_nat idx in
  let s1 := emit (SemPost idx)
              (set_semaphores (<[i := nth i (semaphores s) 0 + 1]> (semaphores s)) s) in
  match nth i (procs s1) None with
  | Some c =>
      let s2 := child c s1 in
      Continue (emit (SemWait true)
                  (set_parentNotificationSemaphore
                     (parentNotificationSemaphore s2 - 1) s2))
  | None => Blocked (emit (SemWait false) s1)
  end.

Section Run.

Variable M : Z.

(** The branch [command == 'S' && activeChildren < M]. *)
Definition spawn (currTime : Z) (label : string) (s : State) : Outcome :=
  let p := parent s in
  let freeSlot := freeSlotFinder (children p) M in
  if freeSlot =? -1 then Continue s
  else
    let slot := Z.to_nat freeSlot in
    match fork s with
    | (Some pid, s1) =>
        let child_pid := Z.pos pid in
        let p1 := set_children (<[slot := child_pid]> (children p)) p in
        let p2 := set_childLabels (<[slot := label]> (childLabels p1)) p1 in
        let p3 := set_childSemArr (<[slot := freeSlot]> (childSemArr p2)) p2 in
        let p4 := set_activationTime (<[slot := currTime]> (activationTime p3)) p3 in
        let p5 := set_activeChildren (activeChildren p4 + 1) p4 in
        let s2 := set_procs
                    (<[slot := Some (mkChildProc child_pid freeSlot currTime 0)]> (procs s1))
                    s1 in
        Continue (emit (PrintSpawned currTime label child_pid) (set_parent p5 s2))
    | (None, s1) => Continue s1
    end.

(** The branch [command == 'T']. *)
Definition terminate (currTime : Z) (label : string) (s : State) : Outcome :=
  let p := parent s in
  let childIndx := childLabelFinder (childLabels p) label M in
  if childIndx =? -1 then Continue (emit (PrintWarning currTime label) s)
  else
    let i := Z.to_nat childIndx in
    let s1 := set_parent (set_terminationTime (<[i := currTime]> (terminationTime p)) p) s in
    let m1 := mkSharedMemory (activeChildIndx (sharedMem s1)) currTime
                             (sharedSpace (sharedMem s1)) in
    let s2 := store m1 s1 in
    let m2 := mkSharedMemory (activeChildIndx m1) (endsInTimestamp m1) TERMINATE in
    let s3 := store m2 s2 in
    let s4 := emit (PrintSentTerminate currTime childIndx) s3 in
    andThen (post_and_wait childIndx s4) (fun s5 =>
      let s6 := emit (Waitpid (nth i (children (parent s5)) 0)) s5 in
      let s7 := emit (PrintTerminated currTime childIndx) s6 in
      let p7 := parent s7 in
      let p8 := set_children (<[i := 0]> (children p7)) p7 in
      let p9 := set_activeChildren (activeChildren p8 - 1) p8 in
      Continue (set_parent p9 s7)).

(** The body of [if (commands[i].timestamp == currTime)]. *)
Definition applyCommand (currTime : Z) (e : ConfigEntry) (s : State) : Outcome :=
  let label := processLabel e in
  let command := command e in
  if Ascii.eqb command "S"%char && (activeChildren (parent s) <? M) then
    spawn currTime label s
  else if Ascii.eqb command "T"%char then
    terminate currTime label s
  else Continue s.

(** [for (i = 0; i < numOfConfigLines; ++i)], on the entries not yet
    visited. *)
Fixpoint commandLoop (currTime : Z) (commands : list ConfigEntry) (s : State)
    : Outcome :=
  match commands with
  | [] => Continue s
  | e :: rest =>
      if timestamp e =? currTime then
        andThen (applyCommand currTime e s) (commandLoop currTime rest)
      else commandLoop currTime rest s
  end.

Variable text : string.
Variable numOfLinesInText : Z.

(** [if (activeChildren > 0) { ... }] at the end of a tick.  [strcpy] and
    [printf("%s")] take from the buffer [line] its C string. *)
Definition deliver (currTime : Z) (s : State) : Outcome :=
  if activeChildren (parent s) >? 0 then
    let '(randChildIndx, s1) :=
      randomActiveChildrenSelection (children (parent s)) M s in
    if negb (randChildIndx =? -1) && (numOfLinesInText >? 0) then
      match randomLineSelection text EmptyString numOfLinesInText s1 with
      | None => Trapped s1
      | Some (line, s2) =>
          let m0 := sharedMem s2 in
          let m1 := mkSharedMemory (activeChildIndx m0) (endsInTimestamp m0)
                                   (cstring line) in
          let s3 := store m1 s2 in
          let m2 := mkSharedMemory (activeChildIndx m1) currTime (sharedSpace m1) in
          let s4 := store m2 s3 in
          let m3 := mkSharedMemory randChildIndx (endsInTimestamp m2) (sharedSpace m2) in
          let s5 := store m3 s4 in
          let s6 := emit (PrintSentMessage currTime randChildIndx (cstring line)) s5 in
          post_and_wait randChildIndx s6
      end
    else Continue s1
  else Continue s.

Variable commands : list ConfigEntry.

(** The body of the tick loop. *)
Definition tick (currTime : Z) (s : State) : Outcome :=
  andThen (commandLoop currTime commands (emit (Tick currTime) s))
          (deliver currTime).

Variable quitTimestamp : Z.

(** [for (currTime = 0; currTime <= quitTimestamp; ++currTime)]; the fuel
    bounds the number of iterations.  [currTime] is an [int]: after the
    body of tick [INT_MAX] the increment overflows. *)
Fixpoint tickLoop (fuel : nat) (currTime : Z) (s : State) : Outcome :=
  if currTime <=? quitTimestamp then
    match fuel with
    | O => Continue s
    | S fuel' =>
        andThen (tick currTime s) (fun s1 =>
          if currTime =? INT_MAX then Overflowed s1
          else tickLoop fuel' (currTime + 1) s1)
    end
  else Continue s.

(** The body of the final [for (i = 0; i < M; ++i)]. *)
Definition drainSlot (i : nat) (s : State) : Outcome :=
  let p := parent s in
  if nth i (children p) 0 >? 0 then
    let s1 := set_parent (set_terminationTime (<[i := quitTimestamp]> (terminationTime p)) p) s in
    let m1 := mkSharedMemory (activeChildIndx (sharedMem s1)) quitTimestamp
                             (sharedSpace (sharedMem s1)) in
    let s2 := store m1 s1 in
    let m2 := mkSharedMemory (activeChildIndx m1) (endsInTimestamp m1) TERMINATE in
    let s3 := store m2 s2 in
    let s4 := emit (PrintSentTerminate quitTimestamp (Z.of_nat i)) s3 in
    andThen (post_and_wait (Z.of_nat i) s4) (fun s5 =>
      let s6 := emit (Waitpid (nth i (children (parent s5)) 0)) s5 in
      Continue (emit (PrintTerminated quitTimestamp (Z.of_nat i)) s6))
  else Continue s.

Fixpoint drainLoop (i n : nat) (s : State) : Outcome :=
  match n with
  | O => Continue s
  | S n' => andThen (drainSlot i s) (drainLoop (S i) n')
  end.

End Run.

(** [for (i = 0; i < numOfConfigLines; ++i) if (commands[i].command == 'E')
    { quitTimestamp = commands[i].timestamp; break; }] starting from
    [quitTimestamp = -1]. *)
Fixpoint findQuit (commands : list ConfigEntry) : Z :=
  match commands with
  | [] => -1
  | e :: rest =>
      if Ascii.eqb (command e) "E"%char then timestamp e else findQuit rest
  end.

Definition exitNotFound : string :=
  "Error: EXIT command not found in configuration file."%string.

(** [parentProcess], from the parsed configuration and the content of the
    text file. *)
Definition parentProcess (commands : list ConfigEntry) (text : string) (M : Z)
    : Final :=
  let quitTimestamp := findQuit commands in
  if quitTimestamp =? -1 then ExitFailure [Stderr exitNotFound]
  else
    let numOfLinesInText := lineCount text in
    let s0 := initialState M in
    match andThen (tickLoop M text numOfLinesInText commands quitTimestamp
                            (Z.to_nat (quitTimestamp + 1)) 0 s0)
                  (drainLoop quitTimestamp 0 (Z.to_nat M)) with
    | Continue s => Completed (emit Cleanup s)
    | Blocked s => Hung s
    | Trapped s => Killed s
    | Overflowed s => Undefined s
    end.

End Program.

(** * Specification vocabulary *)

(** The number of slots that hold a pid. *)
Fixpoint occupied (children : list Z) : Z :=
  match children with
  | [] => 0
  | pid :: rest => (if pid =? 0 then 0 else 1) + occupied rest
  end.


(** The records that [lineCount] counts: the successive results of [fgets]
    on the text file, read from the start to the end of file, and what
    [strcpy] makes of each of them. *)
Fixpoint fileLines_loop (fuel : nat) (rest : string) : list string :=
  match fuel with
  | O => []
  | S fuel' =>
      match fgets MAX_LINE_SIZE rest with
      | Some (line, rest') => line :: fileLines_loop fuel' rest'
      | None => []
      end
  end.

Definition fileLines (content : string) : list string :=
  fileLines_loop (String.length content) content.

Definition payloads (content : string) : list string :=
  map cstring (fileLines content).

(** The lines the parent announces as sent, and the lines the children log
    as received. *)
Definition sentLines (t : list Event) : list string :=
  flat_map (fun e => match e with
                     | PrintSentMessage _ _ line => [line]
                     | _ => []
                     end) t.

Definition receivedLines (l : list LogLine) : list string :=
  flat_map (fun e => match e with
                     | LogMessage _ _ msg => [msg]
                     | _ => []
                     end) l.

(** The values of [currTime] for which the body of the tick loop was
    entered. *)
Definition ticksOf (t : list Event) : list Z :=
  flat_map (fun e => match e with
                     | Tick currTime => [currTime]
                     | _ => []
                     end) t.

(** [currTime], [currTime + 1], ..., [n] values in all. *)
Definition ticksFrom (currTime : Z) (n : nat) : list Z :=
  map (fun i => currTime + Z.of_nat i) (seq 0 n).

Definition warningsOf (t : list Event) : list (Z * string) :=
  flat_map (fun e => match e with
                     | PrintWarning currTime label => [(currTime, label)]
                     | _ => []
                     end) t.

Definition finalTrace (f : Final) : list Event :=
  match f with
  | ExitFailure out => out
  | Completed s | Hung s | Killed s | Undefined s => trace s
  end.

Definition finalLogs (f : Final) : list LogLine :=
  match f with
  | ExitFailure _ => []
  | Completed s | Hung s | Killed s | Undefined s => logs s
  end.

(** *** The mailbox discipline

    An instrumented mailbox: [Idle] when no message is in flight, [Posted]
    right after a [sem_post] to a child, [Stuck] when the parent waits for
    an acknowledgment that will never come.  Anything but the wait after a
    post, and anything at all after a blocked wait, is a [Violation]. *)
Inductive Monitor := Idle | Posted | Stuck | Violation.

Definition mon_step (m : Monitor) (e : Event) : Monitor :=
  match m, e with
  | Idle, SemPost _ => Posted
  | Idle, SemWait _ => Violation
  | Idle, _ => Idle
  | Posted, SemWait true => Idle
  | Posted, SemWait false => Stuck
  | Posted, _ => Violation
  | Stuck, _ => Violation
  | Violation, _ => Violation
  end.

Definition monitor_from (m : Monitor) (t : list Event) : Monitor :=
  fold_left mon_step t m.

Definition monitor (t : list Event) : Monitor := monitor_from Idle t.

(** Events that neither touch a semaphore nor announce a line. *)
Definition quiet (e : Event) : bool :=
  match e with
  | SemPost _ | SemWait _ | PrintSentMessage _ _ _ => false
  | _ => true
  end.

Definition settled (m : Monitor) : Prop := m = Idle \/ m = Stuck.

(** Every post to a child's semaphore is directly followed by the wait on
    the notification semaphore, and nothing follows a wait that never
    returns. *)
Definition one_in_flight (t : list Event) : Prop :=
  forall pre idx post,
    t = pre ++ SemPost idx :: post ->
    exists returned rest,
      post = SemWait returned :: rest /\ (returned = false -> rest = []).

(** *** Commands of a tick, in the spec's words

    "For every CommandRecord with [timestamp == tick], in original
    sequence order". *)
Definition scheduledAt (currTime : Z) (commands : list ConfigEntry)
    : list ConfigEntry :=
  List.filter (fun e => timestamp e =? currTime) commands.

Section Vocabulary.

Variable env : Env.
Variable M : Z.

Fixpoint applyInOrder (currTime : Z) (records : list ConfigEntry) (s : State)
    : Outcome :=
  match records with
  | [] => Continue s
  | e :: rest =>
      andThen (applyCommand env M currTime e s) (applyInOrder currTime rest)
  end.

(** *** The invariant of the supervisor *)

(** The child blocked on slot [i] is the one the parent recorded there. *)
Definition linked (p : Parent) (i : nat) (c : ChildProc) : Prop :=
  M_requests c = Z.of_nat i /\
  nth i (children p) 0 = childPid c /\
  0 < childPid c /\
  activation_time c = nth i (activationTime p) 0.

Variable lines : list string.

Record Inv (s : State) : Prop := mkInv {
  inv_children : length (children (parent s)) = Z.to_nat M;
  inv_activation : length (activationTime (parent s)) = Z.to_nat M;
  inv_termination : length (terminationTime (parent s)) = Z.to_nat M;
  inv_count : activeChildren (parent s) = occupied (children (parent s));
  inv_procs_length : length (procs s) = Z.to_nat M;
  inv_procs : forall i c, nth i (procs s) None = Some c -> linked (parent s) i c;
  inv_semaphores : semaphores s = replicate (Z.to_nat M) 0;
  inv_notification : parentNotificationSemaphore s = 0;
  inv_monitor : monitor (trace s) = Idle;
  inv_sent : Forall (fun l => In l lines) (sentLines (trace s));
  inv_received : Forall (fun l => In l lines) (receivedLines (logs s))
}.

(** What still holds once the parent is blocked in its wait. *)
Record BlockedInv (s : State) : Prop := mkBlockedInv {
  blk_children : length (children (parent s)) = Z.to_nat M;
  blk_count : activeChildren (parent s) = occupied (children (parent s));
  blk_monitor : monitor (trace s) = Stuck;
  blk_sent : Forall (fun l => In l lines) (sentLines (trace s));
  blk_received : Forall (fun l => In l lines) (receivedLines (logs s))
}.

Definition OutcomeOk (o : Outcome) : Prop :=
  match o with
  | Continue s => Inv s
  | Blocked s => BlockedInv s
  | Trapped _ => False
  | Overflowed s => Inv s
  end.

Variable text : string.

(** The states the parent can be in between two steps of its loops: after
    the set-up, after entering a tick, after a command, after the delivery
    of a tick, after a slot of the final loop. *)
Inductive Reachable : State -> Prop :=
| reach_start : Reachable (initialState M)
| reach_tick currTime s :
    Reachable s -> Reachable (emit (Tick currTime) s)
| reach_command currTime e s s' :
    Reachable s -> applyCommand env M currTime e s = Continue s' -> Reachable s'
| reach_deliver currTime s s' :
    Reachable s ->
    deliver env M text (lineCount text) currTime s = Continue s' ->
    Reachable s'
| reach_drain quitTimestamp i s s' :
    Reachable s -> drainSlot quitTimestamp i s = Continue s' -> Reachable s'.

End Vocabulary.

(** *** Concrete inputs *)

(** An oracle: [rand()] returns 0, 1, 2, ... and [fork()] succeeds with the
    pids 100, 101, ... *)
Definition env_example : Env :=
  mkEnv (fun n => N.of_nat n) (fun n => Some (Pos.of_nat (100 + n))).

Definition entry (t : Z) (label : string) (c : ascii) : ConfigEntry :=
  mkConfigEntry t label c.

(** [0 C1 S], [1 C1 T], [2 C1 T], [3 EXIT]: the second TERMINATE names a
    child that has already been terminated. *)
Definition config_twice_terminated : list ConfigEntry :=
  [entry 0 "C1" "S"; entry 1 "C1" "T"; entry 2 "C1" "T"; entry 3 "EXIT" "E"]%string%char.

(** [0 C1 S], [2 C2 S], [5 C1 T], [8 EXIT]. *)
Definition config_two_children : list ConfigEntry :=
  [entry 0 "C1" "S"; entry 2 "C2" "S"; entry 5 "C1" "T"; entry 8 "EXIT" "E"]%string%char.

Definition text_example : string :=
  ("alpha" ++ String newline ("beta" ++ String newline "gamma"))%string.

(** A table of one slot, occupied by the child spawned at tick 0. *)
Definition state_one_child : State :=
  stateOf (applyCommand env_example 1 0 (entry 0 "C1" "S") (initialState 1)).

(** [0 C1 S], [1 C1 T], [2 C1 T], [2 C2 S], [3 EXIT]: at tick 2 a Spawn
    follows the TERMINATE of a child that has already been terminated. *)
Definition config_blocked_tick : list ConfigEntry :=
  [entry 0 "C1" "S"; entry 1 "C1" "T"; entry 2 "C1" "T"; entry 2 "C2" "S";
   entry 3 "EXIT" "E"]%string%char.

(** [0 C1 S], [1 EXIT]. *)
Definition config_one_child : list ConfigEntry :=
  [entry 0 "C1" "S"; entry 1 "EXIT" "E"]%string%char.

(** An oracle whose [rand()] always returns 0. *)
Definition env_zero : Env :=
  mkEnv (fun _ => 0%N) (fun n => Some (Pos.of_nat (100 + n))).

(** A text of one line: 1000 times the letter a, and a newline. *)
Definition text_long : string :=
  (string_of_list_ascii (replicate 1000 "a"%char) ++ String newline EmptyString)%string.


(** * Vocabulary for the further properties *)

(** The records put back together. *)
Definition joinLines (records : list string) : string :=
  fold_right String.append EmptyString records.

(** A newline occurs in the string before its last character. *)
Fixpoint newlineInside (s : string) : bool :=
  match s with
  | EmptyString => false
  | String c EmptyString => false
  | String c rest => Ascii.eqb c newline || newlineInside rest
  end.

Fixpoint lastChar (s : string) : option ascii :=
  match s with
  | EmptyString => None
  | String c EmptyString => Some c
  | String c rest => lastChar rest
  end.

(** The string holds a zero byte. *)
Fixpoint hasNul (s : string) : bool :=
  match s with
  | EmptyString => false
  | String c rest => Ascii.eqb c NUL || hasNul rest
  end.

(** The labels of the children the parent announces as spawned. *)
Definition spawnedLabels (t : list Event) : list string :=
  flat_map (fun e => match e with
                     | PrintSpawned _ label _ => [label]
                     | _ => []
                     end) t.

(** The lines of a text, each with the newline that ends it; a last line
    without newline is a line too. *)
Fixpoint splitLines (s : string) : list string :=
  match s with
  | EmptyString => []
  | String c rest =>
      if Ascii.eqb c newline then String c EmptyString :: splitLines rest
      else
        match splitLines rest with
        | [] => [String c EmptyString]
        | line :: lines => String c line :: lines
        end
  end.

(** *** Well-formed schedules *)

Definition isTerminate (e : ConfigEntry) : bool :=
  Ascii.eqb (command e) "T"%char.

(** The labels of the TERMINATE entries, in file order. *)
Definition terminateLabels (commands : list ConfigEntry) : list string :=
  map processLabel (List.filter isTerminate commands).

(** No record of the text is read as the termination message. *)
Definition noSentinelRecord (text : string) : Prop :=
  Forall (fun l => String.eqb l TERMINATE = false) (payloads text).

(** What the parent relies on without checking it: every slot that holds
    a pid has a child waiting on its semaphore, and the label left in a
    free slot is not the target of a TERMINATE entry still to be applied
    ([pending]). *)
Record Safe (M : Z) (pending : ConfigEntry -> Prop) (s : State) : Prop := mkSafe {
  safe_labels : length (childLabels (parent s)) = Z.to_nat M;
  safe_nonneg : Forall (fun pid => 0 <= pid) (children (parent s));
  safe_live : forall i, (i < Z.to_nat M)%nat ->
                        nth i (children (parent s)) 0 <> 0 ->
                        nth i (procs s) None <> None;
  safe_stale : forall i e, (i < Z.to_nat M)%nat ->
                           nth i (children (parent s)) 0 = 0 ->
                           pending e ->
                           isTerminate e = true ->
                           processLabel e <> nth i (childLabels (parent s)) noLabel
}.

(** The entries still to be applied when the command loop of tick
    [currTime] has [rest] left to scan, and when tick [currTime] starts. *)
Definition pendingAt (commands : list ConfigEntry) (currTime : Z)
    (rest : list ConfigEntry) (e : ConfigEntry) : Prop :=
  (In e rest /\ timestamp e = currTime) \/
  (In e commands /\ currTime < timestamp e).

Definition pendingFrom (commands : list ConfigEntry) (currTime : Z)
    (e : ConfigEntry) : Prop :=
  In e commands /\ currTime <= timestamp e.

(** *** The children's books *)

Fixpoint total {A} (f : A -> Z) (l : list A) : Z :=
  match l with
  | [] => 0
  | x :: rest => f x + total f rest
  end.

(** The number of children the parent announces as spawned. *)
Definition spawned (t : list Event) : Z :=
  total (fun e => match e with PrintSpawned _ _ _ => 1 | _ => 0 end) t.

(** The number of summaries written by children, and the sum of the line
    counts they report. *)
Definition summaries (l : list LogLine) : Z :=
  total (fun e => match e with LogSummary _ _ _ _ _ => 1 | _ => 0 end) l.

Definition summaryLines (l : list LogLine) : Z :=
  total (fun e => match e with LogSummary _ lines _ _ _ => lines | _ => 0 end) l.

(** The children still in their loop, and the lines they have counted. *)
Definition live (procs : list (option ChildProc)) : Z :=
  total (fun o => match o with Some _ => 1 | None => 0 end) procs.

Definition liveLines (procs : list (option ChildProc)) : Z :=
  total (fun o => match o with Some c => lineCntr c | None => 0 end) procs.

(** A summary line is consistent: the span is the difference it prints,
    the child was activated at a tick and not after its end, and it
    counted at most one line per tick it has seen. *)
Definition summaryOk (e : LogLine) : Prop :=
  match e with
  | LogSummary _ lines ends act timeActive =>
      timeActive = ends - act /\ 0 <= act <= ends /\ 0 <= lines <= timeActive + 1
  | _ => True
  end.

(** The books at tick [now]; [slack] is 1 once the delivery of the tick is
    done and 0 before. *)
Record Books (now slack : Z) (s : State) : Prop := mkBooks {
  books_children : spawned (trace s) = summaries (logs s) + live (procs s);
  books_lines : summaryLines (logs s) + liveLines (procs s)
                = Z.of_nat (length (receivedLines (logs s)));
  books_live : forall i c, nth i (procs s) None = Some c ->
                 0 <= activation_time c <= now /\
                 0 <= lineCntr c <= now - activation_time c + slack;
  books_summaries : Forall summaryOk (logs s)
}.

(** Every slot that holds a pid has a child waiting on its semaphore; a
    slot is abandoned when it holds a pid and its child is gone. *)
Definition allWaiting (s : State) : Prop :=
  forall i, 0 < nth i (children (parent s)) 0 -> nth i (procs s) None <> None.

Definition abandonedSlot (i : nat) (s : State) : Prop :=
  0 < nth i (children (parent s)) 0 /\ nth i (procs s) None = None.

Definition Delivery (s : State) : Prop :=
  (sentLines (trace s) = receivedLines (logs s) /\ allWaiting s) \/
  exists i, abandonedSlot i s.

(** *** Where a run hangs *)

(** The parent has posted the semaphore of slot [idx], on which no child
    waits, and is blocked in the wait that follows. *)
Definition blockedAt (M : Z) (s : State) : Prop :=
  exists idx pre,
    0 <= idx < M /\
    trace s = pre ++ [SemPost idx; SemWait false] /\
    nth (Z.to_nat idx) (procs s) None = None /\
    semaphores s = <[Z.to_nat idx := 1]> (replicate (Z.to_nat M) 0) /\
    parentNotificationSemaphore s = 0.

Definition WaitsOnEmptySlot (M : Z) (o : Outcome) : Prop :=
  match o with
  | Blocked s => blockedAt M s
  | _ => True
  end.
(** * Properties *)

(** ** Arrays *)

Lemma nth_insert_eq {A} (l : list A) (i : nat) (x d : A) :
  (i < length l)%nat -> nth i (<[i := x]> l) d = x.
Proof.
  intros Hi. rewrite nth_lookup, list_lookup_insert_eq by exact Hi. reflexivity.
Qed.

Lemma nth_insert_ne {A} (l : list A) (i j : nat) (x d : A) :
  i <> j -> nth j (<[i := x]> l) d = nth j l d.
Proof.
  intros Hne. rewrite !nth_lookup, list_lookup_insert_ne by exact Hne. reflexivity.
Qed.

Lemma insert_nth_same {A} (l : list A) (i : nat) (d : A) :
  <[i := nth i l d]> l = l.
Proof.
  revert i. induction l as [|a l IH]; intros [|i]; simpl; try reflexivity.
  f_equal. apply IH.
Qed.

Lemma insert_insert_same {A} (l : list A) (i : nat) (x y : A) :
  <[i := x]> (<[i := y]> l) = <[i := x]> l.
Proof.
  revert i. induction l as [|a l IH]; intros [|i]; simpl; try reflexivity.
  f_equal. apply IH.
Qed.

Lemma nth_replicate_default {A} (n i : nat) (d : A) : nth i (replicate n d) d = d.
Proof.
  revert i. induction n as [|n IH]; intros [|i]; simpl; auto.
Qed.


Lemma occupied_insert (l : list Z) (i : nat) (v : Z) :
  (i < length l)%nat ->
  occupied (<[i := v]> l) =
    occupied l - (if nth i l 0 =? 0 then 0 else 1) + (if v =? 0 then 0 else 1).
Proof.
  revert i. induction l as [|x l IH]; intros [|i] Hi; simpl in Hi; try lia.
  - simpl. lia.
  - simpl. rewrite IH by lia. lia.
Qed.

Lemma occupied_replicate (n : nat) : occupied (replicate n 0) = 0.
Proof. induction n as [|n IH]; simpl; [reflexivity | rewrite IH; reflexivity]. Qed.

(** ** The selection helpers *)

Lemma freeSlotFinder_from_spec (l : list Z) (n i : nat) :
  let r := freeSlotFinder_from i n l in
  r = -1 \/ (Z.of_nat i <= r < Z.of_nat (i + n) /\ nth (Z.to_nat r) l 0 = 0).
Proof.
  revert i. induction n as [|n IH]; intros i; simpl; [left; reflexivity|].
  destruct (nth i l 0 =? 0) eqn:E.
  - right. rewrite Nat2Z.id. apply Z.eqb_eq in E. split; [lia | exact E].
  - destruct (IH (S i)) as [H | [H1 H2]]; [left; exact H | right].
    split; [lia | exact H2].
Qed.

Lemma freeSlotFinder_spec (l : list Z) (M : Z) :
  freeSlotFinder l M = -1 \/
  (0 <= freeSlotFinder l M < M /\ nth (Z.to_nat (freeSlotFinder l M)) l 0 = 0).
Proof.
  unfold freeSlotFinder.
  destruct (freeSlotFinder_from_spec l (Z.to_nat M) 0) as [H | [H1 H2]];
    [left; exact H | right; split; [lia | exact H2]].
Qed.

(** The slot returned is the lowest free one. *)
Lemma freeSlotFinder_from_lowest (l : list Z) (n i j : nat) :
  (i <= j)%nat -> Z.of_nat j < freeSlotFinder_from i n l -> nth j l 0 <> 0.
Proof.
  revert i. induction n as [|n IH]; intros i Hij Hlt; simpl in Hlt; [lia|].
  destruct (nth i l 0 =? 0) eqn:E; [lia|].
  destruct (Nat.eq_dec i j) as [-> | Hne].
  - apply Z.eqb_neq in E. exact E.
  - apply (IH (S i)); [lia | exact Hlt].
Qed.

(** When no slot is free every slot of the table holds a pid. *)
Lemma freeSlotFinder_from_none (l : list Z) (n i j : nat) :
  freeSlotFinder_from i n l = -1 -> (i <= j < i + n)%nat -> nth j l 0 <> 0.
Proof.
  revert i. induction n as [|n IH]; intros i Hr Hj; [lia|]. simpl in Hr.
  destruct (nth i l 0 =? 0) eqn:E; [lia|].
  destruct (Nat.eq_dec i j) as [-> | Hne].
  - apply Z.eqb_neq in E. exact E.
  - apply (IH (S i)); [exact Hr | lia].
Qed.

Lemma childLabelFinder_from_spec (l : list string) (label : string) (n i : nat) :
  let r := childLabelFinder_from i n l label in
  r = -1 \/
  (Z.of_nat i <= r < Z.of_nat (i + n) /\ nth (Z.to_nat r) l noLabel = label).
Proof.
  revert i. induction n as [|n IH]; intros i; simpl; [left; reflexivity|].
  destruct (String.eqb (nth i l noLabel) label) eqn:E.
  - right. rewrite Nat2Z.id. apply String.eqb_eq in E. split; [lia | exact E].
  - destruct (IH (S i)) as [H | [H1 H2]]; [left; exact H | right].
    split; [lia | exact H2].
Qed.

Lemma childLabelFinder_spec (l : list string) (label : string) (M : Z) :
  childLabelFinder l label M = -1 \/
  (0 <= childLabelFinder l label M < M /\
   nth (Z.to_nat (childLabelFinder l label M)) l noLabel = label).
Proof.
  unfold childLabelFinder.
  destruct (childLabelFinder_from_spec l label (Z.to_nat M) 0) as [H | [H1 H2]];
    [left; exact H | right; split; [lia | exact H2]].
Qed.

(** A label stored in no slot is not found. *)
Lemma childLabelFinder_from_absent (l : list string) (label : string) (n i : nat) :
  (forall j, (i <= j < i + n)%nat -> nth j l noLabel <> label) ->
  childLabelFinder_from i n l label = -1.
Proof.
  revert i. induction n as [|n IH]; intros i H; simpl; [reflexivity|].
  destruct (String.eqb (nth i l noLabel) label) eqn:E.
  - apply String.eqb_eq in E. exfalso. apply (H i); [lia | exact E].
  - apply IH. intros j Hj. apply H. lia.
Qed.

Lemma activeIndexes_from_spec (l : list Z) (n i : nat) :
  Forall (fun r => Z.of_nat i <= r < Z.of_nat (i + n) /\ nth (Z.to_nat r) l 0 > 0)
         (activeIndexes_from i n l).
Proof.
  revert i. induction n as [|n IH]; intros i; simpl; [constructor|].
  assert (Hrest : Forall (fun r => Z.of_nat i <= r < Z.of_nat (i + S n) /\
                                   nth (Z.to_nat r) l 0 > 0)
                         (activeIndexes_from (S i) n l)).
  { eapply Forall_impl; [apply IH|]. simpl. intros r [H1 H2]. split; [lia | exact H2]. }
  destruct (nth i l 0 >? 0) eqn:E; [|exact Hrest].
  constructor; [|exact Hrest].
  rewrite Nat2Z.id. split; [lia|]. apply Z.gtb_lt in E. lia.
Qed.

(** ** Traces *)

Lemma monitor_snoc (t : list Event) (e : Event) :
  monitor (t ++ [e]) = mon_step (monitor t) e.
Proof. unfold monitor, monitor_from. rewrite fold_left_app. reflexivity. Qed.

Lemma monitor_from_violation (t : list Event) : monitor_from Violation t = Violation.
Proof. induction t as [|e t IH]; simpl; [reflexivity | exact IH]. Qed.

Lemma monitor_from_stuck (t : list Event) :
  monitor_from Stuck t <> Violation -> t = [].
Proof.
  destruct t as [|e t]; [reflexivity|]. unfold monitor_from. simpl.
  intros H. exfalso. apply H. apply monitor_from_violation.
Qed.

(** A trace that leaves the monitor idle or stuck obeys the discipline,
    whatever the state the monitor started from. *)
Lemma settled_not_violation (t : list Event) : ~ settled (monitor_from Violation t).
Proof. rewrite monitor_from_violation. intros [H | H]; discriminate. Qed.

Lemma monitor_from_stuck_settled (t : list Event) :
  settled (monitor_from Stuck t) -> t = [].
Proof.
  intros H. apply monitor_from_stuck. intros E. rewrite E in H.
  destruct H; discriminate.
Qed.

Lemma monitor_from_discipline (t : list Event) (m : Monitor) :
  settled (monitor_from m t) ->
  forall pre idx post,
    t = pre ++ SemPost idx :: post ->
    exists returned rest,
      post = SemWait returned :: rest /\ (returned = false -> rest = []).
Proof.
  intros Hm pre. revert t m Hm.
  induction pre as [|e pre IH]; intros t m Hm idx post ->.
  - unfold monitor_from in Hm. simpl in Hm.
    destruct post as [|e post].
    + exfalso. destruct m; simpl in Hm; destruct Hm; discriminate.
    + destruct m; simpl in Hm;
        try (exfalso; exact (settled_not_violation _ Hm)).
      destruct e; simpl in Hm;
        try (exfalso; exact (settled_not_violation _ Hm)).
      destruct returned.
      * exists true, post. split; [reflexivity | discriminate].
      * exists false, post. split; [reflexivity|]. intros _.
        apply monitor_from_stuck_settled. exact Hm.
  - apply (IH (pre ++ SemPost idx :: post) (mon_step m e) Hm idx post). reflexivity.
Qed.

Lemma monitor_one_in_flight (t : list Event) :
  settled (monitor t) -> one_in_flight t.
Proof. intros H. exact (monitor_from_discipline t Idle H). Qed.

Lemma sentLines_app (t1 t2 : list Event) :
  sentLines (t1 ++ t2) = sentLines t1 ++ sentLines t2.
Proof. unfold sentLines. apply flat_map_app. Qed.

Lemma receivedLines_app (l1 l2 : list LogLine) :
  receivedLines (l1 ++ l2) = receivedLines l1 ++ receivedLines l2.
Proof. unfold receivedLines. apply flat_map_app. Qed.

Lemma ticksOf_app (t1 t2 : list Event) :
  ticksOf (t1 ++ t2) = ticksOf t1 ++ ticksOf t2.
Proof. unfold ticksOf. apply flat_map_app. Qed.

(** ** The text file *)

Lemma fgets_read_le (room : nat) (rest : string) :
  (String.length (snd (fgets_read room rest)) <= String.length rest)%nat.
Proof.
  revert rest. induction room as [|room IH]; intros [|c rest]; simpl; try lia.
  destruct (Ascii.eqb c newline); simpl; [lia|].
  specialize (IH rest). destruct (fgets_read room rest) as [l r]. simpl in *. lia.
Qed.

Lemma fgets_read_strict (room : nat) (c : ascii) (rest : string) :
  (String.length (snd (fgets_read (S room) (String c rest))) <= String.length rest)%nat.
Proof.
  cbn [fgets_read]. destruct (Ascii.eqb c newline); [simpl; lia|].
  pose proof (fgets_read_le room rest) as Hle.
  destruct (fgets_read room rest) as [l r]. simpl in *. lia.
Qed.

Lemma fgets_consumes (rest line rest' : string) :
  fgets MAX_LINE_SIZE rest = Some (line, rest') ->
  (String.length rest' < String.length rest)%nat.
Proof.
  unfold fgets. destruct rest as [|c rest]; [discriminate|].
  change (MAX_LINE_SIZE - 1)%nat with (S 998).
  pose proof (fgets_read_strict 998 c rest) as Hle.
  destruct (fgets_read (S 998) (String c rest)) as [l r].
  intros H. inversion H; subst. simpl in *. lia.
Qed.

(** Once the fuel covers the length of what is left to read, the loops
    stop at the end of the file and more fuel changes nothing. *)
Lemma lineCount_loop_fuel (fuel fuel' : nat) (rest : string) (n : Z) :
  (String.length rest <= fuel)%nat ->
  (String.length rest <= fuel')%nat ->
  lineCount_loop fuel rest n = lineCount_loop fuel' rest n.
Proof.
  revert fuel' rest n.
  induction fuel as [|fuel IH]; intros [|fuel'] [|c rest] n H1 H2;
    simpl in H1, H2; try lia; try reflexivity.
  cbn [lineCount_loop].
  destruct (fgets MAX_LINE_SIZE (String c rest)) as [[line rest']|] eqn:E;
    [|reflexivity].
  pose proof (fgets_consumes _ _ _ E) as Hlt. simpl in Hlt.
  apply IH; lia.
Qed.

Lemma lineCount_loop_fileLines (fuel : nat) (rest : string) (n : Z) :
  lineCount_loop fuel rest n = n + Z.of_nat (length (fileLines_loop fuel rest)).
Proof.
  revert rest n. induction fuel as [|fuel IH]; intros rest n; simpl; [lia|].
  destruct (fgets MAX_LINE_SIZE rest) as [[line rest']|]; simpl length; [|lia].
  rewrite IH. lia.
Qed.

Lemma lineCount_fileLines (content : string) :
  lineCount content = Z.of_nat (length (fileLines content)).
Proof. unfold lineCount, fileLines. rewrite lineCount_loop_fileLines. lia. Qed.

(** Reading [k + 1] records from the start leaves the record of index [k]
    in the buffer, whatever the buffer held before. *)
Lemma fgets_repeat_nth (fuel : nat) (rest buffer : string) (k : nat) :
  (k < length (fileLines_loop fuel rest))%nat ->
  fst (fgets_repeat (S k) buffer rest) = nth k (fileLines_loop fuel rest) EmptyString.
Proof.
  revert rest buffer k. induction fuel as [|fuel IH]; intros rest buffer k Hk.
  - simpl in Hk. lia.
  - cbn [fileLines_loop] in *. cbn [fgets_repeat].
    destruct (fgets MAX_LINE_SIZE rest) as [[line rest']|]; [|simpl in Hk; lia].
    destruct k as [|k]; [reflexivity|].
    simpl in Hk. apply (IH rest' line k). lia.
Qed.

(** ** The invariant is kept by every step of the parent *)

Ltac trace_simpl :=
  rewrite ?monitor_snoc, ?sentLines_app, ?receivedLines_app, ?ticksOf_app;
  simpl; rewrite ?app_nil_r.

Ltac inv_field :=
  simpl; auto;
  first
    [ assumption
    | lia
    | rewrite ?length_insert; assumption
    | match goal with
      | H : monitor _ = Idle |- _ => trace_simpl; rewrite H; reflexivity
      end
    | trace_simpl; assumption
    | idtac ].

Ltac open_inv H :=
  destruct H as [Hchildren Hactivation Htermination Hcount Hplen Hprocs
                 Hsems Hnotif Hmonitor Hsent Hreceived].

Section Preservation.

Variable env : Env.
Variable M : Z.
Variable lines : list string.

Lemma Inv_initial : Inv M lines (initialState M).
Proof.
  constructor; simpl; try reflexivity; try (apply length_replicate).
  - symmetry. apply occupied_replicate.
  - intros i c H. rewrite nth_replicate_default in H. discriminate.
  - constructor.
  - constructor.
Qed.

Lemma Inv_emit (e : Event) (s : State) :
  quiet e = true -> Inv M lines s -> Inv M lines (emit e s).
Proof.
  intros Hq HI. open_inv HI.
  constructor; simpl; auto.
  - rewrite monitor_snoc, Hmonitor. destruct e; simpl in *; congruence.
  - rewrite sentLines_app. apply Forall_app. split; [assumption|].
    destruct e; simpl in *; try constructor; congruence.
Qed.

Lemma Inv_set_sharedMem (m : SharedMemory) (s : State) :
  Inv M lines s -> Inv M lines (set_sharedMem m s).
Proof. intros HI. open_inv HI. constructor; simpl; auto. Qed.

Lemma Inv_store (m : SharedMemory) (s : State) :
  Inv M lines s -> Inv M lines (store m s).
Proof.
  intros H. unfold store. apply Inv_emit; [reflexivity|].
  apply Inv_set_sharedMem. exact H.
Qed.

Lemma Inv_set_randCalls (n : nat) (s : State) :
  Inv M lines s -> Inv M lines (set_randCalls n s).
Proof. intros HI. open_inv HI. constructor; simpl; auto. Qed.

Lemma Inv_set_forkCalls (n : nat) (s : State) :
  Inv M lines s -> Inv M lines (set_forkCalls n s).
Proof. intros HI. open_inv HI. constructor; simpl; auto. Qed.

Lemma Inv_set_terminationTime (i : nat) (t : Z) (s : State) :
  Inv M lines s ->
  Inv M lines
      (set_parent (set_terminationTime (<[i := t]> (terminationTime (parent s)))
                                       (parent s)) s).
Proof.
  intros HI. open_inv HI. constructor; simpl; auto.
  rewrite length_insert. assumption.
Qed.

Lemma Inv_announce (t idx : Z) (line : string) (s : State) :
  In line lines -> Inv M lines s -> Inv M lines (emit (PrintSentMessage t idx line) s).
Proof.
  intros Hin HI. open_inv HI. constructor; simpl; auto.
  - rewrite monitor_snoc, Hmonitor. reflexivity.
  - rewrite sentLines_app. apply Forall_app. split; [assumption|].
    simpl. constructor; [assumption | constructor].
Qed.

(** *** The hand-over *)

(** With the invariant, the semaphore posted is the one the child of the
    slot waits on, and its decrement undoes the post. *)
Lemma replicate_post_wait (m i : nat) :
  let l := replicate m 0 in
  let l1 := <[i := nth i l 0 + 1]> l in
  <[i := nth i l1 0 - 1]> l1 = l.
Proof.
  simpl. destruct (Nat.lt_ge_cases i m) as [Hlt | Hge].
  - rewrite nth_insert_eq by (rewrite length_replicate; exact Hlt).
    rewrite insert_insert_same.
    replace (nth i (replicate m 0) 0 + 1 - 1) with (nth i (replicate m 0) 0) by lia.
    apply insert_nth_same.
  - rewrite !list_insert_ge; try reflexivity;
      rewrite ?length_insert, length_replicate; exact Hge.
Qed.

Lemma nth_Some_lt {A} (l : list (option A)) (i : nat) (x : A) :
  nth i l None = Some x -> (i < length l)%nat.
Proof.
  intros H. destruct (Nat.lt_ge_cases i (length l)) as [Hlt | Hge]; [exact Hlt|].
  rewrite nth_overflow in H by exact Hge. discriminate.
Qed.

Lemma post_and_wait_ok (idx : Z) (s : State) :
  0 <= idx ->
  Inv M lines s ->
  sharedSpace (sharedMem s) = TERMINATE \/ In (sharedSpace (sharedMem s)) lines ->
  OutcomeOk M lines (post_and_wait idx s).
Proof.
  intros Hidx HI Hpayload. pose proof HI as HI'. open_inv HI'.
  unfold post_and_wait. cbn [procs emit set_semaphores].
  destruct (nth (Z.to_nat idx) (procs s) None) as [c|] eqn:Hc.
  - destruct (Hprocs _ _ Hc) as (Hslot & Hpid & Hpos & Hact).
    assert (Hslot' : Z.to_nat (M_requests c) = Z.to_nat idx) by (rewrite Hslot; lia).
    pose proof (nth_Some_lt _ _ _ Hc) as Hlt.
    unfold child. cbn [semaphores sharedMem emit set_semaphores]. rewrite Hslot'.
    rewrite Hsems, replicate_post_wait.
    assert (Hothers : forall (v : option ChildProc) i c',
               nth i (<[Z.to_nat idx := v]> (procs s)) None = Some c' ->
               (v = Some c' /\ i = Z.to_nat idx) \/ nth i (procs s) None = Some c').
    { intros v i c' Hi. destruct (Nat.eq_dec (Z.to_nat idx) i) as [<- | Hne].
      - rewrite nth_insert_eq in Hi by exact Hlt. left. split; [exact Hi | reflexivity].
      - rewrite nth_insert_ne in Hi by exact Hne. right. exact Hi. }
    destruct (String.eqb (sharedSpace (sharedMem s)) TERMINATE) eqn:Hterm.
    + destruct (endsInTimestamp (sharedMem s) >=? 0);
        (constructor; inv_field;
         intros i c' Hi; apply Hothers in Hi as [[Hv _] | Hi];
         [discriminate | apply Hprocs; exact Hi]).
    + constructor; inv_field.
      * intros i c' Hi. apply Hothers in Hi as [[Hv ->] | Hi];
          [|apply Hprocs; exact Hi].
        inversion Hv; subst. unfold linked. simpl. auto.
      * trace_simpl. apply Forall_app. split; [assumption|].
        constructor; [|constructor].
        destruct Hpayload as [E | Hin]; [|exact Hin].
        rewrite E, String.eqb_refl in Hterm. discriminate.
  - constructor; inv_field.
Qed.

(** What a hand-over that returns has done. *)
Lemma post_and_wait_continue (idx : Z) (s s' : State) :
  post_and_wait idx s = Continue s' ->
  exists c,
    nth (Z.to_nat idx) (procs s) None = Some c /\
    parent s' = parent s /\
    sharedMem s' = sharedMem s /\
    forkCalls s' = forkCalls s /\
    randCalls s' = randCalls s /\
    trace s' = trace s ++ [SemPost idx; SemWait true] /\
    (sharedSpace (sharedMem s) = TERMINATE ->
     procs s' = <[Z.to_nat (M_requests c) := None]> (procs s) /\
     logs s' =
       logs s ++
       LogTerminate (endsInTimestamp (sharedMem s)) (childPid c) ::
       (if endsInTimestamp (sharedMem s) >=? 0
        then [LogSummary (childPid c) (lineCntr c) (endsInTimestamp (sharedMem s))
                         (activation_time c)
                         (endsInTimestamp (sharedMem s) - activation_time c)]
        else [])).
Proof.
  unfold post_and_wait. cbn [procs emit set_semaphores].
  destruct (nth (Z.to_nat idx) (procs s) None) as [c|] eqn:Hc; [|discriminate].
  intros H. inversion H; subst; clear H. exists c.
  unfold child. cbn [semaphores sharedMem emit set_semaphores].
  destruct (String.eqb (sharedSpace (sharedMem s)) TERMINATE) eqn:Hterm.
  - destruct (endsInTimestamp (sharedMem s) >=? 0); simpl;
      rewrite <- !app_assoc; simpl; repeat split; auto.
  - simpl. rewrite <- !app_assoc. simpl. repeat split; auto;
      match goal with
      | E : sharedSpace _ = TERMINATE |- _ =>
          rewrite E, String.eqb_refl in Hterm; discriminate
      end.
Qed.

(** A hand-over blocks exactly when no child waits on the posted semaphore. *)
Lemma post_and_wait_blocked (idx : Z) (s s' : State) :
  post_and_wait idx s = Blocked s' ->
  nth (Z.to_nat idx) (procs s) None = None /\
  parent s' = parent s /\
  sharedMem s' = sharedMem s /\
  logs s' = logs s /\
  semaphores s' =
    <[Z.to_nat idx := nth (Z.to_nat idx) (semaphores s) 0 + 1]> (semaphores s) /\
  trace s' = trace s ++ [SemPost idx; SemWait false].
Proof.
  unfold post_and_wait. cbn [procs emit set_semaphores].
  destruct (nth (Z.to_nat idx) (procs s) None) as [c|] eqn:Hc; [discriminate|].
  intros H. inversion H; subst; clear H. simpl.
  rewrite <- !app_assoc. simpl. repeat split; auto.
Qed.

Lemma post_and_wait_not_trapped (idx : Z) (s s' : State) :
  post_and_wait idx s <> Trapped s'.
Proof.
  unfold post_and_wait.
  destruct (nth (Z.to_nat idx) (procs _) None); discriminate.
Qed.

Lemma post_and_wait_not_overflowed (idx : Z) (s s' : State) :
  post_and_wait idx s <> Overflowed s'.
Proof.
  unfold post_and_wait.
  destruct (nth (Z.to_nat idx) (procs _) None); discriminate.
Qed.

(** *** Spawn *)

Lemma spawn_ok (currTime : Z) (label : string) (s : State) :
  Inv M lines s -> OutcomeOk M lines (spawn env M currTime label s).
Proof.
  intros HI. unfold spawn.
  destruct (freeSlotFinder_spec (children (parent s)) M) as [E | [Hrange Hfree]].
  - rewrite E. simpl. exact HI.
  - destruct (freeSlotFinder (children (parent s)) M =? -1) eqn:E; [exact HI|].
    set (freeSlot := freeSlotFinder (children (parent s)) M) in *.
    unfold fork. destruct (fork_result env (forkCalls s)) as [pid|].
    + open_inv HI.
      assert (Hslot : (Z.to_nat freeSlot < Z.to_nat M)%nat) by lia.
      constructor; inv_field.
      * rewrite occupied_insert by lia. rewrite Hfree. simpl. lia.
      * intros i c Hi.
        destruct (Nat.eq_dec (Z.to_nat freeSlot) i) as [<- | Hne].
        -- rewrite nth_insert_eq in Hi by lia. inversion Hi; subst.
           unfold linked. simpl.
           rewrite !nth_insert_eq by lia. repeat split; lia.
        -- rewrite nth_insert_ne in Hi by exact Hne.
           destruct (Hprocs _ _ Hi) as (H1 & H2 & H3 & H4).
           unfold linked. simpl. rewrite !nth_insert_ne by exact Hne. auto.
    + simpl. apply Inv_set_forkCalls. exact HI.
Qed.

(** *** Terminate *)

Lemma Inv_release (i : nat) (s : State) :
  Inv M lines s ->
  nth i (procs s) None = None ->
  nth i (children (parent s)) 0 <> 0 ->
  (i < Z.to_nat M)%nat ->
  let p := parent s in
  let p' := set_children (<[i := 0]> (children p)) p in
  Inv M lines (set_parent (set_activeChildren (activeChildren p' - 1) p') s).
Proof.
  intros HI Hnone Hpid Hi. open_inv HI. constructor; inv_field.
  - rewrite occupied_insert by lia.
    destruct (nth i (children (parent s)) 0 =? 0) eqn:E;
      [apply Z.eqb_eq in E; contradiction | simpl; lia].
  - intros j c Hj. destruct (Nat.eq_dec i j) as [<- | Hne]; [congruence|].
    destruct (Hprocs _ _ Hj) as (H1 & H2 & H3 & H4).
    unfold linked. simpl. rewrite nth_insert_ne by exact Hne. auto.
Qed.

Ltac inv_prepare :=
  repeat first
    [ apply Inv_emit; [reflexivity|]
    | apply Inv_store
    | apply Inv_set_sharedMem
    | apply Inv_set_terminationTime
    | apply Inv_set_randCalls ].

Lemma terminate_ok (currTime : Z) (label : string) (s : State) :
  Inv M lines s -> OutcomeOk M lines (terminate M currTime label s).
Proof.
  intros HI. unfold terminate.
  destruct (childLabelFinder_spec (childLabels (parent s)) label M)
    as [E | [Hrange _]].
  { rewrite E. simpl. apply Inv_emit; [reflexivity | exact HI]. }
  destruct (childLabelFinder (childLabels (parent s)) label M =? -1) eqn:E.
  { simpl. apply Inv_emit; [reflexivity | exact HI]. }
  set (childIndx := childLabelFinder (childLabels (parent s)) label M) in *.
  cbv zeta.
  match goal with
  | |- OutcomeOk _ _ (andThen (post_and_wait _ ?s4) _) =>
      assert (H4 : Inv M lines s4) by (inv_prepare; exact HI);
      assert (Hp : sharedSpace (sharedMem s4) = TERMINATE) by reflexivity;
      pose proof (post_and_wait_ok childIndx s4 (proj1 Hrange) H4 (or_introl Hp)) as Hok;
      destruct (post_and_wait childIndx s4) as [s5 | s5 | s5 | s5] eqn:Hpw
  end; [|exact Hok | exact Hok | exact Hok].
  simpl in Hok. simpl andThen.
  destruct (post_and_wait_continue _ _ _ Hpw)
    as (c & Hc & Hparent & Hmem & _ & _ & _ & Hexit).
  destruct (Hexit Hp) as [Hprocs5 _].
  destruct (inv_procs _ _ _ H4 _ _ Hc) as (Hslot & Hpid & Hpos & _).
  apply (Inv_release (Z.to_nat childIndx)
           (emit (PrintTerminated currTime childIndx)
              (emit (Waitpid (nth (Z.to_nat childIndx) (children (parent s5)) 0)) s5))).
  - inv_prepare. exact Hok.
  - simpl. rewrite Hprocs5, Hslot, Nat2Z.id.
    apply nth_insert_eq. exact (nth_Some_lt _ _ _ Hc).
  - simpl. rewrite Hparent, Hpid. lia.
  - lia.
Qed.

Lemma applyCommand_ok (currTime : Z) (e : ConfigEntry) (s : State) :
  Inv M lines s -> OutcomeOk M lines (applyCommand env M currTime e s).
Proof.
  intros HI. unfold applyCommand.
  destruct (Ascii.eqb (command e) "S" && (activeChildren (parent s) <? M)).
  - apply spawn_ok. exact HI.
  - destruct (Ascii.eqb (command e) "T").
    + apply terminate_ok. exact HI.
    + exact HI.
Qed.

(** *** The final loop *)

Lemma drainSlot_ok (quitTimestamp : Z) (i : nat) (s : State) :
  Inv M lines s -> OutcomeOk M lines (drainSlot quitTimestamp i s).
Proof.
  intros HI. unfold drainSlot.
  destruct (nth i (children (parent s)) 0 >? 0); [|exact HI].
  cbv zeta.
  match goal with
  | |- OutcomeOk _ _ (andThen (post_and_wait _ ?s4) _) =>
      assert (H4 : Inv M lines s4) by (inv_prepare; exact HI);
      assert (Hp : sharedSpace (sharedMem s4) = TERMINATE) by reflexivity;
      pose proof (post_and_wait_ok (Z.of_nat i) s4 (Nat2Z.is_nonneg i) H4
                                   (or_introl Hp)) as Hok;
      destruct (post_and_wait (Z.of_nat i) s4) as [s5 | s5 | s5 | s5] eqn:Hpw
  end; [|exact Hok | exact Hok | exact Hok].
  simpl in Hok. simpl. inv_prepare. exact Hok.
Qed.

(** *** Delivery *)

Lemma randomActiveChildrenSelection_spec (l : list Z) (s : State) :
  let '(r, s') := randomActiveChildrenSelection env l M s in
  (s' = s \/ s' = set_randCalls (S (randCalls s)) s) /\
  (r = -1 \/ (0 <= r < M /\ nth (Z.to_nat r) l 0 > 0)).
Proof.
  unfold randomActiveChildrenSelection.
  pose proof (activeIndexes_from_spec l (Z.to_nat M) 0) as Hall.
  set (activeIndexes := activeIndexes_from 0 (Z.to_nat M) l) in *.
  destruct (Z.of_nat (length activeIndexes) =? 0) eqn:E.
  - split; [left; reflexivity | left; reflexivity].
  - apply Z.eqb_neq in E. unfold rand.
    split; [right; reflexivity | right].
    set (r := Z.of_N (rand_value env (randCalls s))).
    assert (Hr : 0 <= Z.rem r (Z.of_nat (length activeIndexes))
                 < Z.of_nat (length activeIndexes)).
    { apply Z.rem_bound_pos; unfold r; lia. }
    rewrite Forall_forall in Hall.
    destruct (Hall (nth (Z.to_nat (Z.rem r (Z.of_nat (length activeIndexes))))
                        activeIndexes 0)) as [H1 H2].
    { apply list_elem_of_In, nth_In. lia. }
    split; [lia | exact H2].
Qed.

Lemma randomLineSelection_spec (text buffer : string) (s : State) :
  lineCount text > 0 ->
  exists k,
    (k < length (fileLines text))%nat /\
    Z.of_nat k = Z.rem (Z.of_N (rand_value env (randCalls s))) (lineCount text) /\
    randomLineSelection env text buffer (lineCount text) s =
      Some (nth k (fileLines text) EmptyString, set_randCalls (S (randCalls s)) s).
Proof.
  intros Hpos. unfold randomLineSelection, rand.
  destruct (lineCount text =? 0) eqn:E; [apply Z.eqb_eq in E; lia|].
  set (r := Z.of_N (rand_value env (randCalls s))).
  assert (Hr : 0 <= Z.rem r (lineCount text) < lineCount text).
  { apply Z.rem_bound_pos; unfold r; lia. }
  exists (Z.to_nat (Z.rem r (lineCount text))).
  pose proof (lineCount_fileLines text) as Hlen.
  split; [lia|]. split; [lia|].
  replace (Z.to_nat (Z.rem r (lineCount text) + 1))
    with (S (Z.to_nat (Z.rem r (lineCount text)))) by lia.
  unfold fileLines. rewrite (fgets_repeat_nth (String.length text)); [reflexivity|].
  fold (fileLines text). lia.
Qed.

Lemma payloads_nth (text : string) (k : nat) :
  (k < length (fileLines text))%nat ->
  In (cstring (nth k (fileLines text) EmptyString)) (payloads text).
Proof. intros Hk. unfold payloads. apply in_map, nth_In. exact Hk. Qed.

Lemma deliver_ok (text : string) (currTime : Z) (s : State) :
  lines = payloads text ->
  Inv M lines s ->
  OutcomeOk M lines (deliver env M text (lineCount text) currTime s).
Proof.
  intros Hlines HI. unfold deliver.
  destruct (activeChildren (parent s) >? 0); [|exact HI].
  pose proof (randomActiveChildrenSelection_spec (children (parent s)) s) as Hsel.
  destruct (randomActiveChildrenSelection env (children (parent s)) M s)
    as [randChildIndx s1].
  destruct Hsel as [Hs1 Hidx].
  assert (H1 : Inv M lines s1).
  { destruct Hs1 as [-> | ->]; [exact HI | apply Inv_set_randCalls; exact HI]. }
  destruct (negb (randChildIndx =? -1) && (lineCount text >? 0)) eqn:Hguard;
    [|exact H1].
  apply andb_true_iff in Hguard as [Hne Hpos].
  apply negb_true_iff, Z.eqb_neq in Hne. apply Z.gtb_lt in Hpos.
  destruct Hidx as [? | [Hrange _]]; [contradiction|].
  destruct (randomLineSelection_spec text EmptyString s1) as (k & Hk & _ & ->);
    [lia|].
  assert (Hin : In (cstring (nth k (fileLines text) EmptyString)) lines).
  { rewrite Hlines. apply payloads_nth. exact Hk. }
  apply post_and_wait_ok; [lia | | right; exact Hin].
  apply Inv_announce; [exact Hin|].
  inv_prepare. exact H1.
Qed.

(** *** The loops *)

Lemma andThen_ok (o : Outcome) (k : State -> Outcome) :
  OutcomeOk M lines o ->
  (forall s, Inv M lines s -> OutcomeOk M lines (k s)) ->
  OutcomeOk M lines (andThen o k).
Proof. destruct o as [s | s | s | s]; simpl; auto. Qed.

Lemma andThen_continue (o : Outcome) (k : State -> Outcome) (s' : State) :
  andThen o k = Continue s' -> exists s1, o = Continue s1 /\ k s1 = Continue s'.
Proof.
  destruct o as [s | s | s | s]; simpl; intros H; try discriminate.
  exists s. split; [reflexivity | exact H].
Qed.

(** The increment of [currTime] after a tick, when the loop goes on. *)
Lemma increment_continue (currTime : Z) (s1 s' : State) (o : Outcome) :
  (if currTime =? INT_MAX then Overflowed s1 else o) = Continue s' ->
  currTime <> INT_MAX /\ o = Continue s'.
Proof.
  destruct (currTime =? INT_MAX) eqn:E; [discriminate|].
  apply Z.eqb_neq in E. auto.
Qed.

Lemma commandLoop_ok (currTime : Z) (commands : list ConfigEntry) (s : State) :
  Inv M lines s -> OutcomeOk M lines (commandLoop env M currTime commands s).
Proof.
  revert s. induction commands as [|e rest IH]; intros s HI; simpl; [exact HI|].
  destruct (timestamp e =? currTime); [|apply IH; exact HI].
  apply andThen_ok; [apply applyCommand_ok; exact HI | exact IH].
Qed.

Section WithText.

Variable text : string.
Hypothesis lines_of_text : lines = payloads text.
Variable commands : list ConfigEntry.

Lemma tick_ok (currTime : Z) (s : State) :
  Inv M lines s ->
  OutcomeOk M lines (tick env M text (lineCount text) commands currTime s).
Proof.
  intros HI. unfold tick. apply andThen_ok.
  - apply commandLoop_ok. apply Inv_emit; [reflexivity | exact HI].
  - intros s1 H1. apply deliver_ok; assumption.
Qed.

Lemma tickLoop_ok (quitTimestamp : Z) (fuel : nat) (currTime : Z) (s : State) :
  Inv M lines s ->
  OutcomeOk M lines
            (tickLoop env M text (lineCount text) commands quitTimestamp
                      fuel currTime s).
Proof.
  revert currTime s. induction fuel as [|fuel IH]; intros currTime s HI; simpl.
  - destruct (currTime <=? quitTimestamp); exact HI.
  - destruct (currTime <=? quitTimestamp); [|exact HI].
    apply andThen_ok; [apply tick_ok; exact HI|].
    intros s1 H1. destruct (currTime =? INT_MAX); [exact H1|].
    apply IH. exact H1.
Qed.

End WithText.

Lemma drainLoop_ok (quitTimestamp : Z) (n i : nat) (s : State) :
  Inv M lines s -> OutcomeOk M lines (drainLoop quitTimestamp i n s).
Proof.
  revert i s. induction n as [|n IH]; intros i s HI; simpl; [exact HI|].
  apply andThen_ok; [apply drainSlot_ok; exact HI|].
  intros s1 H1. apply IH. exact H1.
Qed.

End Preservation.

(** ** Whole runs *)

Section Runs.

Variable env : Env.
Variable M : Z.
Variable text : string.

Lemma Reachable_Inv (s : State) :
  Reachable env M text s -> Inv M (payloads text) s.
Proof.
  induction 1 as [| currTime s _ IH | currTime e s s' _ IH Hstep
                  | currTime s s' _ IH Hstep | quitTimestamp i s s' _ IH Hstep].
  - apply Inv_initial.
  - apply Inv_emit; [reflexivity | exact IH].
  - pose proof (applyCommand_ok env M _ currTime e s IH) as Hok.
    rewrite Hstep in Hok. exact Hok.
  - pose proof (deliver_ok env M _ text currTime s eq_refl IH) as Hok.
    rewrite Hstep in Hok. exact Hok.
  - pose proof (drainSlot_ok M _ quitTimestamp i s IH) as Hok.
    rewrite Hstep in Hok. exact Hok.
Qed.

(** The loops only go through reachable states. *)
Lemma commandLoop_reachable (currTime : Z) (commands : list ConfigEntry)
    (s s' : State) :
  Reachable env M text s ->
  commandLoop env M currTime commands s = Continue s' ->
  Reachable env M text s'.
Proof.
  revert s. induction commands as [|e rest IH]; intros s Hs Hrun; simpl in Hrun.
  - inversion Hrun; subst. exact Hs.
  - destruct (timestamp e =? currTime); [|exact (IH s Hs Hrun)].
    apply andThen_continue in Hrun as (s1 & H1 & H2).
    apply (IH s1); [|exact H2].
    exact (reach_command env M text currTime e s s1 Hs H1).
Qed.

Lemma tick_reachable (commands : list ConfigEntry) (currTime : Z) (s s' : State) :
  Reachable env M text s ->
  tick env M text (lineCount text) commands currTime s = Continue s' ->
  Reachable env M text s'.
Proof.
  intros Hs Hrun. unfold tick in Hrun.
  apply andThen_continue in Hrun as (s1 & H1 & H2).
  apply (reach_deliver env M text currTime s1 s'); [|exact H2].
  apply (commandLoop_reachable currTime commands (emit (Tick currTime) s));
    [|exact H1].
  apply reach_tick. exact Hs.
Qed.

Lemma tickLoop_reachable (commands : list ConfigEntry) (quitTimestamp : Z)
    (fuel : nat) (currTime : Z) (s s' : State) :
  Reachable env M text s ->
  tickLoop env M text (lineCount text) commands quitTimestamp fuel currTime s
    = Continue s' ->
  Reachable env M text s'.
Proof.
  revert currTime s. induction fuel as [|fuel IH]; intros currTime s Hs Hrun;
    simpl in Hrun.
  - destruct (currTime <=? quitTimestamp); inversion Hrun; subst; exact Hs.
  - destruct (currTime <=? quitTimestamp);
      [|inversion Hrun; subst; exact Hs].
    apply andThen_continue in Hrun as (s1 & H1 & H2).
    apply increment_continue in H2 as [_ H2].
    apply (IH (currTime + 1) s1); [|exact H2].
    exact (tick_reachable commands currTime s s1 Hs H1).
Qed.

Lemma drainLoop_reachable (quitTimestamp : Z) (n i : nat) (s s' : State) :
  Reachable env M text s ->
  drainLoop quitTimestamp i n s = Continue s' ->
  Reachable env M text s'.
Proof.
  revert i s. induction n as [|n IH]; intros i s Hs Hrun; simpl in Hrun.
  - inversion Hrun; subst. exact Hs.
  - apply andThen_continue in Hrun as (s1 & H1 & H2).
    apply (IH (S i) s1); [|exact H2].
    exact (reach_drain env M text quitTimestamp i s s1 Hs H1).
Qed.

Lemma parentProcess_reachable (commands : list ConfigEntry) (s : State) :
  parentProcess env commands text M = Completed s ->
  exists s0, s = emit Cleanup s0 /\ Reachable env M text s0.
Proof.
  unfold parentProcess. destruct (findQuit commands =? -1); [discriminate|].
  destruct (andThen _ _) as [s1 | s1 | s1 | s1] eqn:Hrun; try discriminate.
  intros H. inversion H; subst; clear H. exists s1. split; [reflexivity|].
  apply andThen_continue in Hrun as (s2 & H1 & H2).
  eapply drainLoop_reachable; [|exact H2].
  eapply tickLoop_reachable; [|exact H1].
  apply reach_start.
Qed.

(** The outcome of the two loops of [parentProcess] satisfies the
    invariant: the parent is never killed by a division by zero, and both
    when it completes and when it hangs the counters, the trace and the
    logs are as the invariant says. *)
Lemma loops_ok (commands : list ConfigEntry) (quitTimestamp : Z) :
  OutcomeOk M (payloads text)
    (andThen (tickLoop env M text (lineCount text) commands quitTimestamp
                       (Z.to_nat (quitTimestamp + 1)) 0 (initialState M))
             (drainLoop quitTimestamp 0 (Z.to_nat M))).
Proof.
  apply andThen_ok.
  - apply tickLoop_ok; [reflexivity | apply Inv_initial].
  - intros s HI. apply drainLoop_ok. exact HI.
Qed.

End Runs.

(** * The claims *)

(** ** C1: at most one message in flight *)

(** C1.  In every run of [parentProcess], whatever the configuration, the
    text, the capacity and the answers of [rand] and [fork], every
    [sem_post] to a child's semaphore (in the delivery of a tick, in the
    handling of a TERMINATE command and in the final loop) is directly
    followed in the parent's trace by its [sem_wait] on the notification
    semaphore, before any other store into the shared segment or post; and
    when that wait never returns nothing follows it.  Hence no second send
    happens between a send and its acknowledgment. *)
Theorem C1_one_message_in_flight (env : Env) (commands : list ConfigEntry)
    (text : string) (M : Z) :
  one_in_flight (finalTrace (parentProcess env commands text M)).
Proof.
  apply monitor_one_in_flight. unfold parentProcess.
  destruct (findQuit commands =? -1); [left; reflexivity|].
  pose proof (loops_ok env M text commands (findQuit commands)) as Hok.
  destruct (andThen _ _) as [s | s | s | s]; simpl in *.
  - left. rewrite monitor_snoc, (inv_monitor _ _ _ Hok). reflexivity.
  - right. exact (blk_monitor _ _ _ Hok).
  - contradiction.
  - left. exact (inv_monitor _ _ _ Hok).
Qed.

(** ** C4: a spawn at full capacity *)

(** C4.  When the active count already equals the capacity [M], applying a
    Spawn command leaves the whole state as it was: same counters, same
    slot table, no [fork], no output, and the parent goes on. *)
Theorem C4_spawn_at_capacity_is_skipped (env : Env) (M currTime : Z)
    (e : ConfigEntry) (s : State) :
  command e = "S"%char ->
  activeChildren (parent s) = M ->
  applyCommand env M currTime e s = Continue s.
Proof.
  intros Hcmd Hfull. unfold applyCommand.
  rewrite Hcmd, Hfull, Z.ltb_irrefl. reflexivity.
Qed.

Lemma C4_witness :
  command (entry 5 "C2" "S") = "S"%char /\
  activeChildren (parent state_one_child) = 1 /\
  applyCommand env_example 1 5 (entry 5 "C2" "S") state_one_child
    = Continue state_one_child.
Proof.
  split; [reflexivity|]. split; [reflexivity|].
  apply (C4_spawn_at_capacity_is_skipped env_example 1 5 (entry 5 "C2" "S")
                                         state_one_child); reflexivity.
Defined.

(** ** C8: no EXIT line *)

Lemma findQuit_absent (commands : list ConfigEntry) :
  (forall e, In e commands -> command e <> "E"%char) -> findQuit commands = -1.
Proof.
  induction commands as [|e rest IH]; intros H; simpl; [reflexivity|].
  destruct (Ascii.eqb (command e) "E") eqn:E.
  - apply Ascii.eqb_eq in E. exfalso. apply (H e); [left; reflexivity | exact E].
  - apply IH. intros e' He'. apply H. right. exact He'.
Qed.

(** C8.  When no entry of the configuration is an EXIT command,
    [parentProcess] writes its diagnostic and exits with failure; nothing
    else has happened: the shared segment and the semaphores were not
    created, no child was forked and no message was sent. *)
Theorem C8_missing_quit_is_fatal (env : Env) (commands : list ConfigEntry)
    (text : string) (M : Z) :
  (forall e, In e commands -> command e <> "E"%char) ->
  parentProcess env commands text M = ExitFailure [Stderr exitNotFound].
Proof.
  intros H. unfold parentProcess. rewrite (findQuit_absent commands H).
  reflexivity.
Qed.

Lemma C8_witness :
  parentProcess env_example [entry 0 "C1" "S"; entry 4 "C1" "T"] text_example 2
    = ExitFailure [Stderr exitNotFound].
Proof.
  apply (C8_missing_quit_is_fatal env_example
           [entry 0 "C1" "S"; entry 4 "C1" "T"] text_example 2).
  intros e [<- | [<- | []]]; discriminate.
Defined.

(** ** C9: the commands of a tick *)

(** The command loop of a tick applies the entries stamped with the tick
    one after the other, in the order of the parsed configuration; an
    entry is applied once the previous one has returned. *)
Lemma commandLoop_scheduled (env : Env) (M currTime : Z)
    (commands : list ConfigEntry) (s : State) :
  commandLoop env M currTime commands s
    = applyInOrder env M currTime (scheduledAt currTime commands) s.
Proof.
  revert s. induction commands as [|e rest IH]; intros s; simpl; [reflexivity|].
  destruct (timestamp e =? currTime); simpl; [|apply IH].
  destruct (applyCommand env M currTime e s); simpl; auto.
Qed.

(** C9.  Not every command of a tick is applied.  With one slot and the
    configuration [0 C1 S], [1 C1 T], [2 C1 T], [2 C2 S], [3 EXIT], two
    entries are stamped 2: the TERMINATE of C1 and, after it, the Spawn of
    C2.  The parent enters the ticks 0, 1 and 2 and is then blocked for
    good in the TERMINATE of the child it has already terminated (no
    warning is printed); the Spawn of C2 that follows in the file is
    never applied, although the slot is free: C1 is the only child ever
    spawned. *)
Theorem C9_command_after_blocked_terminate_is_not_applied :
  let run := parentProcess env_example config_blocked_tick text_example 1 in
  scheduledAt 2 config_blocked_tick
    = [entry 2 "C1" "T"; entry 2 "C2" "S"]%string%char /\
  exists s,
    run = Hung s /\
    ticksOf (trace s) = [0; 1; 2] /\
    spawnedLabels (trace s) = ["C1"%string] /\
    warningsOf (trace s) = [] /\
    activeChildren (parent s) = 0 /\
    freeSlotFinder (children (parent s)) 1 = 0.
Proof.
  cbv zeta. split; [reflexivity|].
  eexists. split; [vm_compute; reflexivity|].
  vm_compute. repeat split; reflexivity.
Qed.

(** ** C5: terminating an active child *)

(** C5.  Take any state the parent can reach and a TERMINATE command, at a
    tick [currTime >= 0], whose label is found in slot [i] where a child
    [c] is waiting.  Then the command returns; the child has logged that
    it received TERMINATE at [currTime] (the stamp stored in the shared
    segment) and a summary whose span is that stamp minus its activation
    time, which is also [terminationTime[i] - activationTime[i]] as
    recorded by the parent; and slot [i] is free again, with no child
    left waiting on it. *)
Theorem C5_terminate_active_child (env : Env) (M : Z) (text : string)
    (s : State) (currTime : Z) (e : ConfigEntry) (i : nat) (c : ChildProc) :
  Reachable env M text s ->
  0 <= currTime ->
  command e = "T"%char ->
  childLabelFinder (childLabels (parent s)) (processLabel e) M = Z.of_nat i ->
  nth i (procs s) None = Some c ->
  exists s' span,
    applyCommand env M currTime e s = Continue s' /\
    endsInTimestamp (sharedMem s') = currTime /\
    logs s' = logs s ++ [LogTerminate currTime (childPid c);
                         LogSummary (childPid c) (lineCntr c) currTime
                                    (activation_time c) span] /\
    span = currTime - activation_time c /\
    span = nth i (terminationTime (parent s')) 0
           - nth i (activationTime (parent s')) 0 /\
    nth i (children (parent s')) 0 = 0 /\
    nth i (procs s') None = None /\
    activeChildren (parent s') = activeChildren (parent s) - 1.
Proof.
  intros Hreach Ht Hcmd Hfind Hc.
  pose proof (Reachable_Inv env M text s Hreach) as HI.
  pose proof (nth_Some_lt _ _ _ Hc) as Hlt.
  destruct (inv_procs _ _ _ HI _ _ Hc) as (Hslot & Hpid & Hpos & Hact).
  pose proof HI as HI'. open_inv HI'.
  unfold applyCommand. rewrite Hcmd. cbn [Ascii.eqb Bool.eqb andb].
  unfold terminate. rewrite Hfind.
  replace (Z.of_nat i =? -1) with false by (symmetry; apply Z.eqb_neq; lia).
  rewrite Nat2Z.id. cbv zeta.
  match goal with
  | |- context [andThen (post_and_wait _ ?s4) _] =>
      remember s4 as st4 eqn:E4;
      assert (Hprocs4 : procs st4 = procs s) by (subst st4; reflexivity);
      assert (Hparent4 : parent st4 =
                set_terminationTime (<[i := currTime]> (terminationTime (parent s)))
                                    (parent s)) by (subst st4; reflexivity);
      assert (Hlogs4 : logs st4 = logs s) by (subst st4; reflexivity);
      assert (Hmem4 : sharedMem st4 =
                mkSharedMemory (activeChildIndx (sharedMem s)) currTime TERMINATE)
        by (subst st4; reflexivity)
  end.
  clear E4.
  destruct (post_and_wait (Z.of_nat i) st4) as [s5 | s5 | s5 | s5] eqn:Hpw.
  - destruct (post_and_wait_continue _ _ _ Hpw)
      as (c' & Hc' & Hparent5 & Hmem5 & _ & _ & _ & Hexit).
    rewrite Nat2Z.id, Hprocs4, Hc in Hc'. inversion Hc'; subst c'; clear Hc'.
    destruct Hexit as [Hprocs5 Hlogs5]; [rewrite Hmem4; reflexivity|].
    rewrite Hmem4 in Hlogs5. cbn [endsInTimestamp] in Hlogs5.
    replace (currTime >=? 0) with true in Hlogs5
      by (symmetry; apply Z.geb_le; lia).
    eexists. exists (currTime - activation_time c).
    split; [reflexivity|]. simpl.
    rewrite Hmem5, Hmem4, Hlogs5, Hlogs4, Hprocs5, Hprocs4, Hparent5, Hparent4.
    cbn [endsInTimestamp children terminationTime activationTime activeChildren
         set_terminationTime].
    rewrite Hslot, Nat2Z.id.
    rewrite !nth_insert_eq by lia.
    repeat split; try reflexivity; lia.
  - apply post_and_wait_blocked in Hpw as [Hnone _].
    rewrite Nat2Z.id, Hprocs4, Hc in Hnone. discriminate.
  - exfalso. exact (post_and_wait_not_trapped _ _ _ Hpw).
  - exfalso. exact (post_and_wait_not_overflowed _ _ _ Hpw).
Qed.

Lemma C5_witness :
  exists s' span,
    applyCommand env_example 1 4 (entry 4 "C1" "T") state_one_child
      = Continue s' /\
    endsInTimestamp (sharedMem s') = 4 /\
    logs s' = logs state_one_child ++
              [LogTerminate 4 100; LogSummary 100 0 4 0 span] /\
    span = 4 - 0 /\
    span = nth 0%nat (terminationTime (parent s')) 0
           - nth 0%nat (activationTime (parent s')) 0 /\
    nth 0%nat (children (parent s')) 0 = 0 /\
    nth 0%nat (procs s') None = None /\
    activeChildren (parent s') = activeChildren (parent state_one_child) - 1.
Proof.
  apply (C5_terminate_active_child env_example 1 text_example state_one_child 4
           (entry 4 "C1" "T") 0 (mkChildProc 100 0 0 0)).
  - apply (reach_command env_example 1 text_example 0 (entry 0 "C1" "S")
             (initialState 1) state_one_child); [apply reach_start | reflexivity].
  - lia.
  - reflexivity.
  - reflexivity.
  - reflexivity.
Defined.

(** ** C6: the active count is the number of occupied slots *)





(** ** C10: what is delivered *)

(** In every run the lines announced by the parent and the lines logged
    by the children are C strings of records of the text file, and the
    parent is never killed by a remainder by zero. *)
Lemma run_lines (env : Env) (commands : list ConfigEntry) (text : string) (M : Z) :
  let run := parentProcess env commands text M in
  Forall (fun l => In l (payloads text)) (sentLines (finalTrace run)) /\
  Forall (fun l => In l (payloads text)) (receivedLines (finalLogs run)) /\
  (forall s, run <> Killed s).
Proof.
  unfold parentProcess.
  destruct (findQuit commands =? -1).
  { simpl. repeat split; try constructor. discriminate. }
  pose proof (loops_ok env M text commands (findQuit commands)) as Hok.
  destruct (andThen _ _) as [s | s | s | s]; simpl in *.
  - repeat split.
    + rewrite sentLines_app. simpl. rewrite app_nil_r.
      exact (inv_sent _ _ _ Hok).
    + exact (inv_received _ _ _ Hok).
    + discriminate.
  - repeat split.
    + exact (blk_sent _ _ _ Hok).
    + exact (blk_received _ _ _ Hok).
    + discriminate.
  - contradiction.
  - repeat split.
    + exact (inv_sent _ _ _ Hok).
    + exact (inv_received _ _ _ Hok).
    + discriminate.
Qed.





(** ** C3: a TERMINATE for a label that names no active child *)

(** The part that holds: a label found in no slot only produces the
    warning. *)
Lemma terminate_unknown_label (env : Env) (M currTime : Z) (e : ConfigEntry)
    (s : State) :
  command e = "T"%char ->
  childLabelFinder (childLabels (parent s)) (processLabel e) M = -1 ->
  applyCommand env M currTime e s
    = Continue (emit (PrintWarning currTime (processLabel e)) s).
Proof.
  intros Hcmd Hfind. unfold applyCommand. rewrite Hcmd.
  cbn [Ascii.eqb Bool.eqb andb]. unfold terminate. rewrite Hfind. reflexivity.
Qed.

(** The part that fails: the label of a terminated child stays in
    [childLabels], so a later TERMINATE for it is not treated as unknown.
    The parent stores the TERMINATE message, posts the semaphore of the
    free slot and waits for an acknowledgment nobody will send. *)
Lemma terminate_stale_label (env : Env) (M currTime : Z) (e : ConfigEntry)
    (s : State) (i : nat) :
  command e = "T"%char ->
  childLabelFinder (childLabels (parent s)) (processLabel e) M = Z.of_nat i ->
  nth i (procs s) None = None ->
  exists s',
    applyCommand env M currTime e s = Blocked s' /\
    warningsOf (trace s') = warningsOf (trace s) /\
    sharedMem s' = mkSharedMemory (activeChildIndx (sharedMem s)) currTime TERMINATE /\
    semaphores s' = <[i := nth i (semaphores s) 0 + 1]> (semaphores s).
Proof.
  intros Hcmd Hfind Hnone. unfold applyCommand. rewrite Hcmd.
  cbn [Ascii.eqb Bool.eqb andb]. unfold terminate. rewrite Hfind.
  replace (Z.of_nat i =? -1) with false by (symmetry; apply Z.eqb_neq; lia).
  cbv zeta. unfold post_and_wait. rewrite !Nat2Z.id.
  cbn [procs emit store set_semaphores set_sharedMem set_parent].
  rewrite Hnone. cbn [andThen]. eexists. split; [reflexivity|].
  unfold warningsOf. cbn [trace sharedMem semaphores emit].
  repeat (rewrite flat_map_app; simpl; rewrite ?app_nil_r). auto.
Qed.

(** C3, at the input [0 C1 S], [1 C1 T], [2 C1 T] with one slot.  After
    the first two commands no child is active and the slot is free; the
    third command, a TERMINATE for the label of the child already
    terminated, prints no warning: it overwrites the time stamp of the
    shared segment and [terminationTime[0]], leaves the semaphore of slot 0
    at 1, and blocks the parent for good. *)
Theorem C3_terminate_of_terminated_child_blocks :
  exists s1 s2 s3,
    applyCommand env_example 1 0 (entry 0 "C1" "S") (initialState 1) = Continue s1 /\
    applyCommand env_example 1 1 (entry 1 "C1" "T") s1 = Continue s2 /\
    activeChildren (parent s2) = 0 /\
    children (parent s2) = [0] /\
    procs s2 = [None] /\
    applyCommand env_example 1 2 (entry 2 "C1" "T") s2 = Blocked s3 /\
    warningsOf (trace s3) = [] /\
    (semaphores s2 = [0] /\ semaphores s3 = [1]) /\
    (endsInTimestamp (sharedMem s2) = 1 /\ endsInTimestamp (sharedMem s3) = 2) /\
    (terminationTime (parent s2) = [1] /\ terminationTime (parent s3) = [2]).
Proof.
  eexists. eexists. eexists.
  split; [vm_compute; reflexivity|].
  split; [vm_compute; reflexivity|].
  split; [reflexivity|]. split; [reflexivity|]. split; [reflexivity|].
  split; [vm_compute; reflexivity|].
  repeat split; reflexivity.
Qed.

(** ** C2: the ticks of a run *)

(** C2, at the same input followed by [3 EXIT]: the quit timestamp is 3,
    the one of the first EXIT entry, but the parent enters the ticks 0, 1
    and 2 only: it hangs in tick 2 and tick 3 is never executed. *)
Theorem C2_run_blocks_before_quit_tick :
  findQuit config_twice_terminated = 3 /\
  exists s,
    parentProcess env_example config_twice_terminated text_example 1 = Hung s /\
    ticksOf (trace s) = [0; 1; 2].
Proof.
  split; [reflexivity|]. eexists.
  split; [vm_compute; reflexivity | reflexivity].
Qed.

(** ** The ticks of a run in general *)

Section Ticks.

Variable env : Env.
Variable M : Z.
Variable text : string.
Variable numOfLinesInText : Z.
Variable commands : list ConfigEntry.

Lemma stateOf_andThen (o : Outcome) (k : State -> Outcome) :
  stateOf (andThen o k) =
    match o with
    | Continue s => stateOf (k s)
    | _ => stateOf o
    end.
Proof. destruct o; reflexivity. Qed.

(** Only the entry of a tick adds a [Tick] to the trace. *)
Lemma post_and_wait_ticks (idx : Z) (s : State) :
  ticksOf (trace (stateOf (post_and_wait idx s))) = ticksOf (trace s).
Proof.
  unfold post_and_wait, child. cbn [procs emit set_semaphores].
  destruct (nth (Z.to_nat idx) (procs s) None) as [c|]; simpl;
    repeat match goal with
           | |- context [if ?b then _ else _] => destruct b
           end;
    simpl; trace_simpl; reflexivity.
Qed.

Lemma spawn_ticks (currTime : Z) (label : string) (s : State) :
  ticksOf (trace (stateOf (spawn env M currTime label s))) = ticksOf (trace s).
Proof.
  unfold spawn, fork.
  destruct (freeSlotFinder (children (parent s)) M =? -1); [reflexivity|].
  destruct (fork_result env (forkCalls s)); simpl; trace_simpl; reflexivity.
Qed.

Lemma terminate_ticks (currTime : Z) (label : string) (s : State) :
  ticksOf (trace (stateOf (terminate M currTime label s))) = ticksOf (trace s).
Proof.
  unfold terminate.
  destruct (childLabelFinder (childLabels (parent s)) label M =? -1).
  { simpl. trace_simpl. reflexivity. }
  cbv zeta. rewrite stateOf_andThen.
  match goal with
  | |- context [post_and_wait ?idx ?s4] =>
      pose proof (post_and_wait_ticks idx s4) as H;
      destruct (post_and_wait idx s4) as [s5 | s5 | s5 | s5]
  end; simpl in *; revert H; trace_simpl; auto.
Qed.

Lemma applyCommand_ticks (currTime : Z) (e : ConfigEntry) (s : State) :
  ticksOf (trace (stateOf (applyCommand env M currTime e s))) = ticksOf (trace s).
Proof.
  unfold applyCommand.
  destruct (Ascii.eqb (command e) "S" && (activeChildren (parent s) <? M));
    [apply spawn_ticks|].
  destruct (Ascii.eqb (command e) "T"); [apply terminate_ticks | reflexivity].
Qed.

Lemma commandLoop_ticks (currTime : Z) (l : list ConfigEntry) (s : State) :
  ticksOf (trace (stateOf (commandLoop env M currTime l s))) = ticksOf (trace s).
Proof.
  revert s. induction l as [|e rest IH]; intros s; simpl; [reflexivity|].
  destruct (timestamp e =? currTime); [|apply IH].
  rewrite stateOf_andThen.
  pose proof (applyCommand_ticks currTime e s) as H.
  destruct (applyCommand env M currTime e s) as [s1 | s1 | s1 | s1]; simpl in *;
    [rewrite IH|..]; exact H.
Qed.

Lemma deliver_ticks (currTime : Z) (s : State) :
  ticksOf (trace (stateOf (deliver env M text numOfLinesInText currTime s)))
    = ticksOf (trace s).
Proof.
  unfold deliver.
  destruct (activeChildren (parent s) >? 0); [|reflexivity].
  pose proof (randomActiveChildrenSelection_spec env M (children (parent s)) s)
    as Hsel.
  destruct (randomActiveChildrenSelection env (children (parent s)) M s)
    as [randChildIndx s1].
  destruct Hsel as [Hs1 _].
  assert (H1 : ticksOf (trace s1) = ticksOf (trace s))
    by (destruct Hs1 as [-> | ->]; reflexivity).
  destruct (negb (randChildIndx =? -1) && (numOfLinesInText >? 0)); [|exact H1].
  unfold randomLineSelection, rand.
  destruct (numOfLinesInText =? 0); [exact H1|].
  rewrite post_and_wait_ticks. simpl. trace_simpl. exact H1.
Qed.

Lemma tick_ticks (currTime : Z) (s : State) :
  ticksOf (trace (stateOf (tick env M text numOfLinesInText commands currTime s)))
    = ticksOf (trace s) ++ [currTime].
Proof.
  unfold tick. rewrite stateOf_andThen.
  pose proof (commandLoop_ticks currTime commands (emit (Tick currTime) s)) as H.
  destruct (commandLoop env M currTime commands (emit (Tick currTime) s))
    as [s1 | s1 | s1 | s1]; simpl in *;
    [rewrite deliver_ticks|..]; rewrite H; trace_simpl; reflexivity.
Qed.

Lemma drainSlot_ticks (quitTimestamp : Z) (i : nat) (s : State) :
  ticksOf (trace (stateOf (drainSlot quitTimestamp i s))) = ticksOf (trace s).
Proof.
  unfold drainSlot.
  destruct (nth i (children (parent s)) 0 >? 0); [|reflexivity].
  cbv zeta. rewrite stateOf_andThen.
  match goal with
  | |- context [post_and_wait ?idx ?s4] =>
      pose proof (post_and_wait_ticks idx s4) as H;
      destruct (post_and_wait idx s4) as [s5 | s5 | s5 | s5]
  end; simpl in *; revert H; trace_simpl; auto.
Qed.

Lemma drainLoop_ticks (quitTimestamp : Z) (n i : nat) (s : State) :
  ticksOf (trace (stateOf (drainLoop quitTimestamp i n s))) = ticksOf (trace s).
Proof.
  revert i s. induction n as [|n IH]; intros i s; simpl; [reflexivity|].
  rewrite stateOf_andThen.
  pose proof (drainSlot_ticks quitTimestamp i s) as H.
  destruct (drainSlot quitTimestamp i s) as [s1 | s1 | s1 | s1]; simpl in *;
    [rewrite IH|..]; exact H.
Qed.

Lemma ticksFrom_step (currTime : Z) (n : nat) :
  ticksFrom currTime (S n) = currTime :: ticksFrom (currTime + 1) n.
Proof.
  unfold ticksFrom. simpl. f_equal; [lia|].
  rewrite <- seq_shift, map_map. apply map_ext. intros i. lia.
Qed.

(** The tick loop enters [currTime], [currTime + 1], ... in this order and
    stops after [quitTimestamp]; it stops earlier only when a tick does not
    return.  Any fuel that covers the ticks left gives the same run. *)
Lemma tickLoop_ticks (quitTimestamp : Z) (fuel : nat) (currTime : Z) (s : State) :
  (Z.to_nat (quitTimestamp + 1 - currTime) <= fuel)%nat ->
  let o := tickLoop env M text numOfLinesInText commands quitTimestamp
                    fuel currTime s in
  exists n,
    (n <= Z.to_nat (quitTimestamp + 1 - currTime))%nat /\
    ticksOf (trace (stateOf o)) = ticksOf (trace s) ++ ticksFrom currTime n /\
    (forall s', o = Continue s' -> n = Z.to_nat (quitTimestamp + 1 - currTime)).
Proof.
  revert currTime s. induction fuel as [|fuel IH]; intros currTime s Hfuel; simpl.
  - destruct (currTime <=? quitTimestamp) eqn:E;
      [apply Z.leb_le in E; lia|].
    apply Z.leb_gt in E. exists 0%nat. simpl. rewrite app_nil_r.
    repeat split; auto; lia.
  - destruct (currTime <=? quitTimestamp) eqn:E.
    + apply Z.leb_le in E. rewrite stateOf_andThen.
      pose proof (tick_ticks currTime s) as Htick.
      destruct (tick env M text numOfLinesInText commands currTime s)
        as [s1 | s1 | s1 | s1] eqn:Hrun; simpl in Htick.
      * destruct (currTime =? INT_MAX).
        { exists 1%nat. split; [lia|]. split.
          - simpl. rewrite Htick. unfold ticksFrom. simpl.
            f_equal. f_equal. lia.
          - simpl. discriminate. }
        destruct (IH (currTime + 1) s1) as (n & Hn & Hticks & Hall); [lia|].
        exists (S n). split; [lia|]. split.
        -- rewrite Hticks, Htick, ticksFrom_step, <- app_assoc. reflexivity.
        -- simpl. intros s' Hs'. rewrite (Hall s' Hs'). lia.
      * exists 1%nat. split; [lia|]. split.
        -- simpl. rewrite Htick. unfold ticksFrom. simpl.
           f_equal. f_equal. lia.
        -- simpl. discriminate.
      * exists 1%nat. split; [lia|]. split.
        -- simpl. rewrite Htick. unfold ticksFrom. simpl.
           f_equal. f_equal. lia.
        -- simpl. discriminate.
      * exists 1%nat. split; [lia|]. split.
        -- simpl. rewrite Htick. unfold ticksFrom. simpl.
           f_equal. f_equal. lia.
        -- simpl. discriminate.
    + apply Z.leb_gt in E. exists 0%nat. simpl. rewrite app_nil_r.
      repeat split; auto; lia.
Qed.

End Ticks.

(** ** The increment of the tick *)

Lemma andThen_not_overflowed (o : Outcome) (k : State -> Outcome) :
  (forall s', o <> Overflowed s') ->
  (forall s s', k s <> Overflowed s') ->
  forall s', andThen o k <> Overflowed s'.
Proof. intros Ho Hk s'. destruct o as [s | s | s | s]; simpl; auto; discriminate. Qed.

Section Overflow.

Variable env : Env.
Variable M : Z.
Variable text : string.
Variable numOfLinesInText : Z.

Lemma applyCommand_not_overflowed (currTime : Z) (e : ConfigEntry) (s s' : State) :
  applyCommand env M currTime e s <> Overflowed s'.
Proof.
  unfold applyCommand.
  destruct (Ascii.eqb (command e) "S" && (activeChildren (parent s) <? M)).
  - unfold spawn, fork.
    destruct (freeSlotFinder (children (parent s)) M =? -1); [discriminate|].
    destruct (fork_result env (forkCalls s)); discriminate.
  - destruct (Ascii.eqb (command e) "T"); [|discriminate].
    unfold terminate.
    destruct (childLabelFinder (childLabels (parent s)) (processLabel e) M =? -1);
      [discriminate|].
    cbv zeta. apply andThen_not_overflowed.
    + intros s1. apply post_and_wait_not_overflowed.
    + discriminate.
Qed.

Lemma commandLoop_not_overflowed (currTime : Z) (commands : list ConfigEntry) :
  forall s s', commandLoop env M currTime commands s <> Overflowed s'.
Proof.
  induction commands as [|e rest IH]; intros s s'; simpl; [discriminate|].
  destruct (timestamp e =? currTime); [|apply IH].
  apply andThen_not_overflowed; [|exact IH].
  intros s1. apply applyCommand_not_overflowed.
Qed.

Lemma deliver_not_overflowed (currTime : Z) (s s' : State) :
  deliver env M text numOfLinesInText currTime s <> Overflowed s'.
Proof.
  unfold deliver.
  destruct (activeChildren (parent s) >? 0); [|discriminate].
  destruct (randomActiveChildrenSelection env (children (parent s)) M s)
    as [randChildIndx s1].
  destruct (negb (randChildIndx =? -1) && (numOfLinesInText >? 0)); [|discriminate].
  destruct (randomLineSelection env text EmptyString numOfLinesInText s1)
    as [[line s2]|]; [|discriminate].
  cbv zeta. apply post_and_wait_not_overflowed.
Qed.

Lemma tick_not_overflowed (commands : list ConfigEntry) (currTime : Z)
    (s s' : State) :
  tick env M text numOfLinesInText commands currTime s <> Overflowed s'.
Proof.
  unfold tick. apply andThen_not_overflowed.
  - intros s1. apply commandLoop_not_overflowed.
  - intros s1 s2. apply deliver_not_overflowed.
Qed.

Lemma drainLoop_not_overflowed (quitTimestamp : Z) (n : nat) :
  forall i s s', drainLoop quitTimestamp i n s <> Overflowed s'.
Proof.
  induction n as [|n IH]; intros i s s'; simpl; [discriminate|].
  apply andThen_not_overflowed; [|intros s1 s2; apply IH].
  intros s1. unfold drainSlot.
  destruct (nth i (children (parent s)) 0 >? 0); [|discriminate].
  cbv zeta. apply andThen_not_overflowed.
  - intros s2. apply post_and_wait_not_overflowed.
  - discriminate.
Qed.

(** The increment overflows only when the loop is to go on after tick
    [INT_MAX]. *)
Lemma tickLoop_overflowed (commands : list ConfigEntry) (quitTimestamp : Z)
    (fuel : nat) :
  forall currTime s s',
    currTime <= INT_MAX ->
    tickLoop env M text numOfLinesInText commands quitTimestamp fuel currTime s
      = Overflowed s' ->
    INT_MAX <= quitTimestamp.
Proof.
  induction fuel as [|fuel IH]; intros currTime s s' Hle; simpl.
  - destruct (currTime <=? quitTimestamp); discriminate.
  - destruct (currTime <=? quitTimestamp) eqn:E; [|discriminate].
    apply Z.leb_le in E.
    pose proof (tick_not_overflowed commands currTime s) as Htick.
    destruct (tick env M text numOfLinesInText commands currTime s)
      as [s1 | s1 | s1 | s1]; simpl; try discriminate.
    + destruct (currTime =? INT_MAX) eqn:E'.
      * apply Z.eqb_eq in E'. intros _. lia.
      * apply Z.eqb_neq in E'. apply IH. lia.
    + intros _. exfalso. exact (Htick s1 eq_refl).
Qed.

End Overflow.

(** A run whose quit timestamp is below [INT_MAX] never overflows
    [currTime]. *)
Lemma run_not_undefined (env : Env) (commands : list ConfigEntry) (text : string)
    (M : Z) (s : State) :
  findQuit commands < INT_MAX ->
  parentProcess env commands text M <> Undefined s.
Proof.
  intros HQ. unfold parentProcess.
  destruct (findQuit commands =? -1); [discriminate|].
  destruct (andThen _ _) as [s1 | s1 | s1 | s1] eqn:Hrun; try discriminate.
  exfalso.
  destruct (tickLoop env M text (lineCount text) commands (findQuit commands)
                     (Z.to_nat (findQuit commands + 1)) 0 (initialState M))
    as [s2 | s2 | s2 | s2] eqn:Hloop; simpl in Hrun; try discriminate.
  - exact (drainLoop_not_overflowed _ _ _ _ _ Hrun).
  - apply tickLoop_overflowed in Hloop; [lia | unfold INT_MAX; lia].
Qed.

(** In every run that passes the search for EXIT, with a quit timestamp
    below [INT_MAX], the ticks entered are 0, 1, 2, ... without a gap and
    never beyond the quit timestamp; they are all of 0 .. quitTimestamp
    when the run completes; and the increment of [currTime] never
    overflows. *)
Theorem ticks_of_run (env : Env) (commands : list ConfigEntry) (text : string)
    (M : Z) :
  findQuit commands <> -1 ->
  findQuit commands < INT_MAX ->
  let run := parentProcess env commands text M in
  (exists n,
     (n <= Z.to_nat (findQuit commands + 1))%nat /\
     ticksOf (finalTrace run) = ticksFrom 0 n /\
     (forall s, run = Completed s -> n = Z.to_nat (findQuit commands + 1))) /\
  (forall s, run <> Undefined s).
Proof.
  intros Hquit Hmax. cbv zeta.
  split; [|intros s; apply run_not_undefined; exact Hmax].
  unfold parentProcess.
  destruct (findQuit commands =? -1) eqn:E; [apply Z.eqb_eq in E; contradiction|].
  destruct (tickLoop_ticks env M text (lineCount text) commands
              (findQuit commands) (Z.to_nat (findQuit commands + 1)) 0
              (initialState M)) as (n & Hn & Hticks & Hall); [lia|].
  simpl in Hticks. rewrite Z.sub_0_r in Hn, Hall.
  exists n. split; [exact Hn|].
  pose proof (stateOf_andThen
                (tickLoop env M text (lineCount text) commands (findQuit commands)
                          (Z.to_nat (findQuit commands + 1)) 0 (initialState M))
                (drainLoop (findQuit commands) 0 (Z.to_nat M))) as Hstate.
  destruct (tickLoop env M text (lineCount text) commands (findQuit commands)
                     (Z.to_nat (findQuit commands + 1)) 0 (initialState M))
    as [s1 | s1 | s1 | s1] eqn:Hloop; simpl in Hstate, Hticks.
  - pose proof (drainLoop_ticks (findQuit commands) (Z.to_nat M) 0 s1) as Hdrain.
    simpl andThen.
    destruct (drainLoop (findQuit commands) 0 (Z.to_nat M) s1) as [s2 | s2 | s2 | s2];
      simpl in *; (split; [|intros s Hs; try discriminate; apply (Hall s1); reflexivity]).
    + trace_simpl. rewrite Hdrain. exact Hticks.
    + rewrite Hdrain. exact Hticks.
    + rewrite Hdrain. exact Hticks.
    + rewrite Hdrain. exact Hticks.
  - simpl. split; [exact Hticks | discriminate].
  - simpl. split; [exact Hticks | discriminate].
  - simpl. split; [exact Hticks | discriminate].
Qed.

Lemma ticks_of_run_witness :
  let run := parentProcess env_example config_two_children text_example 2 in
  (exists n,
     (n <= Z.to_nat (findQuit config_two_children + 1))%nat /\
     ticksOf (finalTrace run) = ticksFrom 0 n /\
     (forall s, run = Completed s -> n = Z.to_nat (findQuit config_two_children + 1))) /\
  (forall s, run <> Undefined s).
Proof.
  apply (ticks_of_run env_example config_two_children text_example 2).
  - vm_compute. discriminate.
  - vm_compute. reflexivity.
Defined.

(** The fuel handed to the tick loop is immaterial once it covers the
    ticks left. *)
Lemma tickLoop_fuel (env : Env) (M : Z) (text : string) (numOfLinesInText : Z)
    (commands : list ConfigEntry) (quitTimestamp : Z) (fuel fuel' : nat)
    (currTime : Z) (s : State) :
  (Z.to_nat (quitTimestamp + 1 - currTime) <= fuel)%nat ->
  (Z.to_nat (quitTimestamp + 1 - currTime) <= fuel')%nat ->
  tickLoop env M text numOfLinesInText commands quitTimestamp fuel currTime s
    = tickLoop env M text numOfLinesInText commands quitTimestamp fuel' currTime s.
Proof.
  revert fuel' currTime s.
  induction fuel as [|fuel IH]; intros [|fuel'] currTime s H1 H2; simpl;
    destruct (currTime <=? quitTimestamp) eqn:E; try reflexivity;
    apply Z.leb_le in E; try lia.
  destruct (tick env M text numOfLinesInText commands currTime s);
    simpl; try reflexivity.
  destruct (currTime =? INT_MAX); [reflexivity|].
  apply IH; lia.
Qed.

(** ** Further properties of the program *)

(** The slot chosen for a new child is the lowest free one, and [-1] is
    returned only when every slot of the table holds a pid. *)
Theorem freeSlotFinder_lowest_free (children : list Z) (M : Z) :
  (freeSlotFinder children M = -1 /\
   forall j, (j < Z.to_nat M)%nat -> nth j children 0 <> 0) \/
  (0 <= freeSlotFinder children M < M /\
   nth (Z.to_nat (freeSlotFinder children M)) children 0 = 0 /\
   forall j, Z.of_nat j < freeSlotFinder children M -> nth j children 0 <> 0).
Proof.
  destruct (freeSlotFinder_spec children M) as [E | [Hrange Hfree]].
  - left. split; [exact E|]. intros j Hj.
    apply (freeSlotFinder_from_none children (Z.to_nat M) 0 j E). lia.
  - right. split; [exact Hrange|]. split; [exact Hfree|]. intros j Hj.
    apply (freeSlotFinder_from_lowest children (Z.to_nat M) 0 j); [lia | exact Hj].
Qed.

(** Between two steps of the parent nothing is in flight: every semaphore
    is back at 0, the monitor of the mailbox is idle, and the child waiting
    on a slot is the one whose pid and activation time the parent recorded
    for that slot. *)
Theorem quiescent_between_steps (env : Env) (M : Z) (text : string) (s : State) :
  Reachable env M text s ->
  semaphores s = replicate (Z.to_nat M) 0 /\
  parentNotificationSemaphore s = 0 /\
  monitor (trace s) = Idle /\
  forall i c, nth i (procs s) None = Some c -> linked (parent s) i c.
Proof.
  intros Hreach. pose proof (Reachable_Inv env M text s Hreach) as HI.
  open_inv HI. auto.
Qed.

Lemma quiescent_between_steps_witness :
  semaphores state_one_child = replicate (Z.to_nat 1) 0 /\
  parentNotificationSemaphore state_one_child = 0 /\
  monitor (trace state_one_child) = Idle /\
  forall i c, nth i (procs state_one_child) None = Some c ->
              linked (parent state_one_child) i c.
Proof.
  apply (quiescent_between_steps env_example 1 text_example state_one_child).
  apply (reach_command env_example 1 text_example 0 (entry 0 "C1" "S")
           (initialState 1) state_one_child); [apply reach_start | reflexivity].
Defined.

(** A TERMINATE whose label is stored in no slot only prints the warning:
    the state is unchanged but for that line of output. *)
Theorem terminate_unknown_label_warns (env : Env) (M currTime : Z)
    (e : ConfigEntry) (s : State) :
  command e = "T"%char ->
  childLabelFinder (childLabels (parent s)) (processLabel e) M = -1 ->
  applyCommand env M currTime e s
    = Continue (emit (PrintWarning currTime (processLabel e)) s).
Proof. apply terminate_unknown_label. Qed.

Lemma terminate_unknown_label_warns_witness :
  applyCommand env_example 1 3 (entry 3 "C9" "T") state_one_child
    = Continue (emit (PrintWarning 3 "C9") state_one_child).
Proof.
  apply (terminate_unknown_label_warns env_example 1 3 (entry 3 "C9" "T")
                                       state_one_child); reflexivity.
Defined.

(** An EXIT line whose timestamp is [-1] cannot be told from a missing
    one: [quitTimestamp] keeps the value it was initialised with and the
    run is refused with the same diagnostic. *)
Theorem quit_at_minus_one_is_refused (env : Env) (label : string)
    (rest : list ConfigEntry) (text : string) (M : Z) :
  parentProcess env (mkConfigEntry (-1) label "E" :: rest) text M
    = ExitFailure [Stderr exitNotFound].
Proof. reflexivity. Qed.

(** ** Reading the text file *)

Lemma fgets_read_split (room : nat) (rest : string) :
  let '(l, r) := fgets_read room rest in
  (l ++ r)%string = rest /\
  (String.length l <= room)%nat /\
  newlineInside l = false.
Proof.
  revert rest. induction room as [|room IH]; intros [|c rest]; simpl;
    try (repeat split; auto; lia).
  destruct (Ascii.eqb c newline) eqn:E; simpl; [repeat split; auto; lia|].
  specialize (IH rest). destruct (fgets_read room rest) as [l r].
  destruct IH as (H1 & H2 & H3). simpl. rewrite H1.
  repeat split; auto; [lia|].
  destruct l; [reflexivity|]. rewrite E. simpl. exact H3.
Qed.

Lemma fgets_read_step (room : nat) (c : ascii) (rest : string) :
  fgets_read (S room) (String c rest) =
    if Ascii.eqb c newline then (String c EmptyString, rest)
    else let '(l, r) := fgets_read room rest in (String c l, r).
Proof. reflexivity. Qed.

Lemma fgets_record (rest line rest' : string) :
  fgets MAX_LINE_SIZE rest = Some (line, rest') ->
  (line ++ rest')%string = rest /\
  line <> EmptyString /\
  (String.length line < MAX_LINE_SIZE)%nat /\
  newlineInside line = false.
Proof.
  unfold fgets. destruct rest as [|c rest]; [discriminate|].
  change (MAX_LINE_SIZE - 1)%nat with (S 998).
  pose proof (fgets_read_split (S 998) (String c rest)) as H.
  destruct (fgets_read (S 998) (String c rest)) as [l r] eqn:E.
  intros Heq. inversion Heq; subst; clear Heq.
  destruct H as (H1 & H2 & H3). repeat split; auto.
  - intros ->. rewrite fgets_read_step in E.
    destruct (Ascii.eqb c newline); [discriminate|].
    destruct (fgets_read 998 rest). discriminate.
  - unfold MAX_LINE_SIZE. lia.
Qed.

Lemma fileLines_loop_records (fuel : nat) (rest : string) :
  (String.length rest <= fuel)%nat ->
  joinLines (fileLines_loop fuel rest) = rest /\
  Forall (fun l => l <> EmptyString /\
                   (String.length l < MAX_LINE_SIZE)%nat /\
                   newlineInside l = false)
         (fileLines_loop fuel rest).
Proof.
  revert rest. induction fuel as [|fuel IH]; intros rest Hlen.
  - destruct rest; simpl in *; [split; [reflexivity | constructor] | lia].
  - cbn [fileLines_loop].
    destruct (fgets MAX_LINE_SIZE rest) as [[line rest']|] eqn:E.
    + pose proof (fgets_consumes _ _ _ E) as Hlt.
      destruct (fgets_record _ _ _ E) as (Hjoin & Hne & Hsize & Hnl).
      destruct (IH rest') as [IH1 IH2]; [lia|].
      split.
      * simpl. rewrite IH1. exact Hjoin.
      * constructor; [repeat split; assumption | exact IH2].
    + unfold fgets in E. destruct rest; [|discriminate].
      split; [reflexivity | constructor].
Qed.

(** Reading the file record by record loses nothing and never overruns
    the buffer: the records put end to end are the content of the file,
    and every record is non-empty, shorter than [MAX_LINE_SIZE] (so that it
    fits, with its terminating zero, the buffer [line] and the field
    [sharedSpace]) and holds no newline except as its last character. *)
Theorem fileLines_roundtrip (content : string) :
  joinLines (fileLines content) = content /\
  Forall (fun l => l <> EmptyString /\
                   (String.length l < MAX_LINE_SIZE)%nat /\
                   newlineInside l = false)
         (fileLines content).
Proof. apply fileLines_loop_records. unfold fileLines. lia. Qed.

(** [lineCount] is 0 exactly for the empty file, and never more than the
    number of characters of the file. *)
Theorem lineCount_zero_iff_empty (content : string) :
  (lineCount content = 0 <-> content = EmptyString) /\
  0 <= lineCount content <= Z.of_nat (String.length content).
Proof.
  rewrite lineCount_fileLines.
  destruct (fileLines_loop_records (String.length content) content)
    as [Hjoin Hall]; [lia|].
  fold (fileLines content) in Hjoin, Hall.
  assert (Hlen : forall fuel rest,
             (length (fileLines_loop fuel rest) <= fuel)%nat).
  { induction fuel as [|fuel IH]; intros rest; simpl; [lia|].
    destruct (fgets MAX_LINE_SIZE rest) as [[l r]|]; simpl; [|lia].
    specialize (IH r). lia. }
  split.
  - split.
    + intros H. destruct (fileLines content) as [|l ls]; [|simpl in H; lia].
      simpl in Hjoin. congruence.
    + intros ->. reflexivity.
  - specialize (Hlen (String.length content) content). unfold fileLines. lia.
Qed.

Lemma fgets_read_stop (room : nat) (rest : string) :
  let '(l, r) := fgets_read room rest in
  r = EmptyString \/ lastChar l = Some newline \/ String.length l = room.
Proof.
  revert rest. induction room as [|room IH]; intros [|c rest]; simpl; auto.
  destruct (Ascii.eqb c newline) eqn:E.
  - apply Ascii.eqb_eq in E. subst c. right. left. reflexivity.
  - specialize (IH rest). destruct (fgets_read room rest) as [l r].
    destruct IH as [H | [H | H]]; [left; exact H | right; left | right; right].
    + simpl. destruct l; [discriminate | exact H].
    + simpl. rewrite H. reflexivity.
Qed.

Lemma fileLines_loop_complete (fuel : nat) (rest : string) (k : nat) :
  (S k < length (fileLines_loop fuel rest))%nat ->
  lastChar (nth k (fileLines_loop fuel rest) EmptyString) = Some newline \/
  String.length (nth k (fileLines_loop fuel rest) EmptyString) = (MAX_LINE_SIZE - 1)%nat.
Proof.
  revert rest k. induction fuel as [|fuel IH]; intros rest k Hk; [simpl in Hk; lia|].
  cbn [fileLines_loop] in *.
  destruct (fgets MAX_LINE_SIZE rest) as [[line rest']|] eqn:E; [|simpl in Hk; lia].
  destruct k as [|k].
  - simpl. simpl in Hk. unfold fgets in E. destruct rest as [|c rest]; [discriminate|].
    pose proof (fgets_read_stop (MAX_LINE_SIZE - 1) (String c rest)) as Hstop.
    destruct (fgets_read (MAX_LINE_SIZE - 1) (String c rest)) as [l r].
    inversion E; subst; clear E.
    destruct Hstop as [-> | [H | H]]; auto.
    exfalso. destruct fuel; simpl in Hk; lia.
  - simpl in *. apply IH. lia.
Qed.

(** A buffer is its C string, or its C string, a zero byte and more. *)
Lemma cstring_split (buffer : string) :
  buffer = cstring buffer \/
  exists rest, buffer = (cstring buffer ++ String NUL rest)%string.
Proof.
  induction buffer as [|c buffer IH]; simpl; [left; reflexivity|].
  destruct (Ascii.eqb c NUL) eqn:E.
  - apply Ascii.eqb_eq in E. subst c. right. exists buffer. reflexivity.
  - destruct IH as [IH | [rest IH]].
    + left. f_equal. exact IH.
    + right. exists rest. simpl. f_equal. exact IH.
Qed.

Lemma cstring_id (buffer : string) : hasNul buffer = false -> cstring buffer = buffer.
Proof.
  induction buffer as [|c buffer IH]; simpl; [reflexivity|].
  destruct (Ascii.eqb c NUL); simpl; [discriminate|].
  intros H. f_equal. apply IH. exact H.
Qed.

Lemma hasNul_app (s1 s2 : string) :
  hasNul (s1 ++ s2) = hasNul s1 || hasNul s2.
Proof.
  induction s1 as [|c s1 IH]; simpl; [reflexivity|].
  rewrite IH. apply orb_assoc.
Qed.

Lemma hasNul_joinLines (records : list string) :
  hasNul (joinLines records) = false ->
  Forall (fun l => hasNul l = false) records.
Proof.
  induction records as [|l records IH]; simpl; [constructor|].
  rewrite hasNul_app. intros H. apply orb_false_iff in H as [H1 H2].
  constructor; [exact H1 | apply IH; exact H2].
Qed.

(** The records of a text without zero byte have none, and are their own
    C strings. *)
Lemma fileLines_hasNul (content : string) :
  hasNul content = false ->
  Forall (fun l => hasNul l = false) (fileLines content).
Proof.
  intros H. apply hasNul_joinLines.
  destruct (fileLines_loop_records (String.length content) content) as [Hjoin _];
    [lia|].
  fold (fileLines content) in Hjoin. rewrite Hjoin. exact H.
Qed.

Lemma payloads_without_nul (content : string) :
  hasNul content = false -> payloads content = fileLines content.
Proof.
  intros H. unfold payloads.
  pose proof (fileLines_hasNul content H) as Hall.
  induction Hall as [|l ls Hl _ IH]; simpl; [reflexivity|].
  rewrite (cstring_id l Hl), IH. reflexivity.
Qed.

Lemma record_not_last (content : string) (k : nat) :
  (S k < length (fileLines content))%nat ->
  let record := nth k (fileLines content) EmptyString in
  (lastChar record = Some newline \/
   String.length record = (MAX_LINE_SIZE - 1)%nat) /\
  String.eqb record TERMINATE = false /\
  (cstring record = TERMINATE ->
   exists rest, record = (TERMINATE ++ String NUL rest)%string) /\
  (hasNul content = false -> String.eqb (cstring record) TERMINATE = false).
Proof.
  intros Hk record.
  pose proof (fileLines_loop_complete _ content k Hk) as H.
  fold (fileLines content) in H. fold record in H.
  assert (Hraw : record <> TERMINATE).
  { intros E. rewrite E in H. destruct H as [H | H]; vm_compute in H; discriminate. }
  split; [exact H|]. split; [apply String.eqb_neq; exact Hraw|]. split.
  - intros E. destruct (cstring_split record) as [Hsame | [rest Hrest]].
    + exfalso. apply Hraw. rewrite Hsame. exact E.
    + exists rest. rewrite <- E. exact Hrest.
  - intros Hnul. apply String.eqb_neq.
    pose proof (fileLines_hasNul content Hnul) as Hall.
    rewrite Forall_forall in Hall.
    rewrite cstring_id; [exact Hraw|].
    apply Hall, list_elem_of_In, nth_In. lia.
Qed.

(** Every record but the last one ends with a newline or fills the
    buffer, so it is not the string TERMINATE.  A child reads the C
    string of the record: it takes such a record for the termination
    message only when the record is TERMINATE followed by a zero byte.
    In a text without zero byte, only the very last record of the file
    can be taken for the termination message. *)
Theorem sentinel_only_as_last_record (content : string) (k : nat) :
  (S k < length (fileLines content))%nat ->
  let record := nth k (fileLines content) EmptyString in
  (lastChar record = Some newline \/
   String.length record = (MAX_LINE_SIZE - 1)%nat) /\
  String.eqb record TERMINATE = false /\
  (cstring record = TERMINATE ->
   exists rest, record = (TERMINATE ++ String NUL rest)%string) /\
  (hasNul content = false -> String.eqb (cstring record) TERMINATE = false).
Proof. apply record_not_last. Qed.

Lemma sentinel_only_as_last_record_witness :
  let record := nth 0%nat (fileLines text_example) EmptyString in
  (lastChar record = Some newline \/
   String.length record = (MAX_LINE_SIZE - 1)%nat) /\
  String.eqb record TERMINATE = false /\
  (cstring record = TERMINATE ->
   exists rest, record = (TERMINATE ++ String NUL rest)%string) /\
  (hasNul text_example = false -> String.eqb (cstring record) TERMINATE = false).
Proof.
  apply (sentinel_only_as_last_record text_example 0). vm_compute. lia.
Defined.

Lemma splitLines_nil (s : string) : splitLines s = [] -> s = EmptyString.
Proof.
  destruct s as [|c s]; [reflexivity|]. simpl.
  destruct (Ascii.eqb c newline); [discriminate|].
  destruct (splitLines s); discriminate.
Qed.

Lemma fgets_read_line (rest : string) :
  forall room line lines,
    splitLines rest = line :: lines ->
    (String.length line <= room)%nat ->
    exists r, fgets_read room rest = (line, r) /\ splitLines r = lines.
Proof.
  induction rest as [|c rest IH]; intros room line lines Hsplit Hroom;
    [discriminate|].
  simpl in Hsplit.
  destruct (Ascii.eqb c newline) eqn:E.
  - inversion Hsplit; subst; clear Hsplit. simpl in Hroom.
    destruct room as [|room]; [lia|]. rewrite fgets_read_step, E.
    exists rest. split; reflexivity.
  - destruct (splitLines rest) as [|line' lines'] eqn:Hrest.
    + inversion Hsplit; subst; clear Hsplit. simpl in Hroom.
      destruct room as [|room]; [lia|]. rewrite fgets_read_step, E.
      apply splitLines_nil in Hrest. subst rest.
      exists EmptyString. destruct room; split; reflexivity.
    + inversion Hsplit; subst; clear Hsplit. simpl in Hroom.
      destruct room as [|room]; [lia|]. rewrite fgets_read_step, E.
      destruct (IH room line' lines eq_refl) as (r & Hr & Hlines); [lia|].
      rewrite Hr. exists r. split; [reflexivity | exact Hlines].
Qed.

Lemma fileLines_loop_splitLines (fuel : nat) (rest : string) :
  (String.length rest <= fuel)%nat ->
  Forall (fun l => (String.length l < MAX_LINE_SIZE)%nat) (splitLines rest) ->
  fileLines_loop fuel rest = splitLines rest.
Proof.
  revert rest. induction fuel as [|fuel IH]; intros rest Hlen Hfit.
  - destruct rest; simpl in *; [reflexivity | lia].
  - cbn [fileLines_loop].
    destruct (splitLines rest) as [|line lines] eqn:Hsplit.
    + apply splitLines_nil in Hsplit. subst rest. reflexivity.
    + inversion Hfit as [|? ? Hline Hlines]; subst.
      destruct (fgets_read_line rest (MAX_LINE_SIZE - 1) line lines Hsplit)
        as (r & Hr & Hrest); [unfold MAX_LINE_SIZE in *; lia|].
      assert (E : fgets MAX_LINE_SIZE rest = Some (line, r)).
      { unfold fgets. destruct rest; [discriminate|]. rewrite Hr. reflexivity. }
      rewrite E. f_equal.
      pose proof (fgets_consumes _ _ _ E) as Hlt.
      rewrite <- Hrest. apply IH; [lia|]. rewrite Hrest. exact Hlines.
Qed.

(** When no line of the text (its newline included) reaches
    [MAX_LINE_SIZE] characters, the records read by [fgets] are exactly the
    lines of the text, so [lineCount] is the number of lines and
    [randomLineSelection] returns whole lines. *)
Theorem fileLines_are_the_lines (content : string) :
  Forall (fun l => (String.length l < MAX_LINE_SIZE)%nat) (splitLines content) ->
  fileLines content = splitLines content /\
  lineCount content = Z.of_nat (length (splitLines content)).
Proof.
  intros Hfit.
  assert (H : fileLines content = splitLines content)
    by (apply fileLines_loop_splitLines; [lia | exact Hfit]).
  split; [exact H|]. rewrite lineCount_fileLines, H. reflexivity.
Qed.

Lemma fileLines_are_the_lines_witness :
  fileLines text_example = splitLines text_example /\
  lineCount text_example = Z.of_nat (length (splitLines text_example)).
Proof.
  apply (fileLines_are_the_lines text_example).
  vm_compute. repeat constructor.
Defined.

(** ** C7: what is delivered *)

(** C7, as the program has it.  In every run, each line the parent sends
    in the delivery of a tick, and each message a child logs as received
    from the shared segment, is the C string of one of the records that
    [fgets] reads from the text file with a buffer of [MAX_LINE_SIZE]
    bytes.  The record is chosen by [randomLineSelection]: with
    [lineCount text] records in the file (a positive number whenever a
    delivery happens), it draws the index [rand() % lineCount], which lies
    in [0, lineCount), and returns the record of that index, read again
    from the start of the file.  When the text holds no zero byte and
    every line, its newline included, is shorter than [MAX_LINE_SIZE],
    these C strings are exactly the lines of the text. *)
Theorem C7_delivered_payloads_are_record_strings (env : Env)
    (commands : list ConfigEntry) (text : string) (M : Z) :
  let run := parentProcess env commands text M in
  Forall (fun l => In l (payloads text)) (sentLines (finalTrace run)) /\
  Forall (fun l => In l (payloads text)) (receivedLines (finalLogs run)) /\
  lineCount text = Z.of_nat (length (fileLines text)) /\
  (forall buffer s,
     lineCount text > 0 ->
     exists k,
       (k < length (fileLines text))%nat /\
       Z.of_nat k = Z.rem (Z.of_N (rand_value env (randCalls s))) (lineCount text) /\
       randomLineSelection env text buffer (lineCount text) s
         = Some (nth k (fileLines text) EmptyString,
                 set_randCalls (S (randCalls s)) s)) /\
  (hasNul text = false ->
   Forall (fun l => (String.length l < MAX_LINE_SIZE)%nat) (splitLines text) ->
   payloads text = splitLines text).
Proof.
  destruct (run_lines env commands text M) as (Hsent & Hreceived & _).
  split; [exact Hsent|]. split; [exact Hreceived|].
  split; [apply lineCount_fileLines|]. split.
  - intros buffer s Hpos. apply randomLineSelection_spec. exact Hpos.
  - intros Hnul Hfit. rewrite (payloads_without_nul text Hnul).
    apply fileLines_loop_splitLines; [lia | exact Hfit].
Qed.

(** On a text of short lines without zero byte, what is delivered is a
    line of the text. *)
Lemma C7_witness :
  let run := parentProcess env_example config_two_children text_example 2 in
  Forall (fun l => In l (splitLines text_example)) (sentLines (finalTrace run)) /\
  Forall (fun l => In l (splitLines text_example)) (receivedLines (finalLogs run)).
Proof.
  destruct (C7_delivered_payloads_are_record_strings
              env_example config_two_children text_example 2)
    as (Hsent & Hreceived & _ & _ & Hlines).
  rewrite <- Hlines.
  - split; [exact Hsent | exact Hreceived].
  - vm_compute. reflexivity.
  - vm_compute. repeat constructor.
Defined.

(** A line of 1000 characters is not delivered as a line: [fgets] reads
    it in two records, and what the parent sends and the child logs is
    the first of them, 999 characters long, which is no line of the
    text. *)
Lemma C7_long_line_is_delivered_in_fragments :
  let run := parentProcess env_zero config_one_child text_long 1 in
  splitLines text_long = [text_long] /\
  String.length text_long = 1001%nat /\
  lineCount text_long = 2 /\
  exists l,
    In l (sentLines (finalTrace run)) /\
    In l (receivedLines (finalLogs run)) /\
    String.length l = 999%nat /\
    ~ In l (splitLines text_long).
Proof.
  cbv zeta.
  split; [vm_compute; reflexivity|]. split; [vm_compute; reflexivity|].
  split; [vm_compute; reflexivity|].
  exists (string_of_list_ascii (replicate 999 "a"%char)).
  split; [vm_compute; left; reflexivity|].
  split; [vm_compute; left; reflexivity|].
  split; [vm_compute; reflexivity|].
  intros Hin.
  assert (Hlen : forall l, In l (splitLines text_long) -> String.length l = 1001%nat).
  { intros l H. vm_compute in H. destruct H as [<- | []]. vm_compute. reflexivity. }
  apply Hlen in Hin. vm_compute in Hin. discriminate.
Qed.

(** ** The selection helpers, completely *)

Lemma childLabelFinder_from_lowest (l : list string) (label : string) (n i j : nat) :
  (i <= j)%nat ->
  Z.of_nat j < childLabelFinder_from i n l label ->
  nth j l noLabel <> label.
Proof.
  revert i. induction n as [|n IH]; intros i Hij Hlt; simpl in Hlt; [lia|].
  destruct (String.eqb (nth i l noLabel) label) eqn:E; [lia|].
  destruct (Nat.eq_dec i j) as [-> | Hne].
  - apply String.eqb_neq in E. exact E.
  - apply (IH (S i)); [lia | exact Hlt].
Qed.

Lemma childLabelFinder_from_none (l : list string) (label : string) (n i j : nat) :
  childLabelFinder_from i n l label = -1 ->
  (i <= j < i + n)%nat ->
  nth j l noLabel <> label.
Proof.
  revert i. induction n as [|n IH]; intros i Hr Hj; [lia|]. simpl in Hr.
  destruct (String.eqb (nth i l noLabel) label) eqn:E; [lia|].
  destruct (Nat.eq_dec i j) as [-> | Hne].
  - apply String.eqb_neq in E. exact E.
  - apply (IH (S i)); [exact Hr | lia].
Qed.

(** [childLabelFinder] returns the lowest of the first [M] slots whose
    stored label equals the one looked for, whether or not a child still
    occupies the slot, and [-1] exactly when none of them stores it. *)
Theorem childLabelFinder_first_match (childLabels : list string)
    (label : string) (M : Z) :
  (childLabelFinder childLabels label M = -1 /\
   forall j, (j < Z.to_nat M)%nat -> nth j childLabels noLabel <> label) \/
  (0 <= childLabelFinder childLabels label M < M /\
   nth (Z.to_nat (childLabelFinder childLabels label M)) childLabels noLabel = label /\
   forall j, Z.of_nat j < childLabelFinder childLabels label M ->
             nth j childLabels noLabel <> label).
Proof.
  destruct (childLabelFinder_spec childLabels label M) as [E | [Hrange Hfound]].
  - left. split; [exact E|]. intros j Hj.
    apply (childLabelFinder_from_none childLabels label (Z.to_nat M) 0 j E). lia.
  - right. split; [exact Hrange|]. split; [exact Hfound|]. intros j Hj.
    apply (childLabelFinder_from_lowest childLabels label (Z.to_nat M) 0 j);
      [lia | exact Hj].
Qed.

Lemma activeIndexes_from_filter (l : list Z) (n i : nat) :
  activeIndexes_from i n l
    = map Z.of_nat (List.filter (fun j => nth j l 0 >? 0) (seq i n)).
Proof.
  revert i. induction n as [|n IH]; intros i; simpl; [reflexivity|].
  destruct (nth i l 0 >? 0); simpl; rewrite IH; reflexivity.
Qed.

Lemma randomActiveChildrenSelection_cases (env : Env)
    (children : list Z) (M : Z) (s : State) :
  let active := List.filter (fun j => nth j children 0 >? 0) (seq 0 (Z.to_nat M)) in
  let count := Z.of_nat (length active) in
  (active = [] /\
   randomActiveChildrenSelection env children M s = (-1, s)) \/
  (active <> [] /\
   let r := Z.rem (Z.of_N (rand_value env (randCalls s))) count in
   0 <= r < count /\
   randomActiveChildrenSelection env children M s
     = (Z.of_nat (nth (Z.to_nat r) active O), set_randCalls (S (randCalls s)) s) /\
   (nth (Z.to_nat r) active O < Z.to_nat M)%nat /\
   nth (nth (Z.to_nat r) active O) children 0 > 0).
Proof.
  cbv zeta. unfold randomActiveChildrenSelection.
  rewrite activeIndexes_from_filter, length_map.
  set (active := List.filter (fun j => nth j children 0 >? 0) (seq 0 (Z.to_nat M))).
  destruct active as [|a rest] eqn:Hactive; [left; split; reflexivity|].
  right. split; [discriminate|].
  rewrite <- Hactive.
  assert (Hcount : 0 < Z.of_nat (length active))
    by (rewrite Hactive; simpl; lia).
  replace (Z.of_nat (length active) =? 0) with false
    by (symmetry; apply Z.eqb_neq; lia).
  unfold rand.
  set (r := Z.rem (Z.of_N (rand_value env (randCalls s)))
                  (Z.of_nat (length active))).
  assert (Hr : 0 <= r < Z.of_nat (length active))
    by (apply Z.rem_bound_pos; lia).
  assert (Hin : In (nth (Z.to_nat r) active O) active)
    by (apply nth_In; lia).
  unfold active in Hin at 2. apply filter_In in Hin as [Hseq Hpos].
  apply in_seq in Hseq. apply Z.gtb_lt in Hpos.
  split; [exact Hr|]. split.
  - f_equal. rewrite <- (map_nth Z.of_nat). reflexivity.
  - split; lia.
Qed.

(** [randomActiveChildrenSelection] collects, in increasing order, the
    slots among the first [M] that hold a positive pid.  When there is
    none it returns [-1] without calling [rand()]; otherwise it calls
    [rand()] once and returns the collected slot of index
    [rand() % count], which is a slot that holds a positive pid. *)
Theorem randomActiveChildrenSelection_picks_active (env : Env)
    (children : list Z) (M : Z) (s : State) :
  let active := List.filter (fun j => nth j children 0 >? 0) (seq 0 (Z.to_nat M)) in
  let count := Z.of_nat (length active) in
  (active = [] /\
   randomActiveChildrenSelection env children M s = (-1, s)) \/
  (active <> [] /\
   let r := Z.rem (Z.of_N (rand_value env (randCalls s))) count in
   0 <= r < count /\
   randomActiveChildrenSelection env children M s
     = (Z.of_nat (nth (Z.to_nat r) active O), set_randCalls (S (randCalls s)) s) /\
   (nth (Z.to_nat r) active O < Z.to_nat M)%nat /\
   nth (nth (Z.to_nat r) active O) children 0 > 0).
Proof. apply randomActiveChildrenSelection_cases. Qed.

(** ** The delivery of a tick *)

(** Pids stored in the table are never negative. *)
Lemma applyCommand_children (env : Env) (M currTime : Z) (e : ConfigEntry)
    (s s' : State) :
  applyCommand env M currTime e s = Continue s' ->
  children (parent s') = children (parent s) \/
  exists slot v, 0 <= v /\ children (parent s') = <[slot := v]> (children (parent s)).
Proof.
  unfold applyCommand.
  destruct (Ascii.eqb (command e) "S" && (activeChildren (parent s) <? M)).
  - unfold spawn, fork.
    destruct (freeSlotFinder (children (parent s)) M =? -1);
      [intros H; inversion H; subst; left; reflexivity|].
    destruct (fork_result env (forkCalls s)) as [pid|];
      intros H; inversion H; subst; clear H; [|left; reflexivity].
    right. eexists. exists (Z.pos pid). split; [lia | reflexivity].
  - destruct (Ascii.eqb (command e) "T");
      [|intros H; inversion H; subst; left; reflexivity].
    unfold terminate.
    destruct (childLabelFinder (childLabels (parent s)) (processLabel e) M =? -1);
      [intros H; inversion H; subst; left; reflexivity|].
    cbv zeta. intros H. apply andThen_continue in H as (s5 & Hpw & Hk).
    inversion Hk; subst; clear Hk.
    destruct (post_and_wait_continue _ _ _ Hpw) as (c & _ & Hparent & _).
    right. eexists. exists 0. split; [lia|]. simpl. rewrite Hparent. reflexivity.
Qed.

Lemma post_and_wait_frame (idx : Z) (s : State) :
  let s' := stateOf (post_and_wait idx s) in
  parent s' = parent s /\
  sharedMem s' = sharedMem s /\
  randCalls s' = randCalls s /\
  forkCalls s' = forkCalls s /\
  sentLines (trace s') = sentLines (trace s).
Proof.
  unfold post_and_wait, child. cbn [procs emit set_semaphores].
  destruct (nth (Z.to_nat idx) (procs s) None) as [c|]; simpl;
    repeat match goal with
           | |- context [if ?b then _ else _] => destruct b
           end;
    simpl; trace_simpl; auto.
Qed.

Lemma post_and_wait_message (idx : Z) (s : State) (c : ChildProc) :
  nth (Z.to_nat idx) (procs s) None = Some c ->
  String.eqb (sharedSpace (sharedMem s)) TERMINATE = false ->
  exists s',
    post_and_wait idx s = Continue s' /\
    logs s' = logs s ++ [LogMessage (endsInTimestamp (sharedMem s)) (childPid c)
                                    (sharedSpace (sharedMem s))] /\
    procs s' = <[Z.to_nat (M_requests c) :=
                   Some (mkChildProc (childPid c) (M_requests c)
                                     (activation_time c) (lineCntr c + 1))]> (procs s).
Proof.
  intros Hc Hterm. unfold post_and_wait. cbn [procs emit set_semaphores].
  rewrite Hc. unfold child. cbn [semaphores sharedMem emit set_semaphores].
  rewrite Hterm. eexists. split; [reflexivity|]. simpl. auto.
Qed.

Lemma post_and_wait_live (idx : Z) (s : State) (c : ChildProc) :
  nth (Z.to_nat idx) (procs s) None = Some c ->
  exists s', post_and_wait idx s = Continue s'.
Proof.
  intros Hc. unfold post_and_wait. cbn [procs emit set_semaphores].
  rewrite Hc. eexists. reflexivity.
Qed.

Lemma deliver_frame (env : Env) (M : Z) (text : string) (n currTime : Z)
    (s : State) :
  let s' := stateOf (deliver env M text n currTime s) in
  parent s' = parent s /\ forkCalls s' = forkCalls s.
Proof.
  unfold deliver.
  destruct (activeChildren (parent s) >? 0); [|auto].
  pose proof (randomActiveChildrenSelection_spec env M (children (parent s)) s)
    as Hsel.
  destruct (randomActiveChildrenSelection env (children (parent s)) M s)
    as [randChildIndx s1].
  destruct Hsel as [Hs1 _].
  assert (H1 : parent s1 = parent s /\ forkCalls s1 = forkCalls s)
    by (destruct Hs1 as [-> | ->]; auto).
  destruct (negb (randChildIndx =? -1) && (n >? 0)); [|exact H1].
  unfold randomLineSelection, rand.
  destruct (n =? 0); [exact H1|].
  match goal with
  | |- context [post_and_wait ?i ?s6] =>
      destruct (post_and_wait_frame i s6) as (Hp & _ & _ & Hf & _)
  end.
  cbv zeta in *. rewrite Hp, Hf. simpl. exact H1.
Qed.

Lemma drainSlot_children (quitTimestamp : Z) (i : nat) (s : State) :
  children (parent (stateOf (drainSlot quitTimestamp i s))) = children (parent s).
Proof.
  unfold drainSlot.
  destruct (nth i (children (parent s)) 0 >? 0); [|reflexivity].
  cbv zeta. rewrite stateOf_andThen.
  match goal with
  | |- context [post_and_wait ?idx ?s4] =>
      destruct (post_and_wait_frame idx s4) as (Hp & _);
      destruct (post_and_wait idx s4) as [s5 | s5 | s5 | s5]
  end; simpl in *; rewrite Hp; reflexivity.
Qed.

Lemma Reachable_children_nonneg (env : Env) (M : Z) (text : string) (s : State) :
  Reachable env M text s -> Forall (fun pid => 0 <= pid) (children (parent s)).
Proof.
  induction 1 as [| currTime s _ IH | currTime e s s' _ IH Hstep
                  | currTime s s' _ IH Hstep | quitTimestamp i s s' _ IH Hstep].
  - simpl. apply Forall_forall. intros x Hx.
    apply elem_of_replicate in Hx as [-> _]. lia.
  - exact IH.
  - destruct (applyCommand_children _ _ _ _ _ _ Hstep)
      as [-> | (slot & v & Hv & ->)]; [exact IH|].
    apply Forall_insert; assumption.
  - pose proof (deliver_frame env M text (lineCount text) currTime s) as [Hp _].
    cbv zeta in Hp. rewrite Hstep in Hp. simpl in Hp. rewrite Hp. exact IH.
  - pose proof (drainSlot_children quitTimestamp i s) as Hp.
    rewrite Hstep in Hp. simpl in Hp. rewrite Hp. exact IH.
Qed.

Lemma occupied_positive (l : list Z) :
  0 < occupied l -> exists j, (j < length l)%nat /\ nth j l 0 <> 0.
Proof.
  induction l as [|x l IH]; simpl; [lia|].
  destruct (x =? 0) eqn:E.
  - intros H. destruct IH as (j & Hj & Hne); [lia|].
    exists (S j). split; [lia | exact Hne].
  - intros _. exists 0%nat. apply Z.eqb_neq in E. split; [lia | exact E].
Qed.

Lemma deliver_one_line (env : Env) (M : Z) (text : string) (currTime : Z)
    (s : State) :
  Reachable env M text s ->
  activeChildren (parent s) > 0 ->
  lineCount text > 0 ->
  exists idx record,
    0 <= idx < M /\
    nth (Z.to_nat idx) (children (parent s)) 0 > 0 /\
    In record (fileLines text) /\
    let line := cstring record in
    let s' := stateOf (deliver env M text (lineCount text) currTime s) in
    sharedMem s' = mkSharedMemory idx currTime line /\
    sentLines (trace s') = sentLines (trace s) ++ [line] /\
    randCalls s' = S (S (randCalls s)) /\
    parent s' = parent s /\
    (forall c,
       nth (Z.to_nat idx) (procs s) None = Some c ->
       deliver env M text (lineCount text) currTime s = Continue s' /\
       if String.eqb line TERMINATE then
         nth (Z.to_nat idx) (procs s') None = None /\
         logs s' =
           logs s ++
           LogTerminate currTime (childPid c) ::
           (if currTime >=? 0
            then [LogSummary (childPid c) (lineCntr c) currTime (activation_time c)
                             (currTime - activation_time c)]
            else [])
       else
         logs s' = logs s ++ [LogMessage currTime (childPid c) line] /\
         nth (Z.to_nat idx) (procs s') None
           = Some (mkChildProc (childPid c) (M_requests c) (activation_time c)
                               (lineCntr c + 1))).
Proof.
  intros Hreach Hactive Hlines.
  pose proof (Reachable_Inv env M text s Hreach) as HI.
  pose proof (Reachable_children_nonneg env M text s Hreach) as Hnonneg.
  pose proof HI as HI'. open_inv HI'.
  (* some slot holds a positive pid *)
  destruct (occupied_positive (children (parent s))) as (j & Hj & Hne); [lia|].
  assert (Hjpos : nth j (children (parent s)) 0 > 0).
  { rewrite Forall_forall in Hnonneg.
    assert (0 <= nth j (children (parent s)) 0)
      by (apply Hnonneg, list_elem_of_In, nth_In; exact Hj).
    lia. }
  destruct (randomActiveChildrenSelection_cases env (children (parent s)) M s)
    as [[Hnil _] | (_ & Hr & Hsel & Hidx & Hpos)].
  { exfalso.
    assert (Hin : In j (List.filter (fun j => nth j (children (parent s)) 0 >? 0)
                                    (seq 0 (Z.to_nat M)))).
    { apply filter_In. split; [apply in_seq; lia | apply Z.gtb_lt; lia]. }
    rewrite Hnil in Hin. exact Hin. }
  cbv zeta in Hsel, Hidx, Hpos.
  set (slot := nth _ _ O) in *.
  destruct (randomLineSelection_spec env text EmptyString
              (set_randCalls (S (randCalls s)) s)) as (k & Hk & _ & Hline);
    [exact Hlines|].
  exists (Z.of_nat slot), (nth k (fileLines text) EmptyString).
  set (line := cstring (nth k (fileLines text) EmptyString)).
  rewrite Nat2Z.id.
  split; [lia|]. split; [exact Hpos|]. split; [apply nth_In; exact Hk|].
  unfold deliver.
  replace (activeChildren (parent s) >? 0) with true
    by (symmetry; apply Z.gtb_lt; lia).
  rewrite Hsel.
  replace (Z.of_nat slot =? -1) with false by (symmetry; apply Z.eqb_neq; lia).
  replace (lineCount text >? 0) with true by (symmetry; apply Z.gtb_lt; lia).
  cbn [negb andb]. rewrite Hline. cbv zeta. fold line.
  match goal with
  | |- context [post_and_wait ?i ?s6] =>
      remember s6 as st6 eqn:E6;
      assert (H6 : Inv M (payloads text) st6)
        by (subst st6; apply Inv_announce; [apply payloads_nth; exact Hk|];
            apply Inv_emit; [reflexivity|]; apply Inv_set_sharedMem;
            apply Inv_emit; [reflexivity|]; apply Inv_set_sharedMem;
            apply Inv_emit; [reflexivity|]; apply Inv_set_sharedMem;
            apply Inv_set_randCalls; apply Inv_set_randCalls; exact HI);
      assert (Hmem6 : sharedMem st6 = mkSharedMemory (Z.of_nat slot) currTime line)
        by (subst st6; reflexivity);
      assert (Hsent6 : sentLines (trace st6) = sentLines (trace s) ++ [line])
        by (subst st6; simpl; trace_simpl; reflexivity);
      assert (Hrand6 : randCalls st6 = S (S (randCalls s)))
        by (subst st6; reflexivity);
      assert (Hparent6 : parent st6 = parent s) by (subst st6; reflexivity);
      assert (Hprocs6 : procs st6 = procs s) by (subst st6; reflexivity);
      assert (Hlogs6 : logs st6 = logs s) by (subst st6; reflexivity)
  end.
  clear E6.
  destruct (post_and_wait_frame (Z.of_nat slot) st6) as (Hp & Hm & Hr' & _ & Hs).
  cbv zeta in Hp, Hm, Hr', Hs.
  rewrite Hm, Hs, Hr', Hp.
  split; [exact Hmem6|]. split; [exact Hsent6|]. split; [exact Hrand6|].
  split; [exact Hparent6|].
  intros c Hc.
  destruct (Hprocs _ _ Hc) as (Hslot & _).
  pose proof (nth_Some_lt _ _ _ Hc) as Hlt.
  destruct (String.eqb line TERMINATE) eqn:Hterm.
  - destruct (post_and_wait_live (Z.of_nat slot) st6 c) as (s' & Hrun);
      [rewrite Nat2Z.id, Hprocs6; exact Hc|].
    rewrite Hrun. simpl. split; [reflexivity|].
    destruct (post_and_wait_continue _ _ _ Hrun)
      as (c' & Hc' & _ & _ & _ & _ & _ & Hexit).
    rewrite Nat2Z.id, Hprocs6, Hc in Hc'. inversion Hc'; subst c'; clear Hc'.
    destruct Hexit as [Hprocs' Hlogs'].
    { rewrite Hmem6. simpl. apply String.eqb_eq. exact Hterm. }
    rewrite Hprocs', Hlogs', Hprocs6, Hlogs6, Hmem6, Hslot, Nat2Z.id. simpl.
    split; [apply nth_insert_eq; exact Hlt | reflexivity].
  - destruct (post_and_wait_message (Z.of_nat slot) st6 c)
      as (s' & Hrun & Hlogs' & Hprocs');
      [rewrite Nat2Z.id, Hprocs6; exact Hc | rewrite Hmem6; exact Hterm|].
    rewrite Hrun. simpl. split; [reflexivity|].
    rewrite Hlogs', Hprocs', Hprocs6, Hlogs6, Hmem6, Hslot, Nat2Z.id. simpl.
    split; [reflexivity | apply nth_insert_eq; exact Hlt].
Qed.

(** In any state the parent reaches with at least one active child and a
    non-empty text, the message phase of a tick sends exactly one line:
    it calls [rand()] twice, picks a slot that holds a positive pid and a
    record of the text, and leaves in the shared segment the C string of
    that record, the current tick and the slot.  When a child waits on
    that slot the phase returns: if the C string is not TERMINATE the
    child has logged it once with the tick as its stamp and counted it;
    if it is, the child has taken it for the termination message and
    left, while the parent still holds its pid. *)
Theorem deliver_sends_exactly_one_line (env : Env) (M : Z) (text : string)
    (currTime : Z) (s : State) :
  Reachable env M text s ->
  activeChildren (parent s) > 0 ->
  lineCount text > 0 ->
  exists idx record,
    0 <= idx < M /\
    nth (Z.to_nat idx) (children (parent s)) 0 > 0 /\
    In record (fileLines text) /\
    let line := cstring record in
    let s' := stateOf (deliver env M text (lineCount text) currTime s) in
    sharedMem s' = mkSharedMemory idx currTime line /\
    sentLines (trace s') = sentLines (trace s) ++ [line] /\
    randCalls s' = S (S (randCalls s)) /\
    parent s' = parent s /\
    (forall c,
       nth (Z.to_nat idx) (procs s) None = Some c ->
       deliver env M text (lineCount text) currTime s = Continue s' /\
       if String.eqb line TERMINATE then
         nth (Z.to_nat idx) (procs s') None = None /\
         logs s' =
           logs s ++
           LogTerminate currTime (childPid c) ::
           (if currTime >=? 0
            then [LogSummary (childPid c) (lineCntr c) currTime (activation_time c)
                             (currTime - activation_time c)]
            else [])
       else
         logs s' = logs s ++ [LogMessage currTime (childPid c) line] /\
         nth (Z.to_nat idx) (procs s') None
           = Some (mkChildProc (childPid c) (M_requests c) (activation_time c)
                               (lineCntr c + 1))).
Proof. apply deliver_one_line. Qed.

Lemma deliver_sends_exactly_one_line_witness :
  exists idx record,
    0 <= idx < 1 /\
    nth (Z.to_nat idx) (children (parent state_one_child)) 0 > 0 /\
    In record (fileLines text_example) /\
    let line := cstring record in
    let s' := stateOf (deliver env_example 1 text_example (lineCount text_example)
                               3 state_one_child) in
    sharedMem s' = mkSharedMemory idx 3 line /\
    sentLines (trace s') = sentLines (trace state_one_child) ++ [line] /\
    randCalls s' = S (S (randCalls state_one_child)) /\
    parent s' = parent state_one_child /\
    (forall c,
       nth (Z.to_nat idx) (procs state_one_child) None = Some c ->
       deliver env_example 1 text_example (lineCount text_example) 3 state_one_child
         = Continue s' /\
       if String.eqb line TERMINATE then
         nth (Z.to_nat idx) (procs s') None = None /\
         logs s' =
           logs state_one_child ++
           LogTerminate 3 (childPid c) ::
           (if 3 >=? 0
            then [LogSummary (childPid c) (lineCntr c) 3 (activation_time c)
                             (3 - activation_time c)]
            else [])
       else
         logs s' = logs state_one_child ++ [LogMessage 3 (childPid c) line] /\
         nth (Z.to_nat idx) (procs s') None
           = Some (mkChildProc (childPid c) (M_requests c) (activation_time c)
                               (lineCntr c + 1))).
Proof.
  apply (deliver_sends_exactly_one_line env_example 1 text_example 3
                                        state_one_child).
  - apply (reach_command env_example 1 text_example 0 (entry 0 "C1" "S")
             (initialState 1) state_one_child); [apply reach_start | reflexivity].
  - reflexivity.
  - reflexivity.
Defined.

(** ** Schedules that cannot block the parent *)

Lemma Safe_weaken (M : Z) (P P' : ConfigEntry -> Prop) (s : State) :
  (forall e, P' e -> P e) -> Safe M P s -> Safe M P' s.
Proof.
  intros Hsub [H1 H2 H3 H4]. constructor; auto.
Qed.

Lemma Safe_frame (M : Z) (P : ConfigEntry -> Prop) (s s' : State) :
  parent s' = parent s -> procs s' = procs s -> Safe M P s -> Safe M P s'.
Proof.
  intros Hp Hprocs [H1 H2 H3 H4].
  constructor; rewrite ?Hp, ?Hprocs; auto.
Qed.

Lemma terminateLabels_app (l1 l2 : list ConfigEntry) :
  terminateLabels (l1 ++ l2) = terminateLabels l1 ++ terminateLabels l2.
Proof. unfold terminateLabels. rewrite List.filter_app, List.map_app. reflexivity. Qed.

Lemma terminateLabels_In (l : list ConfigEntry) (e : ConfigEntry) :
  In e l -> isTerminate e = true -> In (processLabel e) (terminateLabels l).
Proof.
  intros Hin HT. unfold terminateLabels. apply in_map, filter_In. auto.
Qed.

(** With pairwise distinct TERMINATE labels, the label of a TERMINATE
    entry is the label of no other TERMINATE entry of the file. *)
Lemma terminate_label_unique (prefix rest : list ConfigEntry) (e e' : ConfigEntry) :
  NoDup (terminateLabels (prefix ++ e :: rest)) ->
  isTerminate e = true ->
  isTerminate e' = true ->
  processLabel e' = processLabel e ->
  ~ In e' rest /\
  (In e' (prefix ++ e :: rest) -> timestamp e' = timestamp e).
Proof.
  intros Hnodup HT HT' Hlabel.
  rewrite terminateLabels_app in Hnodup.
  change (e :: rest) with ([e] ++ rest) in Hnodup.
  rewrite terminateLabels_app in Hnodup.
  unfold terminateLabels at 2 in Hnodup. simpl in Hnodup. rewrite HT in Hnodup.
  simpl in Hnodup.
  apply NoDup_app in Hnodup as (_ & Hcross & Hcons).
  apply NoDup_cons in Hcons as [Hnotrest _].
  assert (Hrest : ~ In e' rest).
  { intros Hin. apply Hnotrest, list_elem_of_In.
    rewrite <- Hlabel. apply terminateLabels_In; assumption. }
  split; [exact Hrest|].
  intros Hin. apply in_app_or in Hin as [Hin | [<- | Hin]];
    [|reflexivity | contradiction].
  exfalso. apply (Hcross (processLabel e)).
  - apply list_elem_of_In. rewrite <- Hlabel.
    apply terminateLabels_In; assumption.
  - apply list_elem_of_here.
Qed.

Section WellFormed.

Variable env : Env.
Variable M : Z.
Variable text : string.
Variable commands : list ConfigEntry.

Hypothesis distinct_labels : NoDup (terminateLabels commands).
Hypothesis labels_not_empty : ~ In noLabel (terminateLabels commands).
Hypothesis no_sentinel : noSentinelRecord text.

Lemma Safe_initial (P : ConfigEntry -> Prop) :
  (forall e, P e -> In e commands) -> Safe M P (initialState M).
Proof.
  intros HP. constructor; simpl.
  - apply length_replicate.
  - apply Forall_forall. intros x Hx.
    apply elem_of_replicate in Hx as [-> _]. lia.
  - intros i _ H. rewrite nth_replicate_default in H. contradiction.
  - intros i e _ _ Hp HT Hlabel. rewrite nth_replicate_default in Hlabel.
    apply labels_not_empty. rewrite <- Hlabel.
    apply terminateLabels_In; auto.
Qed.

Lemma spawn_safe (P : ConfigEntry -> Prop) (currTime : Z) (label : string)
    (s : State) :
  Inv M (payloads text) s ->
  Safe M P s ->
  exists s', spawn env M currTime label s = Continue s' /\ Safe M P s'.
Proof.
  intros HI HS. unfold spawn.
  destruct (freeSlotFinder_spec (children (parent s)) M) as [E | [Hrange Hfree]].
  { rewrite E. simpl. exists s. auto. }
  destruct (freeSlotFinder (children (parent s)) M =? -1); [exists s; auto|].
  set (freeSlot := freeSlotFinder (children (parent s)) M) in *.
  unfold fork. destruct (fork_result env (forkCalls s)) as [pid|].
  - eexists. split; [reflexivity|].
    destruct HS as [H1 H2 H3 H4]. open_inv HI.
    assert (Hslot : (Z.to_nat freeSlot < Z.to_nat M)%nat) by lia.
    constructor; simpl.
    + rewrite length_insert. exact H1.
    + apply Forall_insert; [exact H2 | lia].
    + intros i Hi Hpid.
      destruct (Nat.eq_dec (Z.to_nat freeSlot) i) as [<- | Hne].
      * rewrite nth_insert_eq by lia. discriminate.
      * rewrite nth_insert_ne in Hpid by exact Hne.
        rewrite nth_insert_ne by exact Hne. apply H3; assumption.
    + intros i e Hi Hpid Hp HT.
      destruct (Nat.eq_dec (Z.to_nat freeSlot) i) as [<- | Hne].
      * rewrite nth_insert_eq in Hpid by lia. discriminate.
      * rewrite nth_insert_ne in Hpid by exact Hne.
        rewrite nth_insert_ne by exact Hne. apply H4; assumption.
  - eexists. split; [reflexivity|].
    apply (Safe_frame M P s); [reflexivity | reflexivity | exact HS].
Qed.

Lemma terminate_safe (prefix rest : list ConfigEntry) (e : ConfigEntry)
    (s : State) :
  commands = prefix ++ e :: rest ->
  isTerminate e = true ->
  Inv M (payloads text) s ->
  Safe M (pendingAt commands (timestamp e) (e :: rest)) s ->
  exists s',
    terminate M (timestamp e) (processLabel e) s = Continue s' /\
    Safe M (pendingAt commands (timestamp e) rest) s'.
Proof.
  intros Hsplit HT HI HS. unfold terminate.
  assert (Hmono : forall e', pendingAt commands (timestamp e) rest e' ->
                             pendingAt commands (timestamp e) (e :: rest) e').
  { intros e' [[Hin Hts] | Hlater]; [left; split; [right|]; assumption | right; exact Hlater]. }
  destruct (childLabelFinder_spec (childLabels (parent s)) (processLabel e) M)
    as [E | [Hrange Hfound]].
  { rewrite E. simpl. eexists. split; [reflexivity|].
    apply (Safe_frame M _ s); [reflexivity | reflexivity|].
    exact (Safe_weaken M _ _ s Hmono HS). }
  destruct (childLabelFinder (childLabels (parent s)) (processLabel e) M =? -1).
  { eexists. split; [reflexivity|].
    apply (Safe_frame M _ s); [reflexivity | reflexivity|].
    exact (Safe_weaken M _ _ s Hmono HS). }
  set (childIndx := childLabelFinder (childLabels (parent s)) (processLabel e) M) in *.
  assert (Hidx : (Z.to_nat childIndx < Z.to_nat M)%nat) by lia.
  pose proof HS as [H1 H2 H3 H4].
  (* the slot found holds a pid, hence a child *)
  assert (Hpid : nth (Z.to_nat childIndx) (children (parent s)) 0 <> 0).
  { intros Hfree.
    apply (H4 (Z.to_nat childIndx) e Hidx Hfree); [|exact HT | symmetry; exact Hfound].
    left. split; [left; reflexivity | reflexivity]. }
  destruct (nth (Z.to_nat childIndx) (procs s) None) as [c|] eqn:Hc;
    [|exfalso; exact (H3 _ Hidx Hpid Hc)].
  cbv zeta.
  match goal with
  | |- context [andThen (post_and_wait _ ?s4) _] =>
      remember s4 as st4 eqn:E4;
      assert (Hprocs4 : procs st4 = procs s) by (subst st4; reflexivity);
      assert (Hchildren4 : children (parent st4) = children (parent s))
        by (subst st4; reflexivity);
      assert (Hlabels4 : childLabels (parent st4) = childLabels (parent s))
        by (subst st4; reflexivity);
      assert (Hmem4 : sharedSpace (sharedMem st4) = TERMINATE)
        by (subst st4; reflexivity)
  end.
  clear E4.
  destruct (post_and_wait_live childIndx st4 c) as (s5 & Hpw);
    [rewrite Hprocs4; exact Hc|].
  rewrite Hpw. simpl.
  destruct (post_and_wait_continue _ _ _ Hpw)
    as (c' & Hc' & Hparent5 & _ & _ & _ & _ & Hexit).
  rewrite Hprocs4, Hc in Hc'. inversion Hc'; subst c'; clear Hc'.
  destruct (Hexit Hmem4) as [Hprocs5 _].
  destruct (inv_procs _ _ _ HI _ _ Hc) as (Hslot & _).
  rewrite Hslot, Nat2Z.id, Hprocs4 in Hprocs5.
  eexists. split; [reflexivity|].
  constructor; simpl; rewrite ?Hparent5, ?Hchildren4, ?Hlabels4, ?Hprocs5.
  - exact H1.
  - apply Forall_insert; [exact H2 | lia].
  - intros i Hi Hne.
    destruct (Nat.eq_dec (Z.to_nat childIndx) i) as [<- | Hdiff].
    + rewrite nth_insert_eq in Hne by (open_inv HI; lia). contradiction.
    + rewrite nth_insert_ne in Hne by exact Hdiff.
      rewrite nth_insert_ne by exact Hdiff. apply H3; assumption.
  - intros i e' Hi Hfree Hp HT'.
    destruct (Nat.eq_dec (Z.to_nat childIndx) i) as [<- | Hdiff].
    + rewrite Hfound. intros Hlabel.
      rewrite Hsplit in distinct_labels.
      destruct (terminate_label_unique prefix rest e e' distinct_labels HT HT' Hlabel)
        as [Hnot Hsame].
      destruct Hp as [[Hin _] | [Hin Hlt]]; [contradiction|].
      rewrite Hsplit in Hin. specialize (Hsame Hin). lia.
    + rewrite nth_insert_ne in Hfree by exact Hdiff.
      apply H4; auto.
Qed.

Lemma applyCommand_safe (prefix rest : list ConfigEntry) (e : ConfigEntry)
    (s : State) :
  commands = prefix ++ e :: rest ->
  Inv M (payloads text) s ->
  Safe M (pendingAt commands (timestamp e) (e :: rest)) s ->
  exists s',
    applyCommand env M (timestamp e) e s = Continue s' /\
    Inv M (payloads text) s' /\
    Safe M (pendingAt commands (timestamp e) rest) s'.
Proof.
  intros Hsplit HI HS.
  assert (Hmono : forall e', pendingAt commands (timestamp e) rest e' ->
                             pendingAt commands (timestamp e) (e :: rest) e').
  { intros e' [[Hin Hts] | Hlater];
      [left; split; [right|]; assumption | right; exact Hlater]. }
  assert (Hstep : exists s', applyCommand env M (timestamp e) e s = Continue s' /\
                             Safe M (pendingAt commands (timestamp e) rest) s').
  { unfold applyCommand.
    destruct (Ascii.eqb (command e) "S" && (activeChildren (parent s) <? M)).
    - apply spawn_safe; [exact HI|]. exact (Safe_weaken M _ _ s Hmono HS).
    - destruct (Ascii.eqb (command e) "T") eqn:HT.
      + apply (terminate_safe prefix rest e s); assumption.
      + exists s. split; [reflexivity|]. exact (Safe_weaken M _ _ s Hmono HS). }
  destruct Hstep as (s' & Hrun & HS'). exists s'.
  split; [exact Hrun|]. split; [|exact HS'].
  pose proof (applyCommand_ok env M (payloads text) (timestamp e) e s HI) as Hok.
  rewrite Hrun in Hok. exact Hok.
Qed.

Lemma commandLoop_safe (currTime : Z) (rest : list ConfigEntry) :
  forall (prefix : list ConfigEntry) (s : State),
    commands = prefix ++ rest ->
    Inv M (payloads text) s ->
    Safe M (pendingAt commands currTime rest) s ->
    exists s',
      commandLoop env M currTime rest s = Continue s' /\
      Inv M (payloads text) s' /\
      Safe M (pendingAt commands currTime []) s'.
Proof.
  induction rest as [|e rest IH]; intros prefix s Hsplit HI HS; simpl.
  - exists s. auto.
  - destruct (timestamp e =? currTime) eqn:E.
    + apply Z.eqb_eq in E. subst currTime.
      destruct (applyCommand_safe prefix rest e s Hsplit HI HS)
        as (s1 & Hrun & HI1 & HS1).
      rewrite Hrun. simpl.
      apply (IH (prefix ++ [e])); [rewrite <- app_assoc; exact Hsplit | exact HI1 | exact HS1].
    + apply (IH (prefix ++ [e])); [rewrite <- app_assoc; exact Hsplit | exact HI|].
      apply (Safe_weaken M (pendingAt commands currTime (e :: rest)) _ s); [|exact HS].
      intros e' [[Hin Hts] | Hlater];
        [left; split; [right|]; assumption | right; exact Hlater].
Qed.

Lemma deliver_safe (P : ConfigEntry -> Prop) (currTime : Z) (s : State) :
  Inv M (payloads text) s ->
  Safe M P s ->
  exists s',
    deliver env M text (lineCount text) currTime s = Continue s' /\
    Inv M (payloads text) s' /\
    Safe M P s'.
Proof.
  intros HI HS.
  assert (Hstep : exists s', deliver env M text (lineCount text) currTime s
                             = Continue s' /\ Safe M P s').
  { unfold deliver.
    destruct (activeChildren (parent s) >? 0); [|exists s; auto].
    pose proof (randomActiveChildrenSelection_spec env M (children (parent s)) s)
      as Hsel.
    destruct (randomActiveChildrenSelection env (children (parent s)) M s)
      as [randChildIndx s1].
    destruct Hsel as [Hs1 Hidx].
    assert (HS1 : Safe M P s1 /\ procs s1 = procs s /\ parent s1 = parent s).
    { destruct Hs1 as [-> | ->]; auto. split; [|auto].
      apply (Safe_frame M P s); auto. }
    destruct HS1 as (HS1 & Hprocs1 & Hparent1).
    destruct (negb (randChildIndx =? -1) && (lineCount text >? 0)) eqn:Hguard;
      [|exists s1; auto].
    apply andb_true_iff in Hguard as [Hne Hpos].
    apply negb_true_iff, Z.eqb_neq in Hne. apply Z.gtb_lt in Hpos.
    destruct Hidx as [? | [Hrange Hactive]]; [contradiction|].
    destruct (randomLineSelection_spec env text EmptyString s1)
      as (k & Hk & _ & ->); [lia|].
    set (line := cstring (nth k (fileLines text) EmptyString)).
    assert (Hline : String.eqb line TERMINATE = false).
    { unfold noSentinelRecord in no_sentinel. rewrite Forall_forall in no_sentinel.
      apply no_sentinel, list_elem_of_In, payloads_nth. exact Hk. }
    pose proof HS as [H1 H2 H3 H4].
    destruct (nth (Z.to_nat randChildIndx) (procs s) None) as [c|] eqn:Hc.
    2:{ exfalso. apply (H3 (Z.to_nat randChildIndx)); [lia | lia | exact Hc]. }
    cbv zeta.
    match goal with
    | |- context [post_and_wait ?i ?s6] =>
        destruct (post_and_wait_message i s6 c) as (s' & Hrun & _ & Hprocs');
        [simpl; rewrite Hprocs1; exact Hc | exact Hline|];
        destruct (post_and_wait_frame i s6) as (Hp & _)
    end.
    cbv zeta in Hp. rewrite Hrun in Hp. simpl in Hp, Hprocs'.
    exists s'. split; [exact Hrun|].
    destruct (inv_procs _ _ _ HI _ _ Hc) as (Hslot & _).
    rewrite Hslot, Nat2Z.id, Hprocs1 in Hprocs'.
    constructor; rewrite ?Hp, ?Hparent1, ?Hprocs'; auto.
    intros i Hi Hpid.
    destruct (Nat.eq_dec (Z.to_nat randChildIndx) i) as [<- | Hdiff].
    - rewrite nth_insert_eq by (open_inv HI; lia). discriminate.
    - rewrite nth_insert_ne by exact Hdiff. apply H3; assumption. }
  destruct Hstep as (s' & Hrun & HS'). exists s'.
  split; [exact Hrun|]. split; [|exact HS'].
  pose proof (deliver_ok env M (payloads text) text currTime s eq_refl HI) as Hok.
  rewrite Hrun in Hok. exact Hok.
Qed.

Lemma tick_safe (currTime : Z) (s : State) :
  Inv M (payloads text) s ->
  Safe M (pendingFrom commands currTime) s ->
  exists s',
    tick env M text (lineCount text) commands currTime s = Continue s' /\
    Inv M (payloads text) s' /\
    Safe M (pendingFrom commands (currTime + 1)) s'.
Proof.
  intros HI HS. unfold tick.
  destruct (commandLoop_safe currTime commands [] (emit (Tick currTime) s))
    as (s1 & Hrun & HI1 & HS1).
  - reflexivity.
  - apply Inv_emit; [reflexivity | exact HI].
  - apply (Safe_frame M _ s); [reflexivity | reflexivity|].
    apply (Safe_weaken M (pendingFrom commands currTime) _ s); [|exact HS].
    intros e [[Hin Hts] | [Hin Hlt]]; split; auto; lia.
  - rewrite Hrun. simpl.
    apply deliver_safe; [exact HI1|].
    apply (Safe_weaken M (pendingAt commands currTime []) _ s1); [|exact HS1].
    intros e [Hin Hle]. right. split; [exact Hin | lia].
Qed.

Lemma tickLoop_safe (quitTimestamp : Z) (fuel : nat) :
  quitTimestamp < INT_MAX ->
  forall (currTime : Z) (s : State),
    Inv M (payloads text) s ->
    Safe M (pendingFrom commands currTime) s ->
    exists s',
      tickLoop env M text (lineCount text) commands quitTimestamp fuel currTime s
        = Continue s' /\
      Inv M (payloads text) s' /\
      Safe M (fun _ => False) s'.
Proof.
  intros Hmax.
  induction fuel as [|fuel IH]; intros currTime s HI HS; simpl.
  - exists s. destruct (currTime <=? quitTimestamp);
      (split; [reflexivity|]; split; [exact HI|]);
      apply (Safe_weaken M (pendingFrom commands currTime) _ s); auto; contradiction.
  - destruct (currTime <=? quitTimestamp) eqn:E.
    + apply Z.leb_le in E.
      destruct (tick_safe currTime s HI HS) as (s1 & Hrun & HI1 & HS1).
      rewrite Hrun. simpl.
      replace (currTime =? INT_MAX) with false by (symmetry; apply Z.eqb_neq; lia).
      apply IH; assumption.
    + exists s. split; [reflexivity|]. split; [exact HI|].
      apply (Safe_weaken M (pendingFrom commands currTime) _ s); auto; contradiction.
Qed.

(** The final loop, started with a child on every occupied slot it has
    still to visit, returns and leaves no child behind. *)
Lemma drainLoop_safe (quitTimestamp : Z) (n : nat) :
  forall (i : nat) (s : State),
    (i + n = Z.to_nat M)%nat ->
    Inv M (payloads text) s ->
    Forall (fun pid => 0 <= pid) (children (parent s)) ->
    (forall j, (i <= j < Z.to_nat M)%nat ->
               nth j (children (parent s)) 0 <> 0 -> nth j (procs s) None <> None) ->
    (forall j, (j < i)%nat -> nth j (procs s) None = None) ->
    exists s',
      drainLoop quitTimestamp i n s = Continue s' /\
      Inv M (payloads text) s' /\
      (forall j, nth j (procs s') None = None).
Proof.
  induction n as [|n IH]; intros i s Hin HI Hnonneg Hlive Hdone; simpl.
  - exists s. split; [reflexivity|]. split; [exact HI|].
    intros j. destruct (Nat.lt_ge_cases j i) as [Hlt | Hge]; [apply Hdone; exact Hlt|].
    apply nth_overflow. rewrite (inv_procs_length _ _ _ HI). lia.
  - assert (Hstep : exists s1,
               drainSlot quitTimestamp i s = Continue s1 /\
               children (parent s1) = children (parent s) /\
               nth i (procs s1) None = None /\
               (forall j, j <> i -> nth j (procs s1) None = nth j (procs s) None)).
    { unfold drainSlot.
      destruct (nth i (children (parent s)) 0 >? 0) eqn:E.
      - apply Z.gtb_lt in E.
        destruct (nth i (procs s) None) as [c|] eqn:Hc;
          [|exfalso; apply (Hlive i); [lia | lia | exact Hc]].
        cbv zeta.
        match goal with
        | |- context [andThen (post_and_wait _ ?s4) _] =>
            remember s4 as st4 eqn:E4;
            assert (Hprocs4 : procs st4 = procs s) by (subst st4; reflexivity);
            assert (Hchildren4 : children (parent st4) = children (parent s))
              by (subst st4; reflexivity);
            assert (Hmem4 : sharedSpace (sharedMem st4) = TERMINATE)
              by (subst st4; reflexivity)
        end.
        clear E4.
        destruct (post_and_wait_live (Z.of_nat i) st4 c) as (s5 & Hpw);
          [rewrite Nat2Z.id, Hprocs4; exact Hc|].
        rewrite Hpw. simpl.
        destruct (post_and_wait_continue _ _ _ Hpw)
          as (c' & Hc' & Hparent5 & _ & _ & _ & _ & Hexit).
        rewrite Nat2Z.id, Hprocs4, Hc in Hc'. inversion Hc'; subst c'; clear Hc'.
        destruct (Hexit Hmem4) as [Hprocs5 _].
        destruct (inv_procs _ _ _ HI _ _ Hc) as (Hslot & _).
        rewrite Hslot, Nat2Z.id, Hprocs4 in Hprocs5.
        eexists. split; [reflexivity|]. simpl.
        rewrite Hparent5, Hchildren4, Hprocs5.
        split; [reflexivity|]. split.
        + apply nth_insert_eq. exact (nth_Some_lt _ _ _ Hc).
        + intros j Hj. apply nth_insert_ne. auto.
      - exists s. split; [reflexivity|]. split; [reflexivity|]. split; [|auto].
        destruct (nth i (procs s) None) as [c|] eqn:Hc; [|reflexivity].
        destruct (inv_procs _ _ _ HI _ _ Hc) as (_ & Hpid & Hpos & _).
        rewrite Z.gtb_ltb in E. apply Z.ltb_ge in E. lia. }
    destruct Hstep as (s1 & Hrun & Hch1 & Hnone1 & Hothers1).
    rewrite Hrun. simpl.
    apply IH.
    + lia.
    + pose proof (drainSlot_ok M (payloads text) quitTimestamp i s HI) as Hok.
      rewrite Hrun in Hok. exact Hok.
    + rewrite Hch1. exact Hnonneg.
    + intros j Hj Hpid. rewrite Hch1 in Hpid.
      rewrite Hothers1 by lia. apply Hlive; [lia | exact Hpid].
    + intros j Hj. destruct (Nat.eq_dec j i) as [-> | Hne]; [exact Hnone1|].
      rewrite Hothers1 by exact Hne. apply Hdone. lia.
Qed.

End WellFormed.

Lemma well_formed_run (env : Env) (commands : list ConfigEntry) (text : string)
    (M : Z) :
  findQuit commands <> -1 ->
  findQuit commands < INT_MAX ->
  NoDup (terminateLabels commands) ->
  ~ In noLabel (terminateLabels commands) ->
  noSentinelRecord text ->
  exists s,
    parentProcess env commands text M = Completed s /\
    ticksOf (trace s) = ticksFrom 0 (Z.to_nat (findQuit commands + 1)) /\
    (forall j, nth j (procs s) None = None) /\
    semaphores s = replicate (Z.to_nat M) 0 /\
    parentNotificationSemaphore s = 0.
Proof.
  intros Hquit Hmax Hdistinct Hlabels Hsentinel. unfold parentProcess.
  destruct (findQuit commands =? -1) eqn:E; [apply Z.eqb_eq in E; contradiction|].
  set (Q := findQuit commands).
  destruct (tickLoop_safe env M text commands Hdistinct Hsentinel Q
              (Z.to_nat (Q + 1)) Hmax 0 (initialState M))
    as (s1 & Hloop & HI1 & HS1).
  { apply Inv_initial. }
  { apply (Safe_initial M commands Hlabels). intros e [Hin _]. exact Hin. }
  destruct (tickLoop_ticks env M text (lineCount text) commands Q
              (Z.to_nat (Q + 1)) 0 (initialState M))
    as (n & _ & Hticks & Hall); [lia|].
  cbv zeta in Hticks, Hall. rewrite Hloop in Hticks, Hall. simpl in Hticks.
  specialize (Hall s1 eq_refl). rewrite Z.sub_0_r in Hall. subst n.
  rewrite Hloop. simpl andThen.
  destruct (drainLoop_safe M text Q (Z.to_nat M) 0 s1) as (s2 & Hdrain & HI2 & Hnone).
  - lia.
  - exact HI1.
  - exact (safe_nonneg _ _ _ HS1).
  - intros j Hj. apply (safe_live _ _ _ HS1). lia.
  - intros j Hj. lia.
  - pose proof (drainLoop_ticks Q (Z.to_nat M) 0 s1) as Hdticks.
    rewrite Hdrain in Hdticks |- *. simpl in Hdticks.
    eexists. split; [reflexivity|]. simpl.
    split; [trace_simpl; rewrite Hdticks; exact Hticks|].
    split; [exact Hnone|].
    split; [exact (inv_semaphores _ _ _ HI2) | exact (inv_notification _ _ _ HI2)].
Qed.

(** A schedule that cannot block the parent.  When the configuration has
    an EXIT entry with a timestamp below [INT_MAX], its TERMINATE entries
    name pairwise distinct, non-empty labels, and no record of the text is
    read as the message TERMINATE (its C string is another string),
    the run always completes, whatever [rand()] and [fork()] answer: the
    parent executes every tick from 0 to the quit timestamp, the final
    loop terminates every child still running, and at the end no child is
    left waiting and every semaphore is back at 0. *)
Theorem well_formed_schedule_completes (env : Env) (commands : list ConfigEntry)
    (text : string) (M : Z) :
  findQuit commands <> -1 ->
  findQuit commands < INT_MAX ->
  NoDup (terminateLabels commands) ->
  ~ In noLabel (terminateLabels commands) ->
  noSentinelRecord text ->
  exists s,
    parentProcess env commands text M = Completed s /\
    ticksOf (trace s) = ticksFrom 0 (Z.to_nat (findQuit commands + 1)) /\
    (forall j, nth j (procs s) None = None) /\
    semaphores s = replicate (Z.to_nat M) 0 /\
    parentNotificationSemaphore s = 0.
Proof. apply well_formed_run. Qed.

Lemma well_formed_schedule_completes_witness :
  exists s,
    parentProcess env_example config_two_children text_example 2 = Completed s /\
    ticksOf (trace s) = ticksFrom 0 (Z.to_nat (findQuit config_two_children + 1)) /\
    (forall j, nth j (procs s) None = None) /\
    semaphores s = replicate (Z.to_nat 2) 0 /\
    parentNotificationSemaphore s = 0.
Proof.
  apply (well_formed_schedule_completes env_example config_two_children
                                        text_example 2).
  - vm_compute. discriminate.
  - vm_compute. reflexivity.
  - vm_compute. apply NoDup_singleton.
  - vm_compute. intros [H | []]. discriminate.
  - vm_compute. repeat constructor.
Defined.

(** ** The children's books *)

Lemma total_app {A} (f : A -> Z) (l1 l2 : list A) :
  total f (l1 ++ l2) = total f l1 + total f l2.
Proof. induction l1 as [|x l1 IH]; simpl; lia. Qed.

Lemma total_insert {A} (f : A -> Z) (l : list A) (i : nat) (x d : A) :
  (i < length l)%nat ->
  total f (<[i := x]> l) = total f l - f (nth i l d) + f x.
Proof.
  revert i. induction l as [|y l IH]; intros [|i] H; simpl in *; try lia.
  rewrite (IH i) by lia. lia.
Qed.

Lemma total_zero {A} (f : A -> Z) (l : list A) (d : A) :
  (forall i, f (nth i l d) = 0) -> total f l = 0.
Proof.
  induction l as [|x l IH]; intros H; simpl; [reflexivity|].
  rewrite IH by (intros i; apply (H (S i))).
  pose proof (H O) as H0. simpl in H0. lia.
Qed.

(** What a hand-over that returns has done, in a state of the invariant:
    the child of the posted slot has either left with its summary or
    logged and counted the message. *)
Lemma post_and_wait_cases (M : Z) (lines : list string) (idx : Z) (s s' : State) :
  0 <= idx ->
  Inv M lines s ->
  post_and_wait idx s = Continue s' ->
  exists c,
    nth (Z.to_nat idx) (procs s) None = Some c /\
    parent s' = parent s /\
    trace s' = trace s ++ [SemPost idx; SemWait true] /\
    ((sharedSpace (sharedMem s) = TERMINATE /\
      procs s' = <[Z.to_nat idx := None]> (procs s) /\
      logs s' =
        logs s ++
        LogTerminate (endsInTimestamp (sharedMem s)) (childPid c) ::
        (if endsInTimestamp (sharedMem s) >=? 0
         then [LogSummary (childPid c) (lineCntr c) (endsInTimestamp (sharedMem s))
                          (activation_time c)
                          (endsInTimestamp (sharedMem s) - activation_time c)]
         else [])) \/
     (String.eqb (sharedSpace (sharedMem s)) TERMINATE = false /\
      procs s' = <[Z.to_nat idx :=
                     Some (mkChildProc (childPid c) (M_requests c)
                                       (activation_time c) (lineCntr c + 1))]> (procs s) /\
      logs s' = logs s ++ [LogMessage (endsInTimestamp (sharedMem s)) (childPid c)
                                      (sharedSpace (sharedMem s))])).
Proof.
  intros Hidx HI Hrun.
  destruct (post_and_wait_continue _ _ _ Hrun)
    as (c & Hc & Hp & _ & _ & _ & Ht & Hterm).
  exists c. split; [exact Hc|]. split; [exact Hp|]. split; [exact Ht|].
  destruct (inv_procs _ _ _ HI _ _ Hc) as (Hslot & _).
  assert (Hslot' : Z.to_nat (M_requests c) = Z.to_nat idx) by (rewrite Hslot; lia).
  destruct (String.eqb (sharedSpace (sharedMem s)) TERMINATE) eqn:E.
  - left. apply String.eqb_eq in E. destruct (Hterm E) as [H1 H2].
    rewrite Hslot' in H1. auto.
  - right. destruct (post_and_wait_message idx s c Hc E) as (s'' & Hrun' & Hlogs & Hprocs).
    rewrite Hrun in Hrun'. inversion Hrun'; subst s''.
    rewrite Hslot' in Hprocs. auto.
Qed.

Lemma Books_frame (now slack : Z) (s s' : State) :
  spawned (trace s') = spawned (trace s) ->
  logs s' = logs s ->
  procs s' = procs s ->
  Books now slack s -> Books now slack s'.
Proof.
  intros Ht Hl Hp [H1 H2 H3 H4]. constructor; rewrite ?Ht, ?Hl, ?Hp; assumption.
Qed.

Lemma Books_weaken (now slack now' slack' : Z) (s : State) :
  now <= now' -> now + slack <= now' + slack' ->
  Books now slack s -> Books now' slack' s.
Proof.
  intros Hn Hs [H1 H2 H3 H4]. constructor; auto.
  intros i c Hc. specialize (H3 i c Hc). lia.
Qed.

Lemma Books_initial (M now slack : Z) : Books now slack (initialState M).
Proof.
  constructor; simpl.
  - unfold live. rewrite (total_zero _ _ None); [reflexivity|].
    intros i. rewrite nth_replicate_default. reflexivity.
  - unfold liveLines. rewrite (total_zero _ _ None); [reflexivity|].
    intros i. rewrite nth_replicate_default. reflexivity.
  - intros i c Hc. rewrite nth_replicate_default in Hc. discriminate.
  - constructor.
Qed.

Lemma spawned_snoc_quiet (t : list Event) (l : list Event) :
  spawned l = 0 -> spawned (t ++ l) = spawned t.
Proof. intros H. unfold spawned in *. rewrite total_app, H. lia. Qed.

(** The child of the posted slot leaves on TERMINATE. *)
Lemma handover_terminate (M : Z) (lines : list string) (now slack idx : Z)
    (s s' : State) :
  0 <= slack <= 1 ->
  0 <= idx ->
  Inv M lines s ->
  Books now slack s ->
  endsInTimestamp (sharedMem s) = now ->
  sharedSpace (sharedMem s) = TERMINATE ->
  post_and_wait idx s = Continue s' ->
  Books now slack s' /\
  parent s' = parent s /\
  sentLines (trace s') = sentLines (trace s) /\
  receivedLines (logs s') = receivedLines (logs s) /\
  nth (Z.to_nat idx) (procs s) None <> None /\
  procs s' = <[Z.to_nat idx := None]> (procs s).
Proof.
  intros Hslack Hidx HI HB Hnow Hmsg Hrun.
  destruct (post_and_wait_cases M lines idx s s' Hidx HI Hrun)
    as (c & Hc & Hp & Ht & [(_ & Hprocs & Hlogs) | (E & _)]).
  2:{ rewrite Hmsg, String.eqb_refl in E. discriminate. }
  pose proof (nth_Some_lt _ _ _ Hc) as Hlt.
  destruct HB as [H1 H2 H3 H4].
  destruct (H3 _ _ Hc) as [Hact Hcnt].
  rewrite Hnow in Hlogs.
  replace (now >=? 0) with true in Hlogs by (symmetry; apply Z.geb_le; lia).
  split; [|split; [exact Hp|]; split; [|split; [|split; [|exact Hprocs]]]].
  - constructor.
    + rewrite Ht, spawned_snoc_quiet by reflexivity.
      rewrite Hlogs, Hprocs. unfold summaries, live in *.
      rewrite total_app, (total_insert _ _ _ _ None) by exact Hlt.
      rewrite Hc. simpl. lia.
    + rewrite Hlogs, Hprocs, receivedLines_app. simpl. rewrite app_nil_r.
      unfold summaryLines, liveLines in *.
      rewrite total_app, (total_insert _ _ _ _ None) by exact Hlt.
      rewrite Hc. simpl. lia.
    + intros i c' Hi. rewrite Hprocs in Hi.
      destruct (Nat.eq_dec (Z.to_nat idx) i) as [<- | Hne].
      * rewrite nth_insert_eq in Hi by exact Hlt. discriminate.
      * rewrite nth_insert_ne in Hi by exact Hne. apply H3 in Hi. exact Hi.
    + rewrite Hlogs. apply Forall_app. split; [exact H4|].
      constructor; [exact I|]. constructor; [|constructor].
      simpl. lia.
  - rewrite Ht, sentLines_app. simpl. apply app_nil_r.
  - rewrite Hlogs, receivedLines_app. simpl. apply app_nil_r.
  - rewrite Hc. discriminate.
Qed.

(** The child of the posted slot logs and counts any other message. *)
Lemma handover_message (M : Z) (lines : list string) (now slack idx : Z)
    (s s' : State) :
  0 <= idx ->
  Inv M lines s ->
  Books now slack s ->
  String.eqb (sharedSpace (sharedMem s)) TERMINATE = false ->
  post_and_wait idx s = Continue s' ->
  Books now (slack + 1) s' /\
  parent s' = parent s /\
  sentLines (trace s') = sentLines (trace s) /\
  receivedLines (logs s') = receivedLines (logs s) ++ [sharedSpace (sharedMem s)] /\
  nth (Z.to_nat idx) (procs s) None <> None /\
  exists c', procs s' = <[Z.to_nat idx := Some c']> (procs s).
Proof.
  intros Hidx HI HB Hmsg Hrun.
  destruct (post_and_wait_cases M lines idx s s' Hidx HI Hrun)
    as (c & Hc & Hp & Ht & [(E & _) | (_ & Hprocs & Hlogs)]).
  { rewrite E, String.eqb_refl in Hmsg. discriminate. }
  pose proof (nth_Some_lt _ _ _ Hc) as Hlt.
  destruct HB as [H1 H2 H3 H4].
  destruct (H3 _ _ Hc) as [Hact Hcnt].
  split; [|split; [exact Hp|]; split; [|split; [|split; [|eexists; exact Hprocs]]]].
  - constructor.
    + rewrite Ht, spawned_snoc_quiet by reflexivity.
      rewrite Hlogs, Hprocs. unfold summaries, live in *.
      rewrite total_app, (total_insert _ _ _ _ None) by exact Hlt.
      rewrite Hc. simpl. lia.
    + rewrite Hlogs, Hprocs, receivedLines_app. simpl. rewrite length_app. simpl.
      unfold summaryLines, liveLines in *.
      rewrite total_app, (total_insert _ _ _ _ None) by exact Hlt.
      rewrite Hc. simpl. lia.
    + intros i c' Hi. rewrite Hprocs in Hi.
      destruct (Nat.eq_dec (Z.to_nat idx) i) as [<- | Hne].
      * rewrite nth_insert_eq in Hi by exact Hlt. inversion Hi; subst c'. simpl. lia.
      * rewrite nth_insert_ne in Hi by exact Hne. apply H3 in Hi. lia.
    + rewrite Hlogs. apply Forall_app. split; [exact H4|].
      constructor; [exact I | constructor].
  - rewrite Ht, sentLines_app. simpl. apply app_nil_r.
  - rewrite Hlogs, receivedLines_app. reflexivity.
  - rewrite Hc. discriminate.
Qed.

Lemma Delivery_frame (s s' : State) :
  parent s' = parent s ->
  procs s' = procs s ->
  sentLines (trace s') = sentLines (trace s) ->
  logs s' = logs s ->
  Delivery s -> Delivery s'.
Proof.
  intros Hp Hprocs Ht Hl [[Heq Hall] | (i & Hpid & Hnone)].
  - left. split; [rewrite Ht, Hl; exact Heq|].
    intros i. unfold allWaiting in Hall. rewrite Hp, Hprocs. apply Hall.
  - right. exists i. unfold abandonedSlot. rewrite Hp, Hprocs. split; assumption.
Qed.

Ltac inv_steps :=
  repeat first
    [ apply Inv_emit; [reflexivity|]
    | apply Inv_store
    | apply Inv_set_sharedMem
    | apply Inv_set_terminationTime
    | apply Inv_set_randCalls ].

Section Audit.

Variable env : Env.
Variable M : Z.
Variable text : string.

Lemma spawn_audit (now : Z) (label : string) (s s' : State) :
  0 <= now ->
  Inv M (payloads text) s ->
  Books now 0 s ->
  Delivery s ->
  spawn env M now label s = Continue s' ->
  Books now 0 s' /\ Delivery s'.
Proof.
  intros Hnow HI HB HD. unfold spawn.
  destruct (freeSlotFinder_spec (children (parent s)) M) as [E | [Hrange Hfree]].
  { rewrite E. simpl. intros H. inversion H; subst. auto. }
  destruct (freeSlotFinder (children (parent s)) M =? -1);
    [intros H; inversion H; subst; auto|].
  set (freeSlot := freeSlotFinder (children (parent s)) M) in *.
  unfold fork. destruct (fork_result env (forkCalls s)) as [pid|];
    intros H; inversion H; subst s'; clear H.
  2:{ split; [apply (Books_frame now 0 s) | apply (Delivery_frame s)]; auto. }
  pose proof HI as HI'. open_inv HI'.
  assert (Hslot : (Z.to_nat freeSlot < Z.to_nat M)%nat) by lia.
  assert (Hnone : nth (Z.to_nat freeSlot) (procs s) None = None).
  { destruct (nth (Z.to_nat freeSlot) (procs s) None) as [c|] eqn:Hc; [|reflexivity].
    destruct (Hprocs _ _ Hc) as (_ & Hpid & Hpos & _). lia. }
  destruct HB as [H1 H2 H3 H4].
  split.
  - constructor; simpl.
    + unfold spawned, live in *. rewrite total_app.
      rewrite (total_insert _ _ _ _ None) by lia. rewrite Hnone. simpl. lia.
    + unfold liveLines in *.
      rewrite (total_insert _ _ _ _ None) by lia. rewrite Hnone. simpl. lia.
    + intros i c Hi.
      destruct (Nat.eq_dec (Z.to_nat freeSlot) i) as [<- | Hne].
      * rewrite nth_insert_eq in Hi by lia. inversion Hi; subst c. simpl. lia.
      * rewrite nth_insert_ne in Hi by exact Hne. apply H3 in Hi. exact Hi.
    + exact H4.
  - destruct HD as [[Heq Hall] | (i & Hpid & Hgone)].
    + left. split; [simpl; trace_simpl; exact Heq|].
      intros i. simpl.
      destruct (Nat.eq_dec (Z.to_nat freeSlot) i) as [<- | Hne].
      * intros _. rewrite nth_insert_eq by lia. discriminate.
      * rewrite !nth_insert_ne by exact Hne. apply Hall.
    + right. exists i. unfold abandonedSlot. simpl.
      assert (Hne : Z.to_nat freeSlot <> i) by (intros <-; lia).
      rewrite !nth_insert_ne by exact Hne. split; assumption.
Qed.

Lemma terminate_audit (now : Z) (label : string) (s s' : State) :
  Inv M (payloads text) s ->
  Books now 0 s ->
  Delivery s ->
  terminate M now label s = Continue s' ->
  Books now 0 s' /\ Delivery s'.
Proof.
  intros HI HB HD. unfold terminate.
  destruct (childLabelFinder_spec (childLabels (parent s)) label M)
    as [E | [Hrange _]].
  { rewrite E. simpl. intros H. inversion H; subst s'.
    split; [apply (Books_frame now 0 s) | apply (Delivery_frame s)]; auto;
      simpl; trace_simpl; try reflexivity.
    apply spawned_snoc_quiet. reflexivity. }
  destruct (childLabelFinder (childLabels (parent s)) label M =? -1) eqn:E;
    [apply Z.eqb_eq in E; lia|].
  set (childIndx := childLabelFinder (childLabels (parent s)) label M) in *.
  cbv zeta. intros H. apply andThen_continue in H as (s5 & Hpw & Hk).
  inversion Hk; subst s'; clear Hk.
  match type of Hpw with
  | post_and_wait _ ?s4 = _ =>
      remember s4 as st4 eqn:E4;
      assert (H4 : Inv M (payloads text) st4) by (subst st4; inv_steps; exact HI);
      assert (HB4 : Books now 0 st4)
        by (subst st4; apply (Books_frame now 0 s); auto;
            simpl; rewrite <- !app_assoc; apply spawned_snoc_quiet; reflexivity);
      assert (Hprocs4 : procs st4 = procs s) by (subst st4; reflexivity);
      assert (Hchildren4 : children (parent st4) = children (parent s))
        by (subst st4; reflexivity);
      assert (Hsent4 : sentLines (trace st4) = sentLines (trace s))
        by (subst st4; simpl; trace_simpl; reflexivity);
      assert (Hlogs4 : logs st4 = logs s) by (subst st4; reflexivity);
      assert (Hmem4 : sharedSpace (sharedMem st4) = TERMINATE)
        by (subst st4; reflexivity);
      assert (Hends4 : endsInTimestamp (sharedMem st4) = now)
        by (subst st4; reflexivity)
  end.
  clear E4.
  destruct (handover_terminate M (payloads text) now 0 childIndx st4 s5)
    as (HB5 & Hp5 & Hsent5 & Hrecv5 & Hlive & Hprocs5); auto; try lia.
  rewrite Hprocs4 in Hlive, Hprocs5.
  pose proof HI as HI'. open_inv HI'.
  split.
  - apply (Books_frame now 0 s5); auto.
    simpl. rewrite <- !app_assoc. apply spawned_snoc_quiet. reflexivity.
  - destruct HD as [[Heq Hall] | (i & Hpid & Hgone)].
    + left. split.
      * simpl. trace_simpl. rewrite Hsent5, Hsent4, Hrecv5, Hlogs4. exact Heq.
      * intros i. simpl. rewrite Hp5, Hchildren4, Hprocs5.
        destruct (Nat.eq_dec (Z.to_nat childIndx) i) as [<- | Hne].
        -- rewrite nth_insert_eq by lia. lia.
        -- rewrite !nth_insert_ne by exact Hne. apply Hall.
    + right. exists i. unfold abandonedSlot. simpl.
      rewrite Hp5, Hchildren4, Hprocs5.
      assert (Hne : Z.to_nat childIndx <> i) by (intros <-; contradiction).
      rewrite !nth_insert_ne by exact Hne. split; assumption.
Qed.

Lemma applyCommand_audit (now : Z) (e : ConfigEntry) (s s' : State) :
  0 <= now ->
  Inv M (payloads text) s ->
  Books now 0 s ->
  Delivery s ->
  applyCommand env M now e s = Continue s' ->
  Inv M (payloads text) s' /\ Books now 0 s' /\ Delivery s'.
Proof.
  intros Hnow HI HB HD Hrun.
  pose proof (applyCommand_ok env M (payloads text) now e s HI) as Hok.
  rewrite Hrun in Hok. split; [exact Hok|].
  revert Hrun. unfold applyCommand.
  destruct (Ascii.eqb (command e) "S" && (activeChildren (parent s) <? M)).
  - apply spawn_audit; assumption.
  - destruct (Ascii.eqb (command e) "T").
    + apply terminate_audit; assumption.
    + intros H. inversion H; subst. auto.
Qed.

Lemma commandLoop_audit (now : Z) (commands : list ConfigEntry) :
  forall s s',
    0 <= now ->
    Inv M (payloads text) s ->
    Books now 0 s ->
    Delivery s ->
    commandLoop env M now commands s = Continue s' ->
    Inv M (payloads text) s' /\ Books now 0 s' /\ Delivery s'.
Proof.
  induction commands as [|e rest IH]; intros s s' Hnow HI HB HD; simpl.
  - intros H. inversion H; subst. auto.
  - destruct (timestamp e =? now); [|apply IH; assumption].
    intros H. apply andThen_continue in H as (s1 & Hcmd & Hrest).
    destruct (applyCommand_audit now e s s1 Hnow HI HB HD Hcmd) as (HI1 & HB1 & HD1).
    apply (IH s1); assumption.
Qed.

Lemma deliver_audit (now : Z) (s s' : State) :
  Inv M (payloads text) s ->
  Books now 0 s ->
  Delivery s ->
  deliver env M text (lineCount text) now s = Continue s' ->
  Inv M (payloads text) s' /\ Books now 1 s' /\ Delivery s'.
Proof.
  intros HI HB HD Hrun.
  pose proof (deliver_ok env M (payloads text) text now s eq_refl HI) as Hok.
  rewrite Hrun in Hok. split; [exact Hok|].
  revert Hrun. unfold deliver.
  destruct (activeChildren (parent s) >? 0).
  2:{ intros H. inversion H; subst s'.
      split; [apply (Books_weaken now 0); auto; lia | exact HD]. }
  pose proof (randomActiveChildrenSelection_spec env M (children (parent s)) s)
    as Hsel.
  destruct (randomActiveChildrenSelection env (children (parent s)) M s)
    as [randChildIndx s1].
  destruct Hsel as [Hs1 Hidx].
  assert (H1 : Inv M (payloads text) s1 /\ Books now 0 s1 /\ Delivery s1 /\
               procs s1 = procs s /\ parent s1 = parent s).
  { destruct Hs1 as [-> | ->]; auto.
    split; [apply Inv_set_randCalls; exact HI|].
    split; [apply (Books_frame now 0 s); auto|].
    split; [apply (Delivery_frame s); auto | auto]. }
  destruct H1 as (HI1 & HB1 & HD1 & Hprocs1 & Hparent1).
  destruct (negb (randChildIndx =? -1) && (lineCount text >? 0)) eqn:Hguard.
  2:{ intros H. inversion H; subst s'.
      split; [apply (Books_weaken now 0); auto; lia | exact HD1]. }
  apply andb_true_iff in Hguard as [Hne Hpos].
  apply negb_true_iff, Z.eqb_neq in Hne. apply Z.gtb_lt in Hpos.
  destruct Hidx as [? | [Hrange Hactive]]; [contradiction|].
  destruct (randomLineSelection_spec env text EmptyString s1)
    as (k & Hk & _ & ->); [lia|].
  set (line := cstring (nth k (fileLines text) EmptyString)).
  assert (Hin : In line (payloads text)) by (apply payloads_nth; exact Hk).
  cbv zeta.
  match goal with
  | |- post_and_wait _ ?s6 = _ -> _ =>
      remember s6 as st6 eqn:E6;
      assert (H6 : Inv M (payloads text) st6)
        by (subst st6; apply Inv_announce; [exact Hin|]; inv_steps; exact HI1);
      assert (HB6 : Books now 0 st6)
        by (subst st6; apply (Books_frame now 0 s1); auto;
            simpl; rewrite <- !app_assoc; apply spawned_snoc_quiet; reflexivity);
      assert (Hprocs6 : procs st6 = procs s) by (subst st6; exact Hprocs1);
      assert (Hparent6 : parent st6 = parent s) by (subst st6; exact Hparent1);
      assert (Hsent6 : sentLines (trace st6) = sentLines (trace s1) ++ [line])
        by (subst st6; simpl; trace_simpl; reflexivity);
      assert (Hlogs6 : logs st6 = logs s1) by (subst st6; reflexivity);
      assert (Hmem6 : sharedSpace (sharedMem st6) = line)
        by (subst st6; reflexivity);
      assert (Hends6 : endsInTimestamp (sharedMem st6) = now)
        by (subst st6; reflexivity)
  end.
  clear E6. intros Hpw.
  pose proof HI as HI'. open_inv HI'.
  assert (Hslot : (Z.to_nat randChildIndx < Z.to_nat M)%nat) by lia.
  assert (Hsame : forall (v : option ChildProc) i,
             Z.to_nat randChildIndx <> i ->
             nth i (<[Z.to_nat randChildIndx := v]> (procs s)) None
             = nth i (procs s) None).
  { intros v i Hdiff. apply nth_insert_ne. exact Hdiff. }
  destruct (String.eqb line TERMINATE) eqn:Hline.
  - apply String.eqb_eq in Hline.
    destruct (handover_terminate M (payloads text) now 0 randChildIndx st6 s')
      as (HB' & Hp' & _ & _ & _ & Hprocs'); auto; try lia.
    { rewrite Hmem6. exact Hline. }
    split; [apply (Books_weaken now 0); auto; lia|].
    right. exists (Z.to_nat randChildIndx). unfold abandonedSlot.
    rewrite Hp', Hparent6, Hprocs', Hprocs6.
    split; [lia | apply nth_insert_eq; lia].
  - destruct (handover_message M (payloads text) now 0 randChildIndx st6 s')
      as (HB' & Hp' & Hsent' & Hrecv' & Hlive & c' & Hprocs'); auto; try lia.
    { rewrite Hmem6. exact Hline. }
    split; [exact HB'|].
    rewrite Hprocs6 in Hlive, Hprocs'.
    destruct HD1 as [[Heq Hall] | (i & Hpid & Hgone)].
    + left. split.
      * rewrite Hsent', Hsent6, Hrecv', Hlogs6, Hmem6, Heq. reflexivity.
      * intros i. rewrite Hp', Hparent6, Hprocs'.
        destruct (Nat.eq_dec (Z.to_nat randChildIndx) i) as [<- | Hdiff].
        -- intros _. rewrite nth_insert_eq by lia. discriminate.
        -- rewrite Hsame by exact Hdiff. unfold allWaiting in Hall.
           rewrite Hparent1, Hprocs1 in Hall. apply Hall.
    + right. exists i. unfold abandonedSlot in *.
      rewrite Hp', Hparent6, Hprocs'. rewrite Hparent1 in Hpid. rewrite Hprocs1 in Hgone.
      assert (Hdiff : Z.to_nat randChildIndx <> i) by (intros <-; contradiction).
      rewrite Hsame by exact Hdiff. split; assumption.
Qed.

Variable commands : list ConfigEntry.

Lemma tick_audit (now : Z) (s s' : State) :
  0 <= now ->
  Inv M (payloads text) s ->
  Books now 0 s ->
  Delivery s ->
  tick env M text (lineCount text) commands now s = Continue s' ->
  Inv M (payloads text) s' /\ Books now 1 s' /\ Delivery s'.
Proof.
  intros Hnow HI HB HD. unfold tick. intros H.
  apply andThen_continue in H as (s1 & Hcmd & Hdel).
  destruct (commandLoop_audit now commands (emit (Tick now) s) s1)
    as (HI1 & HB1 & HD1); auto.
  - apply Inv_emit; [reflexivity | exact HI].
  - apply (Books_frame now 0 s); auto. simpl. apply spawned_snoc_quiet. reflexivity.
  - apply (Delivery_frame s); auto. simpl. trace_simpl. reflexivity.
  - apply (deliver_audit now s1); assumption.
Qed.

Lemma tickLoop_audit (quitTimestamp : Z) (fuel : nat) :
  forall (now : Z) (s s' : State),
    0 <= now ->
    (Z.to_nat (quitTimestamp + 1 - now) <= fuel)%nat ->
    Inv M (payloads text) s ->
    Books now 0 s ->
    Delivery s ->
    tickLoop env M text (lineCount text) commands quitTimestamp fuel now s
      = Continue s' ->
    Inv M (payloads text) s' /\ Delivery s' /\
    ((quitTimestamp < now /\ s' = s) \/ Books quitTimestamp 1 s').
Proof.
  induction fuel as [|fuel IH]; intros now s s' Hnow Hfuel HI HB HD; simpl.
  - destruct (now <=? quitTimestamp) eqn:E; [apply Z.leb_le in E; lia|].
    apply Z.leb_gt in E. intros H. inversion H; subst s'. auto.
  - destruct (now <=? quitTimestamp) eqn:E.
    + apply Z.leb_le in E. intros H.
      apply andThen_continue in H as (s1 & Htick & Hrest).
      apply increment_continue in Hrest as [_ Hrest].
      destruct (tick_audit now s s1 Hnow HI HB HD Htick) as (HI1 & HB1 & HD1).
      destruct (IH (now + 1) s1 s') as (HI' & HD' & Hend); auto; try lia.
      { apply (Books_weaken now 1); auto; lia. }
      split; [exact HI'|]. split; [exact HD'|]. right.
      destruct Hend as [[Hlt ->] | HB']; [|exact HB'].
      apply (Books_weaken now 1); auto; lia.
    + apply Z.leb_gt in E. intros H. inversion H; subst s'. auto.
Qed.

(** One slot of the final loop. *)
Lemma drainSlot_audit (quitTimestamp : Z) (i : nat) (s s' : State) :
  Inv M (payloads text) s ->
  Books quitTimestamp 1 s ->
  drainSlot quitTimestamp i s = Continue s' ->
  Inv M (payloads text) s' /\
  Books quitTimestamp 1 s' /\
  sentLines (trace s') = sentLines (trace s) /\
  receivedLines (logs s') = receivedLines (logs s) /\
  nth i (procs s') None = None /\
  (forall j, j <> i -> nth j (procs s') None = nth j (procs s) None).
Proof.
  intros HI HB Hrun.
  pose proof (drainSlot_ok M (payloads text) quitTimestamp i s HI) as Hok.
  rewrite Hrun in Hok. split; [exact Hok|].
  revert Hrun. unfold drainSlot.
  destruct (nth i (children (parent s)) 0 >? 0) eqn:E.
  - cbv zeta. intros H. apply andThen_continue in H as (s5 & Hpw & Hk).
    inversion Hk; subst s'; clear Hk.
    match type of Hpw with
    | post_and_wait _ ?s4 = _ =>
        remember s4 as st4 eqn:E4;
        assert (H4 : Inv M (payloads text) st4) by (subst st4; inv_steps; exact HI);
        assert (HB4 : Books quitTimestamp 1 st4)
          by (subst st4; apply (Books_frame quitTimestamp 1 s); auto;
              simpl; rewrite <- !app_assoc; apply spawned_snoc_quiet; reflexivity);
        assert (Hprocs4 : procs st4 = procs s) by (subst st4; reflexivity);
        assert (Hsent4 : sentLines (trace st4) = sentLines (trace s))
          by (subst st4; simpl; trace_simpl; reflexivity);
        assert (Hlogs4 : logs st4 = logs s) by (subst st4; reflexivity);
        assert (Hmem4 : sharedSpace (sharedMem st4) = TERMINATE)
          by (subst st4; reflexivity);
        assert (Hends4 : endsInTimestamp (sharedMem st4) = quitTimestamp)
          by (subst st4; reflexivity)
    end.
    clear E4.
    destruct (handover_terminate M (payloads text) quitTimestamp 1 (Z.of_nat i) st4 s5)
      as (HB5 & Hp5 & Hsent5 & Hrecv5 & Hlive & Hprocs5); auto; try lia.
    rewrite Nat2Z.id, Hprocs4 in Hlive, Hprocs5.
    assert (Hlt : (i < length (procs s))%nat).
    { destruct (nth i (procs s) None) as [c|] eqn:Hc; [|contradiction].
      exact (nth_Some_lt _ _ _ Hc). }
    split; [|split; [|split; [|split]]].
    + apply (Books_frame quitTimestamp 1 s5); auto.
      simpl. rewrite <- !app_assoc. apply spawned_snoc_quiet. reflexivity.
    + simpl. trace_simpl. rewrite Hsent5, Hsent4. reflexivity.
    + simpl. rewrite Hrecv5, Hlogs4. reflexivity.
    + simpl. rewrite Hprocs5. apply nth_insert_eq. exact Hlt.
    + intros j Hj. simpl. rewrite Hprocs5. apply nth_insert_ne. auto.
  - intros H. inversion H; subst s'.
    split; [exact HB|]. split; [reflexivity|]. split; [reflexivity|].
    split; [|auto].
    destruct (nth i (procs s) None) as [c|] eqn:Hc; [|reflexivity].
    destruct (inv_procs _ _ _ HI _ _ Hc) as (_ & Hpid & Hpos & _).
    rewrite Z.gtb_ltb in E. apply Z.ltb_ge in E. lia.
Qed.

Lemma drainLoop_audit (quitTimestamp : Z) (n : nat) :
  forall (i : nat) (s s' : State),
    Inv M (payloads text) s ->
    Books quitTimestamp 1 s ->
    (forall j, (j < i)%nat -> nth j (procs s) None = None) ->
    drainLoop quitTimestamp i n s = Continue s' ->
    Inv M (payloads text) s' /\
    Books quitTimestamp 1 s' /\
    sentLines (trace s') = sentLines (trace s) /\
    receivedLines (logs s') = receivedLines (logs s) /\
    (forall j, (j < i + n)%nat -> nth j (procs s') None = None).
Proof.
  induction n as [|n IH]; intros i s s' HI HB Hdone; simpl.
  - intros H. inversion H; subst s'.
    split; [exact HI|]. split; [exact HB|].
    split; [reflexivity|]. split; [reflexivity|].
    intros j Hj. apply Hdone. lia.
  - intros H. apply andThen_continue in H as (s1 & Hslot & Hrest).
    destruct (drainSlot_audit quitTimestamp i s s1 HI HB Hslot)
      as (HI1 & HB1 & Hsent1 & Hrecv1 & Hnone1 & Hothers1).
    destruct (IH (S i) s1 s') as (HI' & HB' & Hsent' & Hrecv' & Hnone'); auto.
    { intros j Hj. destruct (Nat.eq_dec j i) as [-> | Hne]; [exact Hnone1|].
      rewrite Hothers1 by exact Hne. apply Hdone. lia. }
    split; [exact HI'|]. split; [exact HB'|].
    split; [rewrite Hsent', Hsent1; reflexivity|].
    split; [rewrite Hrecv', Hrecv1; reflexivity|].
    intros j Hj. apply Hnone'. lia.
Qed.

(** The final loop blocks on an abandoned slot. *)
Lemma drainLoop_abandoned (quitTimestamp : Z) (n : nat) :
  forall (i j : nat) (s s' : State),
    Inv M (payloads text) s ->
    abandonedSlot j s ->
    (i <= j < i + n)%nat ->
    drainLoop quitTimestamp i n s <> Continue s'.
Proof.
  induction n as [|n IH]; intros i j s s' HI [Hpid Hgone] Hj; simpl; [lia|].
  intros H. apply andThen_continue in H as (s1 & Hslot & Hrest).
  destruct (Nat.eq_dec i j) as [-> | Hne].
  - revert Hslot. unfold drainSlot.
    replace (nth j (children (parent s)) 0 >? 0) with true
      by (symmetry; apply Z.gtb_lt; lia).
    cbv zeta. intros H. apply andThen_continue in H as (s5 & Hpw & _).
    destruct (post_and_wait_continue _ _ _ Hpw) as (c & Hc & _).
    rewrite Nat2Z.id in Hc. simpl in Hc. rewrite Hgone in Hc. discriminate.
  - pose proof (drainSlot_ok M (payloads text) quitTimestamp i s HI) as Hok.
    rewrite Hslot in Hok.
    pose proof (drainSlot_children quitTimestamp i s) as Hch.
    rewrite Hslot in Hch. simpl in Hch.
    assert (Hprocs1 : nth j (procs s1) None = None).
    { revert Hslot. unfold drainSlot.
      destruct (nth i (children (parent s)) 0 >? 0);
        [|intros H; inversion H; subst; exact Hgone].
      cbv zeta. intros H. apply andThen_continue in H as (s5 & Hpw & Hk).
      inversion Hk; subst s1; clear Hk. simpl.
      match type of Hpw with
      | post_and_wait _ ?s4 = _ =>
          assert (H4 : Inv M (payloads text) s4) by (inv_steps; exact HI);
          destruct (post_and_wait_cases M (payloads text) (Z.of_nat i) s4 s5
                      (Nat2Z.is_nonneg i) H4 Hpw)
            as (c & _ & _ & _ & [(_ & Hp & _) | (_ & Hp & _)])
      end; rewrite Hp, Nat2Z.id; simpl;
        rewrite nth_insert_ne by exact Hne; exact Hgone. }
    apply (IH (S i) j s1 s' Hok); [|lia | exact Hrest].
    split; [rewrite Hch; exact Hpid | exact Hprocs1].
Qed.

End Audit.

(** What the logs of a completed run add up to. *)
Lemma completed_run_audit (env : Env) (commands : list ConfigEntry)
    (text : string) (M : Z) (s : State) :
  parentProcess env commands text M = Completed s ->
  sentLines (trace s) = receivedLines (logs s) /\
  spawned (trace s) = summaries (logs s) /\
  summaryLines (logs s) = Z.of_nat (length (receivedLines (logs s))) /\
  Forall summaryOk (logs s) /\
  Forall (fun l => In l (payloads text)) (receivedLines (logs s)).
Proof.
  unfold parentProcess.
  destruct (findQuit commands =? -1); [discriminate|].
  set (Q := findQuit commands).
  destruct (andThen _ _) as [s2 | s2 | s2 | s2] eqn:Hrun; try discriminate.
  intros H. inversion H; subst s; clear H.
  apply andThen_continue in Hrun as (s1 & Hloop & Hdrain).
  destruct (tickLoop_audit env M text commands Q (Z.to_nat (Q + 1)) 0
              (initialState M) s1) as (HI1 & HD1 & HB1); auto; try lia.
  { apply Inv_initial. }
  { apply Books_initial. }
  { left. split; [reflexivity|]. intros i. simpl.
    rewrite nth_replicate_default. lia. }
  assert (HB1' : Books Q 1 s1).
  { destruct HB1 as [[_ ->] | HB1]; [apply Books_initial | exact HB1]. }
  destruct (drainLoop_audit M text Q (Z.to_nat M) 0 s1 s2 HI1 HB1')
    as (HI2 & HB2 & Hsent2 & Hrecv2 & Hnone2); auto.
  { intros j Hj. lia. }
  assert (Hall : forall j, nth j (procs s2) None = None).
  { intros j. destruct (Nat.lt_ge_cases j (Z.to_nat M)) as [Hlt | Hge];
      [apply Hnone2; lia|].
    apply nth_overflow. rewrite (inv_procs_length _ _ _ HI2). lia. }
  destruct HB2 as [H1 H2 _ H4].
  assert (Hlive : live (procs s2) = 0).
  { apply (total_zero _ _ None). intros j. rewrite Hall. reflexivity. }
  assert (Hcnt : liveLines (procs s2) = 0).
  { apply (total_zero _ _ None). intros j. rewrite Hall. reflexivity. }
  simpl. trace_simpl.
  split.
  - rewrite Hsent2, Hrecv2.
    destruct HD1 as [[Heq _] | (j & Hpid & Hgone)]; [exact Heq|].
    exfalso.
    apply (drainLoop_abandoned M text Q (Z.to_nat M) 0 j s1 s2 HI1
             (conj Hpid Hgone)); [|exact Hdrain].
    split; [lia|].
    destruct (Nat.lt_ge_cases j (Z.to_nat M)) as [Hlt | Hge]; [lia|].
    rewrite nth_overflow in Hpid by (rewrite (inv_children _ _ _ HI1); lia). lia.
  - split; [|split; [lia|split; [exact H4 | exact (inv_received _ _ _ HI2)]]].
    unfold spawned in *. rewrite total_app. simpl. lia.
Qed.

(** In a run that completes, the children have logged exactly the lines
    the parent announced as sent, in the same order, each of them the
    C string of a record of the text file: no announced line is lost,
    repeated or logged out of order. *)
Theorem completed_run_logs_the_sent_lines (env : Env)
    (commands : list ConfigEntry) (text : string) (M : Z) (s : State) :
  parentProcess env commands text M = Completed s ->
  receivedLines (logs s) = sentLines (trace s) /\
  Forall (fun l => In l (payloads text)) (receivedLines (logs s)).
Proof.
  intros H. destruct (completed_run_audit env commands text M s H)
    as (H1 & _ & _ & _ & H5).
  split; [symmetry; exact H1 | exact H5].
Qed.

Lemma completed_run_logs_the_sent_lines_witness :
  exists s,
    parentProcess env_example config_two_children text_example 2 = Completed s /\
    receivedLines (logs s) = sentLines (trace s) /\
    Forall (fun l => In l (payloads text_example)) (receivedLines (logs s)).
Proof.
  eexists. split; [vm_compute; reflexivity|].
  apply (completed_run_logs_the_sent_lines env_example config_two_children
                                           text_example 2).
  vm_compute. reflexivity.
Defined.

(** In a run that completes, every child the parent announced as spawned
    has written exactly one summary, and the line counts of the summaries
    add up to the number of messages the children logged. *)
Theorem completed_run_summaries_add_up (env : Env)
    (commands : list ConfigEntry) (text : string) (M : Z) (s : State) :
  parentProcess env commands text M = Completed s ->
  summaries (logs s) = spawned (trace s) /\
  summaryLines (logs s) = Z.of_nat (length (receivedLines (logs s))).
Proof.
  intros H. destruct (completed_run_audit env commands text M s H)
    as (_ & H2 & H3 & _).
  split; [symmetry; exact H2 | exact H3].
Qed.

Lemma completed_run_summaries_add_up_witness :
  exists s,
    parentProcess env_example config_two_children text_example 2 = Completed s /\
    summaries (logs s) = spawned (trace s) /\
    summaryLines (logs s) = Z.of_nat (length (receivedLines (logs s))).
Proof.
  eexists. split; [vm_compute; reflexivity|].
  apply (completed_run_summaries_add_up env_example config_two_children
                                        text_example 2).
  vm_compute. reflexivity.
Defined.

(** In a run that completes, every summary is consistent: the active time
    it prints is the end stamp minus the activation time, the activation
    time is a tick not later than the end stamp, and the child counted at
    most one line per tick from its activation to its end. *)
Theorem completed_run_summaries_consistent (env : Env)
    (commands : list ConfigEntry) (text : string) (M : Z) (s : State) :
  parentProcess env commands text M = Completed s ->
  Forall summaryOk (logs s).
Proof.
  intros H. destruct (completed_run_audit env commands text M s H)
    as (_ & _ & _ & H4 & _).
  exact H4.
Qed.

Lemma completed_run_summaries_consistent_witness :
  exists s,
    parentProcess env_example config_two_children text_example 2 = Completed s /\
    Forall summaryOk (logs s).
Proof.
  eexists. split; [vm_compute; reflexivity|].
  apply (completed_run_summaries_consistent env_example config_two_children
                                            text_example 2).
  vm_compute. reflexivity.
Defined.

(** ** What a run depends on *)

Lemma andThen_ext (o : Outcome) (k1 k2 : State -> Outcome) :
  (forall s, k1 s = k2 s) -> andThen o k1 = andThen o k2.
Proof. intros H. destruct o; simpl; auto. Qed.

Lemma tickLoop_schedule (env : Env) (M : Z) (text : string) (n : Z)
    (c1 c2 : list ConfigEntry) (quitTimestamp : Z) (fuel : nat) :
  forall (currTime : Z) (s : State),
    (forall t, currTime <= t <= quitTimestamp ->
               scheduledAt t c1 = scheduledAt t c2) ->
    tickLoop env M text n c1 quitTimestamp fuel currTime s
      = tickLoop env M text n c2 quitTimestamp fuel currTime s.
Proof.
  induction fuel as [|fuel IH]; intros currTime s Hsame; simpl; [reflexivity|].
  destruct (currTime <=? quitTimestamp) eqn:E; [|reflexivity].
  apply Z.leb_le in E. unfold tick.
  rewrite !commandLoop_scheduled, (Hsame currTime) by lia.
  apply andThen_ext. intros s1.
  destruct (currTime =? INT_MAX); [reflexivity|]. apply IH.
  intros t Ht. apply Hsame. lia.
Qed.

Lemma same_schedule_same_run (env : Env) (c1 c2 : list ConfigEntry)
    (text : string) (M : Z) :
  findQuit c1 < INT_MAX ->
  findQuit c1 = findQuit c2 ->
  (forall t, 0 <= t <= findQuit c1 -> scheduledAt t c1 = scheduledAt t c2) ->
  parentProcess env c1 text M = parentProcess env c2 text M.
Proof.
  intros _ HQ Hsame. unfold parentProcess. rewrite <- HQ.
  destruct (findQuit c1 =? -1); [reflexivity|].
  rewrite (tickLoop_schedule env M text (lineCount text) c1 c2); [reflexivity|].
  exact Hsame.
Qed.

(** A run whose quit timestamp [Q] is below [INT_MAX] is determined by
    [Q] and, for each tick from 0 to [Q], the entries scheduled at that
    tick in file order.  Two configurations that agree on these give the
    same run: entries with a negative timestamp or one after [Q], and the
    relative order of entries of different ticks, make no difference. *)
Theorem run_depends_on_the_schedule (env : Env) (c1 c2 : list ConfigEntry)
    (text : string) (M : Z) :
  findQuit c1 < INT_MAX ->
  findQuit c1 = findQuit c2 ->
  (forall t, 0 <= t <= findQuit c1 -> scheduledAt t c1 = scheduledAt t c2) ->
  parentProcess env c1 text M = parentProcess env c2 text M.
Proof. apply same_schedule_same_run. Qed.

Lemma run_depends_on_the_schedule_witness :
  parentProcess env_example config_two_children text_example 2
  = parentProcess env_example
      (entry 5 "C1" "T" :: entry 2 "C2" "S" :: entry (-3) "C2" "T" ::
       entry 0 "C1" "S" :: entry 8 "EXIT" "E" :: entry 9 "C3" "S" ::
       entry 12 "EXIT" "E" :: [])%string%char
      text_example 2.
Proof.
  apply (run_depends_on_the_schedule env_example).
  - vm_compute. reflexivity.
  - reflexivity.
  - change (findQuit config_two_children) with 8.
    intros t Ht. unfold scheduledAt, config_two_children, entry.
    cbn [List.filter timestamp].
    replace (-3 =? t) with false by (symmetry; apply Z.eqb_neq; lia).
    replace (9 =? t) with false by (symmetry; apply Z.eqb_neq; lia).
    replace (12 =? t) with false by (symmetry; apply Z.eqb_neq; lia).
    destruct (0 =? t) eqn:E0; [apply Z.eqb_eq in E0; subst t; reflexivity|].
    destruct (2 =? t) eqn:E2; [apply Z.eqb_eq in E2; subst t; reflexivity|].
    destruct (5 =? t) eqn:E5; [apply Z.eqb_eq in E5; subst t; reflexivity|].
    reflexivity.
Defined.

(** ** Where a run hangs *)

Lemma andThen_waits (M : Z) (o : Outcome) (k : State -> Outcome) :
  WaitsOnEmptySlot M o ->
  (forall s, o = Continue s -> WaitsOnEmptySlot M (k s)) ->
  WaitsOnEmptySlot M (andThen o k).
Proof. destruct o as [s | s | s | s]; simpl; auto. Qed.

Lemma post_and_wait_waits (M : Z) (lines : list string) (idx : Z) (s : State) :
  0 <= idx < M ->
  Inv M lines s ->
  WaitsOnEmptySlot M (post_and_wait idx s).
Proof.
  intros Hidx HI. unfold post_and_wait. cbn [procs emit set_semaphores].
  destruct (nth (Z.to_nat idx) (procs s) None) as [c|] eqn:Hc; [exact I|].
  unfold WaitsOnEmptySlot, blockedAt. simpl. exists idx, (trace s).
  split; [exact Hidx|]. split; [rewrite <- !app_assoc; reflexivity|].
  split; [exact Hc|].
  rewrite (inv_semaphores _ _ _ HI), nth_replicate_default.
  split; [reflexivity | exact (inv_notification _ _ _ HI)].
Qed.

Section Hang.

Variable env : Env.
Variable M : Z.
Variable text : string.

Lemma terminate_waits (currTime : Z) (label : string) (s : State) :
  Inv M (payloads text) s ->
  WaitsOnEmptySlot M (terminate M currTime label s).
Proof.
  intros HI. unfold terminate.
  destruct (childLabelFinder_spec (childLabels (parent s)) label M)
    as [E | [Hrange _]].
  { rewrite E. exact I. }
  destruct (childLabelFinder (childLabels (parent s)) label M =? -1); [exact I|].
  cbv zeta. apply andThen_waits; [|intros; exact I].
  apply (post_and_wait_waits M (payloads text)); [exact Hrange|].
  inv_steps. exact HI.
Qed.

Lemma applyCommand_waits (currTime : Z) (e : ConfigEntry) (s : State) :
  Inv M (payloads text) s ->
  WaitsOnEmptySlot M (applyCommand env M currTime e s).
Proof.
  intros HI. unfold applyCommand.
  destruct (Ascii.eqb (command e) "S" && (activeChildren (parent s) <? M)).
  - unfold spawn, fork.
    destruct (freeSlotFinder (children (parent s)) M =? -1); [exact I|].
    destruct (fork_result env (forkCalls s)); exact I.
  - destruct (Ascii.eqb (command e) "T"); [|exact I].
    apply terminate_waits. exact HI.
Qed.

Lemma commandLoop_waits (currTime : Z) (commands : list ConfigEntry) :
  forall s, Inv M (payloads text) s ->
            WaitsOnEmptySlot M (commandLoop env M currTime commands s).
Proof.
  induction commands as [|e rest IH]; intros s HI; simpl; [exact I|].
  destruct (timestamp e =? currTime); [|apply IH; exact HI].
  apply andThen_waits; [apply applyCommand_waits; exact HI|].
  intros s1 Hs1. apply IH.
  pose proof (applyCommand_ok env M (payloads text) currTime e s HI) as Hok.
  rewrite Hs1 in Hok. exact Hok.
Qed.

Lemma deliver_waits (currTime : Z) (s : State) :
  Inv M (payloads text) s ->
  WaitsOnEmptySlot M (deliver env M text (lineCount text) currTime s).
Proof.
  intros HI. unfold deliver.
  destruct (activeChildren (parent s) >? 0); [|exact I].
  pose proof (randomActiveChildrenSelection_spec env M (children (parent s)) s)
    as Hsel.
  destruct (randomActiveChildrenSelection env (children (parent s)) M s)
    as [randChildIndx s1].
  destruct Hsel as [Hs1 Hidx].
  assert (HI1 : Inv M (payloads text) s1).
  { destruct Hs1 as [-> | ->]; [exact HI | apply Inv_set_randCalls; exact HI]. }
  destruct (negb (randChildIndx =? -1) && (lineCount text >? 0)) eqn:Hguard;
    [|exact I].
  apply andb_true_iff in Hguard as [Hne Hpos].
  apply negb_true_iff, Z.eqb_neq in Hne. apply Z.gtb_lt in Hpos.
  destruct Hidx as [? | [Hrange _]]; [contradiction|].
  destruct (randomLineSelection_spec env text EmptyString s1)
    as (k & Hk & _ & ->); [lia|].
  cbv zeta.
  apply (post_and_wait_waits M (payloads text)); [exact Hrange|].
  apply Inv_announce; [apply payloads_nth; exact Hk|].
  inv_steps. exact HI1.
Qed.

Variable commands : list ConfigEntry.

Lemma tick_waits (currTime : Z) (s : State) :
  Inv M (payloads text) s ->
  WaitsOnEmptySlot M (tick env M text (lineCount text) commands currTime s).
Proof.
  intros HI. unfold tick.
  assert (HI0 : Inv M (payloads text) (emit (Tick currTime) s))
    by (apply Inv_emit; [reflexivity | exact HI]).
  apply andThen_waits; [apply commandLoop_waits; exact HI0|].
  intros s1 Hs1. apply deliver_waits.
  pose proof (commandLoop_ok env M (payloads text) currTime commands _ HI0) as Hok.
  rewrite Hs1 in Hok. exact Hok.
Qed.

Lemma tickLoop_waits (quitTimestamp : Z) (fuel : nat) :
  forall currTime s,
    Inv M (payloads text) s ->
    WaitsOnEmptySlot M
      (tickLoop env M text (lineCount text) commands quitTimestamp fuel currTime s).
Proof.
  induction fuel as [|fuel IH]; intros currTime s HI; simpl.
  - destruct (currTime <=? quitTimestamp); exact I.
  - destruct (currTime <=? quitTimestamp); [|exact I].
    apply andThen_waits; [apply tick_waits; exact HI|].
    intros s1 Hs1. destruct (currTime =? INT_MAX); [exact I|]. apply IH.
    pose proof (tick_ok env M (payloads text) text eq_refl commands currTime s HI)
      as Hok.
    rewrite Hs1 in Hok. exact Hok.
Qed.

Lemma drainLoop_waits (quitTimestamp : Z) (n : nat) :
  forall i s,
    (i + n <= Z.to_nat M)%nat ->
    Inv M (payloads text) s ->
    WaitsOnEmptySlot M (drainLoop quitTimestamp i n s).
Proof.
  induction n as [|n IH]; intros i s Hin HI; simpl; [exact I|].
  apply andThen_waits.
  - unfold drainSlot.
    destruct (nth i (children (parent s)) 0 >? 0); [|exact I].
    cbv zeta. apply andThen_waits; [|intros; exact I].
    apply (post_and_wait_waits M (payloads text)); [lia|].
    inv_steps. exact HI.
  - intros s1 Hs1. apply IH; [lia|].
    pose proof (drainSlot_ok M (payloads text) quitTimestamp i s HI) as Hok.
    rewrite Hs1 in Hok. exact Hok.
Qed.

End Hang.

Lemma hung_run_blockedAt (env : Env) (commands : list ConfigEntry)
    (text : string) (M : Z) (s : State) :
  parentProcess env commands text M = Hung s -> blockedAt M s.
Proof.
  unfold parentProcess.
  destruct (findQuit commands =? -1); [discriminate|].
  set (Q := findQuit commands).
  assert (Hw : WaitsOnEmptySlot M
                 (andThen (tickLoop env M text (lineCount text) commands Q
                                    (Z.to_nat (Q + 1)) 0 (initialState M))
                          (drainLoop Q 0 (Z.to_nat M)))).
  { apply andThen_waits.
    - apply tickLoop_waits. apply Inv_initial.
    - intros s1 Hs1. apply (drainLoop_waits M text); [lia|].
      pose proof (tickLoop_ok env M (payloads text) text eq_refl commands Q
                              (Z.to_nat (Q + 1)) 0 (initialState M)
                              (Inv_initial M (payloads text))) as Hok.
      rewrite Hs1 in Hok. exact Hok. }
  destruct (andThen _ _) as [s1 | s1 | s1 | s1]; try discriminate.
  intros H. inversion H; subst s1. exact Hw.
Qed.

(** A run can only hang in one way: the parent has just posted the
    semaphore of a slot on which no child waits and is blocked in the
    wait on the notification semaphore that follows.  The posted
    semaphore stays at 1, every other slot semaphore and the notification
    semaphore are at 0, and no clean-up is done. *)
Theorem hung_run_waits_on_empty_slot (env : Env) (commands : list ConfigEntry)
    (text : string) (M : Z) (s : State) :
  parentProcess env commands text M = Hung s ->
  exists idx pre,
    0 <= idx < M /\
    trace s = pre ++ [SemPost idx; SemWait false] /\
    nth (Z.to_nat idx) (procs s) None = None /\
    semaphores s = <[Z.to_nat idx := 1]> (replicate (Z.to_nat M) 0) /\
    parentNotificationSemaphore s = 0.
Proof. apply hung_run_blockedAt. Qed.

Lemma hung_run_waits_on_empty_slot_witness :
  exists s,
    parentProcess env_example config_twice_terminated text_example 1 = Hung s /\
    exists idx pre,
      0 <= idx < 1 /\
      trace s = pre ++ [SemPost idx; SemWait false] /\
      nth (Z.to_nat idx) (procs s) None = None /\
      semaphores s = <[Z.to_nat idx := 1]> (replicate (Z.to_nat 1) 0) /\
      parentNotificationSemaphore s = 0.
Proof.
  eexists. split; [vm_compute; reflexivity|].
  apply (hung_run_waits_on_empty_slot env_example config_twice_terminated
                                      text_example 1).
  vm_compute. reflexivity.
Defined.
